(** * MaskMark: geometric noise layers and the COCO mask loader

    A shallow embedding of [src/models/noise_layers/geometric.py] and
    [src/utils/loader.py].

    - Tensors are nested lists of rationals: a plane is a list of rows, a
      3-d tensor a list of planes (channels), a 4-d tensor a list of 3-d
      tensors (batch).  Shapes are read off the lists, as [tensor.shape]
      reads them off the tensor.
    - Python floats are exact rationals ([Q]); [int(x)] truncates.
    - The three process-wide random sources the code draws from (torch,
      Python's [random], numpy) are states of a generator that is a
      parameter of the development; every sampling function threads them.
    - Exceptions are the [Err] branch of [result]. *)

From Stdlib Require Import ZArith QArith Qround Qminmax Qabs List Bool Lia Lqa Permutation.
Import ListNotations.
Open Scope Z_scope.

(** ** Exceptions and results *)

Inductive exn : Type :=
| ValueError
| RuntimeError
| IndexError.

Inductive result (A : Type) : Type :=
| Ok (a : A)
| Err (e : exn).
Arguments Ok {A} a.
Arguments Err {A} e.

(** ** Pseudo-random generators

    A generator has a state, a step that yields one raw draw and the next
    state, and a seeding function.  [torch.manual_seed], [random.seed] and
    the samplers below are written against this interface. *)

Record Generator : Type := {
  gen_state : Type;
  gen_next : gen_state -> N * gen_state;
  gen_seed : Z -> gen_state
}.

(** [int(x)] of a Python float: truncation toward zero. *)
Definition py_int (x : Q) : Z :=
  if Qle_bool 0 x then Qfloor x else Qceiling x.

(** [x * n] for a float [x] and an integer [n]. *)
Definition fmul (x : Q) (n : Z) : Q := x * inject_Z n.

Section Random.

Variable G : Generator.

(** The process-wide random sources. *)
Record rng : Type := {
  torch_rng : gen_state G;
  py_rng : gen_state G;
  np_rng : gen_state G
}.

Definition set_torch (t : gen_state G) (s : rng) : rng :=
  {| torch_rng := t; py_rng := py_rng s; np_rng := np_rng s |}.
Definition set_py (p : gen_state G) (s : rng) : rng :=
  {| torch_rng := torch_rng s; py_rng := p; np_rng := np_rng s |}.
Definition set_np (n : gen_state G) (s : rng) : rng :=
  {| torch_rng := torch_rng s; py_rng := py_rng s; np_rng := n |}.

(** Computations that read and advance the random sources and may raise. *)
Definition M (A : Type) : Type := rng -> result (A * rng).

Definition ret {A} (a : A) : M A := fun s => Ok (a, s).
Definition raise {A} (e : exn) : M A := fun _ => Err e.
Definition bind {A B} (m : M A) (k : A -> M B) : M B :=
  fun s => match m s with
           | Ok (a, s') => k a s'
           | Err e => Err e
           end.
Definition lift {A} (r : result A) : M A :=
  fun s => match r with Ok a => Ok (a, s) | Err e => Err e end.

(** What a caller observes of a call: the returned value or the exception. *)
Definition outcome {A} (r : result (A * rng)) : result A :=
  match r with Ok (a, _) => Ok a | Err e => Err e end.

End Random.

Arguments ret {G A} a.
Arguments raise {G A} e.
Arguments bind {G A B} m k.
Arguments lift {G A} r.
Arguments outcome {G A} r.
Arguments torch_rng {G} r.
Arguments py_rng {G} r.
Arguments np_rng {G} r.
Arguments set_torch {G} t s.
Arguments set_py {G} p s.
Arguments set_np {G} n s.

Declare Scope monad_scope.
Delimit Scope monad_scope with monad.
Notation "x <- m ;; k" := (bind m (fun x => k))
  (at level 61, m at next level, right associativity) : monad_scope.
Notation "' p <- m ;; k" := (bind m (fun x => match x with p => k end))
  (at level 61, p pattern, m at next level, right associativity) : monad_scope.
Open Scope monad_scope.

Section Samplers.

Variable G : Generator.

(** [torch.randint(low, high, size=(1,)).item()]: an integer of [low, high);
    an empty range raises RuntimeError. *)
Definition torch_randint (low high : Z) : M G Z :=
  fun s =>
    if low <? high then
      let (r, t) := gen_next G (torch_rng s) in
      Ok (low + Z.of_N r mod (high - low), set_torch t s)
    else Err RuntimeError.

(** [torch.rand(1).item()]: a float of [0, 1). *)
Definition torch_rand : M G Q :=
  fun s =>
    let (r, t) := gen_next G (torch_rng s) in
    Ok (Qmake (Z.of_N r mod 16777216) 16777216, set_torch t s).

(** [random.randint(a, b)]: an integer of [a, b], both ends included. *)
Definition py_randint (a b : Z) : M G Z :=
  fun s =>
    if a <=? b then
      let (r, p) := gen_next G (py_rng s) in
      Ok (a + Z.of_N r mod (b - a + 1), set_py p s)
    else Err ValueError.

(** [np.random.randint(low, high)]: an integer of [low, high). *)
Definition np_randint (low high : Z) : M G Z :=
  fun s =>
    if low <? high then
      let (r, n) := gen_next G (np_rng s) in
      Ok (low + Z.of_N r mod (high - low), set_np n s)
    else Err ValueError.

(** [torch.manual_seed(seed)] and [random.seed(seed)]: the process-wide
    state is overwritten. *)
Definition torch_manual_seed (seed : Z) : M G unit :=
  fun s => Ok (tt, set_torch (gen_seed G seed) s).
Definition py_random_seed (seed : Z) : M G unit :=
  fun s => Ok (tt, set_py (gen_seed G seed) s).

End Samplers.

Arguments torch_randint {G} low high.
Arguments torch_rand {G}.
Arguments py_randint {G} a b.
Arguments np_randint {G} low high.
Arguments torch_manual_seed {G} seed.
Arguments py_random_seed {G} seed.

(** ** Tensors *)

Definition plane : Type := list (list Q).
Definition tensor3 : Type := list plane.
Definition tensor4 : Type := list tensor3.

Definition height (p : plane) : Z := Z.of_nat (length p).
Definition width (p : plane) : Z := Z.of_nat (length (hd [] p)).

(** [t.shape] of a 3-d and of a 4-d tensor. *)
Definition shape3 (t : tensor3) : Z * Z * Z :=
  (Z.of_nat (length t), height (hd [] t), width (hd [] t)).
Definition shape4 (t : tensor4) : Z * Z * Z * Z :=
  (Z.of_nat (length t), Z.of_nat (length (hd [] t)),
   height (hd [] (hd [] t)), width (hd [] (hd [] t))).

Definition map4 (f : plane -> plane) (t : tensor4) : tensor4 :=
  map (map f) t.

Definition zrange (n : Z) : list Z := map Z.of_nat (seq 0 (Z.to_nat n)).

(** [torch.zeros((h, w))] and a plane filled with one value. *)
Definition full (h w : Z) (v : Q) : plane :=
  repeat (repeat v (Z.to_nat w)) (Z.to_nat h).
Definition zeros (h w : Z) : plane := full h w 0.

(** Rectangular tensors of a given shape. *)
Definition plane_shaped (h w : Z) (p : plane) : Prop :=
  height p = h /\ Forall (fun row => Z.of_nat (length row) = w) p.
Definition tensor3_shaped (c h w : Z) (t : tensor3) : Prop :=
  Z.of_nat (length t) = c /\ Forall (plane_shaped h w) t.
Definition tensor4_shaped (b c h w : Z) (t : tensor4) : Prop :=
  Z.of_nat (length t) = b /\ Forall (tensor3_shaped c h w) t.

(** Every entry of the tensor satisfies [P]. *)
Definition plane_all (P : Q -> Prop) (p : plane) : Prop :=
  Forall (Forall P) p.
Definition tensor3_all (P : Q -> Prop) (t : tensor3) : Prop :=
  Forall (plane_all P) t.
Definition tensor4_all (P : Q -> Prop) (t : tensor4) : Prop :=
  Forall (tensor3_all P) t.

(** A mask entry is a label: exactly 0 or exactly 1. *)
Definition is_label (v : Q) : Prop := v = 0%Q \/ v = 1%Q.

(** ** Python slices: [l[a:b]] with negative indices counted from the end *)

Definition py_index_norm (len i : Z) : Z :=
  if i <? 0 then Z.max (i + len) 0 else Z.min i len.

Definition py_slice {A} (l : list A) (a b : Z) : list A :=
  let len := Z.of_nat (length l) in
  let a' := py_index_norm len a in
  let b' := py_index_norm len b in
  firstn (Z.to_nat (b' - a')) (skipn (Z.to_nat a') l).

(** [p[a:b, c:d]] on the last two axes. *)
Definition slice_plane (p : plane) (a b c d : Z) : plane :=
  map (fun row => py_slice row c d) (py_slice p a b).

(** ** The torch and torchvision kernels the operators call

    These are library functions, written out as their documentation
    describes them.  Floating-point trigonometry and the antialiasing
    filter are parameters. *)

Inductive InterpolationMode : Type :=
| NEAREST
| BILINEAR.

Record Kernels : Type := {
  (** cosine and sine of an angle given in degrees *)
  cos_deg : Q -> Q;
  sin_deg : Q -> Q;
  (** antialiased bilinear resampling of one plane to [oh] x [ow] *)
  upsample_bilinear_aa : plane -> Z -> Z -> plane
}.

Fixpoint zip_with {A B C} (f : A -> B -> C) (l : list A) (l' : list B) : list C :=
  match l, l' with
  | a :: t, b :: t' => f a b :: zip_with f t t'
  | _, _ => []
  end.

(** [p[iy][ix]], and zero outside the plane (padding mode "zeros"). *)
Definition pixel_or_zero (p : plane) (iy ix : Z) : Q :=
  if (0 <=? iy) && (iy <? height p) && (0 <=? ix) && (ix <? width p)
  then nth (Z.to_nat ix) (nth (Z.to_nat iy) p []) 0%Q
  else 0%Q.

(** Rounding to the nearest integer, ties to even. *)
Definition round_half_even (x : Q) : Z :=
  let f := Qfloor x in
  match (x - inject_Z f ?= 1 # 2)%Q with
  | Lt => f
  | Gt => f + 1
  | Eq => if Z.even f then f else f + 1
  end.

(** One output pixel of [grid_sample] at source coordinates [(sx, sy)]. *)
Definition sample (mode : InterpolationMode) (p : plane) (c : Q * Q) : Q :=
  let (sx, sy) := c in
  match mode with
  | NEAREST => pixel_or_zero p (round_half_even sy) (round_half_even sx)
  | BILINEAR =>
      let x0 := Qfloor sx in
      let y0 := Qfloor sy in
      let wx := (sx - inject_Z x0)%Q in
      let wy := (sy - inject_Z y0)%Q in
      Qred ((1 - wy) * ((1 - wx) * pixel_or_zero p y0 x0
                        + wx * pixel_or_zero p y0 (x0 + 1))
            + wy * ((1 - wx) * pixel_or_zero p (y0 + 1) x0
                    + wx * pixel_or_zero p (y0 + 1) (x0 + 1)))%Q
  end.

(** [grid_sample]: the output has the input's height and width; [grid y x]
    gives the source coordinates of output pixel (row [y], column [x]). *)
Definition grid_sample (mode : InterpolationMode) (grid : Z -> Z -> Q * Q)
    (p : plane) : plane :=
  map (fun y => map (fun x => sample mode p (grid y x)) (zrange (width p)))
      (zrange (height p)).

(** *** Rotation *)

(** The inverse affine matrix of a rotation by [angle] degrees about the
    centre, and the source coordinates it assigns to an output pixel. *)
Definition affine_grid (K : Kernels) (angle : Q) (h w : Z) (y x : Z) : Q * Q :=
  let c := cos_deg K (- angle) in
  let s := sin_deg K (- angle) in
  let xc := (inject_Z x + (1 # 2) - inject_Z w / 2)%Q in
  let yc := (inject_Z y + (1 # 2) - inject_Z h / 2)%Q in
  ((c * xc + s * yc + inject_Z w / 2 - (1 # 2))%Q,
   (- s * xc + c * yc + inject_Z h / 2 - (1 # 2))%Q).

(** [F.rotate(img, angle, interpolation)]; the interpolation defaults to
    [InterpolationMode.NEAREST]. *)
Definition F_rotate (K : Kernels) (mode : InterpolationMode) (t : tensor4)
    (angle : Q) : tensor4 :=
  map4 (fun p => grid_sample mode (affine_grid K angle (height p) (width p)) p) t.

(** *** Perspective *)

Definition row_scale (c : Q) (r : list Q) : list Q :=
  map (fun v => Qred (c * v)) r.

(** [r - r[col] * p] *)
Definition eliminate (col : nat) (p r : list Q) : list Q :=
  let c := nth col r 0%Q in
  zip_with (fun v w => Qred (v - c * w)) r p.

Fixpoint find_pivot (col : nat) (rows : list (list Q))
  : option (list Q * list (list Q)) :=
  match rows with
  | [] => None
  | r :: rs =>
      if Qeq_bool (nth col r 0%Q) 0 then
        match find_pivot col rs with
        | Some (p, rest) => Some (p, r :: rest)
        | None => None
        end
      else Some (r, rs)
  end.

Fixpoint gauss_jordan (cols : list nat) (done rest : list (list Q))
  : option (list (list Q)) :=
  match cols with
  | [] => Some done
  | col :: cols' =>
      match find_pivot col rest with
      | None => None
      | Some (p, rest') =>
          let p' := row_scale (/ nth col p 0%Q) p in
          gauss_jordan cols' (map (eliminate col p') done ++ [p'])
                       (map (eliminate col p') rest')
      end
  end.

(** The solution of the square system [a x = b]; [None] when [a] is
    singular. *)
Definition solve_linear (a : list (list Q)) (b : list Q) : option (list Q) :=
  let n := length a in
  match gauss_jordan (seq 0 n) [] (zip_with (fun r v => r ++ [v]) a b) with
  | Some rows => Some (map (fun r => nth n r 0%Q) rows)
  | None => None
  end.

Definition point : Type := (Z * Z)%type.

(** The two equations one (endpoint, startpoint) pair contributes. *)
Definition perspective_rows (p1 p2 : point) : list (list Q) :=
  let x1 := inject_Z (fst p1) in
  let y1 := inject_Z (snd p1) in
  let x2 := inject_Z (fst p2) in
  let y2 := inject_Z (snd p2) in
  [ [x1; y1; 1; 0; 0; 0; - x2 * x1; - x2 * y1];
    [0; 0; 0; x1; y1; 1; - y2 * x1; - y2 * y1] ]%Q.

(** [_get_perspective_coeffs(startpoints, endpoints)]: the eight
    coefficients that map every endpoint back to its startpoint. *)
Definition get_perspective_coeffs (startpoints endpoints : list point)
  : option (list Q) :=
  solve_linear
    (concat (zip_with perspective_rows endpoints startpoints))
    (concat (map (fun p => [inject_Z (fst p); inject_Z (snd p)]) startpoints)).

Definition perspective_grid (coeffs : list Q) (y x : Z) : Q * Q :=
  let c i := nth i coeffs 0%Q in
  let xc := (inject_Z x + (1 # 2))%Q in
  let yc := (inject_Z y + (1 # 2))%Q in
  let den := (c 6%nat * xc + c 7%nat * yc + 1)%Q in
  (((c 0%nat * xc + c 1%nat * yc + c 2%nat) / den - (1 # 2))%Q,
   ((c 3%nat * xc + c 4%nat * yc + c 5%nat) / den - (1 # 2))%Q).

(** [F.perspective(img, startpoints, endpoints, interpolation)]; the
    interpolation defaults to [InterpolationMode.BILINEAR].  A degenerate
    set of points, whose system has no unique solution, is reported as an
    error. *)
Definition F_perspective (mode : InterpolationMode) (t : tensor4)
    (startpoints endpoints : list point) : result tensor4 :=
  match get_perspective_coeffs startpoints endpoints with
  | Some coeffs => Ok (map4 (grid_sample mode (perspective_grid coeffs)) t)
  | None => Err RuntimeError
  end.

(** *** Resizing *)

(** Source index of output index [d] under nearest-neighbour resizing. *)
Definition nearest_index (insz outsz d : Z) : Z :=
  Z.min (Qfloor (inject_Z d * (inject_Z insz / inject_Z outsz))) (insz - 1).

Definition interpolate_nearest (p : plane) (oh ow : Z) : plane :=
  map (fun y =>
         let row := nth (Z.to_nat (nearest_index (height p) oh y)) p [] in
         map (fun x => nth (Z.to_nat (nearest_index (width p) ow x)) row 0%Q)
             (zrange ow))
      (zrange oh).

(** The two source indices of output index [d] under linear resizing and
    the weight of the second. *)
Definition linear_source (insz outsz d : Z) : Z * Z * Q :=
  let src := Qmax 0 (inject_Z insz / inject_Z outsz
                     * (inject_Z d + (1 # 2)) - (1 # 2))%Q in
  let i0 := Z.min (Qfloor src) (insz - 1) in
  let i1 := if i0 <? insz - 1 then i0 + 1 else i0 in
  (i0, i1, Qmin 1 (Qmax 0 (src - inject_Z i0))%Q).

Definition interpolate_bilinear (p : plane) (oh ow : Z) : plane :=
  let px y x := nth (Z.to_nat x) (nth (Z.to_nat y) p []) 0%Q in
  map (fun y =>
         let '(y0, y1, ly) := linear_source (height p) oh y in
         map (fun x =>
                let '(x0, x1, lx) := linear_source (width p) ow x in
                Qred ((1 - ly) * ((1 - lx) * px y0 x0 + lx * px y0 x1)
                      + ly * ((1 - lx) * px y1 x0 + lx * px y1 x1))%Q)
             (zrange ow))
      (zrange oh).

Definition interpolate (K : Kernels) (mode : InterpolationMode)
    (antialias : bool) (p : plane) (oh ow : Z) : plane :=
  match mode with
  | NEAREST => interpolate_nearest p oh ow
  | BILINEAR =>
      if antialias then upsample_bilinear_aa K p oh ow
      else interpolate_bilinear p oh ow
  end.

(** [F.resize(img, size, interpolation, antialias)]: the tensor itself when
    it already has the requested size; sizes must be positive. *)
Definition F_resize (K : Kernels) (mode : InterpolationMode) (antialias : bool)
    (t : tensor4) (size : Z * Z) : result tensor4 :=
  let '(_, _, h, w) := shape4 t in
  let (oh, ow) := size in
  if (h =? oh) && (w =? ow) then Ok t
  else if (oh <=? 0) || (ow <=? 0) || (h <=? 0) || (w <=? 0)
       then Err RuntimeError
       else Ok (map4 (fun p => interpolate K mode antialias p oh ow) t).

(** *** Cropping and flipping *)

(** [F.crop(img, top, left, height, width)] for a window inside the image:
    [img[..., top:top+height, left:left+width]]. *)
Definition F_crop (t : tensor4) (top left h w : Z) : tensor4 :=
  map4 (fun p => slice_plane p top (top + h) left (left + w)) t.

(** [F.hflip(img)] *)
Definition F_hflip (t : tensor4) : tensor4 :=
  map4 (map (@rev Q)) t.

(** *** Reductions and boolean shape tests *)

Definition flatten4 (t : tensor4) : list Q := concat (concat (concat t)).

(** [t.min().item()] and [t.max().item()]; an empty tensor raises. *)
Definition tensor_min (t : tensor4) : result Q :=
  match flatten4 t with
  | [] => Err RuntimeError
  | v :: vs => Ok (fold_left Qmin vs v)
  end.
Definition tensor_max (t : tensor4) : result Q :=
  match flatten4 t with
  | [] => Err RuntimeError
  | v :: vs => Ok (fold_left Qmax vs v)
  end.

Definition plane_shapedb (h w : Z) (p : plane) : bool :=
  (height p =? h) && forallb (fun row => Z.of_nat (length row) =? w) p.
Definition tensor3_shapedb (c h w : Z) (t : tensor3) : bool :=
  (Z.of_nat (length t) =? c) && forallb (plane_shapedb h w) t.
Definition tensor4_shapedb (b c h w : Z) (t : tensor4) : bool :=
  (Z.of_nat (length t) =? b) && forallb (tensor3_shapedb c h w) t.

(** [dst[a:b] = src] on one axis, for normalised [0 <= a <= b <= len]. *)
Definition splice {A} (dst : list A) (a b : Z) (src : list A) : list A :=
  firstn (Z.to_nat a) dst ++ src ++ skipn (Z.to_nat b) dst.

(** [dst[:, :, a:b, c:d] = src]; the shapes must agree. *)
Definition assign_region (dst : tensor4) (a b c d : Z) (src : tensor4)
  : result tensor4 :=
  let '(nb, nc, h, w) := shape4 dst in
  let a' := py_index_norm h a in
  let b' := Z.max a' (py_index_norm h b) in
  let c' := py_index_norm w c in
  let d' := Z.max c' (py_index_norm w d) in
  if tensor4_shapedb nb nc (b' - a') (d' - c') src then
    Ok (zip_with
          (zip_with
             (fun dp sp =>
                splice dp a' b'
                       (zip_with (fun drow srow => splice drow c' d' srow)
                                 (py_slice dp a' b') sp)))
          dst src)
  else Err RuntimeError.

(** ** geometric.py *)

Record Rotate : Type := {
  min_angle : option Z;
  max_angle : option Z
}.

(** [Resize], [Crop] and [UpperLeftCrop] carry the same two bounds. *)
Record SizeRange : Type := {
  min_size : option Q;
  max_size : option Q
}.

Record CropResizePad : Type := {
  resize_min : option Q;
  resize_max : option Q;
  crop_min : option Q;
  crop_max : option Q
}.

Record Perspective : Type := {
  min_distortion_scale : option Q;
  max_distortion_scale : option Q;
  random_seed_attr : option Z
}.

Section Geometric.

Variable G : Generator.
Variable K : Kernels.

(** [transforms.RandomCrop.get_params(img, output_size)] for an image of
    height [h] and width [w]. *)
Definition RandomCrop_get_params (h w : Z) (output_size : Z * Z)
  : M G (Z * Z * Z * Z) :=
  let (th, tw) := output_size in
  if (h <? th) || (w <? tw) then raise ValueError
  else if (w =? tw) && (h =? th) then ret (0, 0, h, w)
  else
    i <- torch_randint 0 (h - th + 1) ;;
    j <- torch_randint 0 (w - tw + 1) ;;
    ret (i, j, th, tw).

Definition Identity_forward (image mask : tensor4) : M G (tensor4 * tensor4) :=
  ret (image, mask).

Definition Rotate_get_random_angle (self : Rotate) : M G Z :=
  match min_angle self, max_angle self with
  | Some lo, Some hi => torch_randint lo (hi + 1)
  | _, _ => raise ValueError
  end.

(** Both [F.rotate] calls leave the interpolation at its default, nearest. *)
Definition Rotate_forward (self : Rotate) (image mask : tensor4)
    (angle : option Q) : M G (tensor4 * tensor4) :=
  angle <- match angle with
           | None => a <- Rotate_get_random_angle self ;; ret (inject_Z a)
           | Some a => ret a
           end ;;
  let image := F_rotate K NEAREST image angle in
  let mask := F_rotate K NEAREST mask angle in
  ret (image, mask).

(** [get_random_size] of [Resize], [Crop] and [UpperLeftCrop]. *)
Definition get_random_size (self : SizeRange) (h w : Z) : M G (Z * Z) :=
  match min_size self, max_size self with
  | Some lo, Some hi =>
      oh <- torch_randint (py_int (fmul lo h)) (py_int (fmul hi h) + 1) ;;
      ow <- torch_randint (py_int (fmul lo w)) (py_int (fmul hi w) + 1) ;;
      ret (oh, ow)
  | _, _ => raise ValueError
  end.

(** The size the three operators work with: sampled, or [int(size * h)],
    [int(size * w)] of the explicit scale. *)
Definition output_size_of (self : SizeRange) (image : tensor4)
    (size : option Q) : M G (Z * Z) :=
  let '(_, _, h, w) := shape4 image in
  match size with
  | None => get_random_size self h w
  | Some sz => ret (py_int (fmul sz h), py_int (fmul sz w))
  end.

Definition Resize_forward (self : SizeRange) (image mask : tensor4)
    (size : option Q) : M G (tensor4 * tensor4) :=
  output_size <- output_size_of self image size ;;
  image <- lift (F_resize K BILINEAR true image output_size) ;;
  mask <- lift (F_resize K NEAREST false mask output_size) ;;
  ret (image, mask).

Definition Crop_forward (self : SizeRange) (image mask : tensor4)
    (size : option Q) : M G (tensor4 * tensor4) :=
  output_size <- output_size_of self image size ;;
  let '(_, _, h, w) := shape4 image in
  '(i, j, h, w) <- RandomCrop_get_params h w output_size ;;
  let image := F_crop image i j h w in
  let mask := F_crop mask i j h w in
  ret (image, mask).

Definition UpperLeftCrop_forward (self : SizeRange) (image mask : tensor4)
    (size : option Q) : M G (tensor4 * tensor4) :=
  output_size <- output_size_of self image size ;;
  let '(_, _, h, w) := shape4 image in
  '(i, j, h, w) <- RandomCrop_get_params h w output_size ;;
  let image := F_crop image 0 0 h w in
  let mask := F_crop mask 0 0 h w in
  ret (image, mask).

Definition HorizontalFlip_forward (image mask : tensor4)
  : M G (tensor4 * tensor4) :=
  ret (F_hflip image, F_hflip mask).

(** *** CropResizePad *)

Definition get_random_resize_size (self : CropResizePad) (h w : Z)
  : M G (Z * Z) :=
  match resize_min self, resize_max self with
  | Some lo, Some hi =>
      oh <- torch_randint (py_int (fmul lo h)) (py_int (fmul hi h) + 1) ;;
      ow <- torch_randint (py_int (fmul lo w)) (py_int (fmul hi w) + 1) ;;
      ret (oh, ow)
  | _, _ => raise ValueError
  end.

Definition get_random_crop_size (self : CropResizePad) (h w : Z)
  : M G (Z * Z) :=
  match crop_min self, crop_max self with
  | Some lo, Some hi =>
      ch <- torch_randint (py_int (fmul lo h))
                          (Z.min (py_int (fmul hi h) + 1) h) ;;
      cw <- torch_randint (py_int (fmul lo w))
                          (Z.min (py_int (fmul hi w) + 1) w) ;;
      ret (ch, cw)
  | _, _ => raise ValueError
  end.

(** [torch.rand((n,))]: [n] draws in order. *)
Fixpoint torch_rand_list (n : nat) : M G (list Q) :=
  match n with
  | O => ret []
  | S n' => v <- torch_rand ;; vs <- torch_rand_list n' ;; ret (v :: vs)
  end.

(** [torch.rand((b, c, 1, 1))] *)
Fixpoint torch_rand_grid (b c : nat) : M G (list (list Q)) :=
  match b with
  | O => ret []
  | S b' =>
      r <- torch_rand_list c ;; rs <- torch_rand_grid b' c ;; ret (r :: rs)
  end.

Definition CropResizePad_forward (self : CropResizePad)
    (images masks : tensor4) (sizes : option (Q * Q * Q * Q))
    (seed : option Z) : M G (tensor4 * tensor4) :=
  _ <- match seed with
       | Some sd => _ <- torch_manual_seed sd ;; py_random_seed sd
       | None => ret tt
       end ;;
  let '(batch_size, channels, original_h, original_w) := shape4 images in
  '(new_size, crop_size) <-
    match sizes with
    | None =>
        new_size <- get_random_resize_size self original_h original_w ;;
        crop_size <- get_random_crop_size self (fst new_size) (snd new_size) ;;
        ret (new_size, crop_size)
    | Some (s0, s1, s2, s3) =>
        let new_size := (py_int (fmul s0 original_h),
                         py_int (fmul s1 original_w)) in
        ret (new_size,
             (py_int (fmul s2 (fst new_size)), py_int (fmul s3 (snd new_size))))
    end ;;
  images <- lift (F_resize K BILINEAR false images new_size) ;;
  masks <- lift (F_resize K NEAREST false masks new_size) ;;
  let (crop_h, crop_w) := crop_size in
  let crop_h := Z.min crop_h (fst new_size) in
  let crop_w := Z.min crop_w (snd new_size) in
  image0 <- match images with
            | [] => raise IndexError
            | image0 :: _ => ret image0
            end ;;
  '(i, j, h, w) <- RandomCrop_get_params (height (hd [] image0))
                                         (width (hd [] image0))
                                         (crop_h, crop_w) ;;
  let cropped_images := map4 (fun p => slice_plane p i (i + h) j (j + w)) images in
  let cropped_masks := map4 (fun p => slice_plane p i (i + h) j (j + w)) masks in
  if (h >? original_h) || (w >? original_w) then raise ValueError
  else
    pad_top <- py_randint 0 (Z.max 0 (original_h - h)) ;;
    pad_left <- py_randint 0 (Z.max 0 (original_w - w)) ;;
    min_val <- lift (tensor_min images) ;;
    max_val <- lift (tensor_max images) ;;
    noise <- torch_rand_grid (Z.to_nat batch_size) (Z.to_nat channels) ;;
    let pad_color :=
      map (map (fun r => Qred ((max_val - min_val) * r + min_val)%Q)) noise in
    let padded_images :=
      map (map (fun v => full original_h original_w v)) pad_color in
    let padded_masks :=
      repeat (repeat (zeros original_h original_w) (length (hd [] masks)))
             (Z.to_nat batch_size) in
    padded_images <- lift (assign_region padded_images pad_top (pad_top + h)
                                         pad_left (pad_left + w) cropped_images) ;;
    padded_masks <- lift (assign_region padded_masks pad_top (pad_top + h)
                                        pad_left (pad_left + w) cropped_masks) ;;
    ret (padded_images, padded_masks).

(** *** Perspective *)

Definition get_random_distortion_scale (self : Perspective) : M G Q :=
  match min_distortion_scale self, max_distortion_scale self with
  | Some lo, Some hi => r <- torch_rand ;; ret (lo + r * (hi - lo))%Q
  | _, _ => raise ValueError
  end.

Definition get_perspective_params (width height : Z) (distortion_scale : Q)
    (random_seed : option Z) : M G (list point * list point) :=
  let half_height := height / 2 in
  let half_width := width / 2 in
  _ <- match random_seed with
       | Some sd => _ <- torch_manual_seed sd ;; py_random_seed sd
       | None => ret tt
       end ;;
  let dw := py_int (fmul distortion_scale half_width) in
  let dh := py_int (fmul distortion_scale half_height) in
  tlx <- torch_randint 0 (dw + 1) ;;
  tly <- torch_randint 0 (dh + 1) ;;
  trx <- torch_randint (width - dw - 1) width ;;
  try <- torch_randint 0 (dh + 1) ;;
  brx <- torch_randint (width - dw - 1) width ;;
  bry <- torch_randint (height - dh - 1) height ;;
  blx <- torch_randint 0 (dw + 1) ;;
  bly <- torch_randint (height - dh - 1) height ;;
  let startpoints :=
    [(0, 0); (width - 1, 0); (width - 1, height - 1); (0, height - 1)] in
  let endpoints := [(tlx, tly); (trx, try); (brx, bry); (blx, bly)] in
  ret (startpoints, endpoints).

(** Both [F.perspective] calls leave the interpolation at its default,
    bilinear. *)
Definition Perspective_forward (self : Perspective) (image mask : tensor4)
    (distortion_scale : option Q) : M G (tensor4 * tensor4) :=
  distortion_scale <- match distortion_scale with
                      | None => get_random_distortion_scale self
                      | Some d => ret d
                      end ;;
  let '(_, _, height, width) := shape4 image in
  '(startpoints, endpoints) <-
    get_perspective_params width height distortion_scale (random_seed_attr self) ;;
  image <- lift (F_perspective BILINEAR image startpoints endpoints) ;;
  mask <- lift (F_perspective BILINEAR mask startpoints endpoints) ;;
  ret (image, mask).

End Geometric.

(** ** loader.py *)

(** The result monad of code that raises but draws nothing. *)
Definition rbind {A B} (r : result A) (k : A -> result B) : result B :=
  match r with
  | Ok a => k a
  | Err e => Err e
  end.
Notation "x <~ r ;; k" := (rbind r (fun x => k))
  (at level 61, r at next level, right associativity) : monad_scope.

(** [l[i]] with Python's negative indices. *)
Definition py_getitem {A} (l : list A) (i : Z) : result A :=
  let len := Z.of_nat (length l) in
  let i' := if i <? 0 then i + len else i in
  if (0 <=? i') && (i' <? len) then
    match nth_error l (Z.to_nat i') with
    | Some a => Ok a
    | None => Err IndexError
    end
  else Err IndexError.

(** [x[i], x[j] = x[j], x[i]] *)
Definition list_set {A} (l : list A) (i : nat) (v : A) : list A :=
  firstn i l ++ match skipn i l with
                | [] => []
                | _ :: rest => v :: rest
                end.
Definition swap {A} (l : list A) (i j : nat) : list A :=
  match nth_error l i, nth_error l j with
  | Some a, Some b => list_set (list_set l i b) j a
  | _, _ => l
  end.

(** A decoded annotation: a [uint8] array at the image's resolution. *)
Definition bitmap : Type := list (list N).

Definition bitmap_shapedb (h w : Z) (m : bitmap) : bool :=
  (Z.of_nat (length m) =? h)
  && forallb (fun row => Z.of_nat (length row) =? w) m.

(** [torch.tensor(m, dtype=torch.float32)] of a [uint8] array. *)
Definition to_float (m : bitmap) : plane :=
  map (map (fun v => inject_Z (Z.of_N v))) m.

(** [np.maximum(mask, m)] for a float accumulator and a [uint8] array, both
    [h] x [w]; arrays of another shape raise. *)
Definition maximum_values (mask : plane) (m : bitmap) : plane :=
  zip_with (zip_with (fun a v => Qmax a (inject_Z (Z.of_N v)))) mask m.
Definition np_maximum (h w : Z) (mask : plane) (m : bitmap) : result plane :=
  if bitmap_shapedb h w m then Ok (maximum_values mask m) else Err ValueError.

(** [np.stack(masks, axis=0)]: all arrays must have one shape. *)
Definition np_stack (masks : list bitmap) : result (list bitmap) :=
  match masks with
  | [] => Err ValueError
  | m :: _ =>
      let h := Z.of_nat (length m) in
      let w := Z.of_nat (length (hd [] m)) in
      if forallb (bitmap_shapedb h w) masks then Ok masks else Err ValueError
  end.

(** [torch.zeros((n, h, w))] *)
Definition torch_zeros3 (n h w : Z) : result tensor3 :=
  if (n <? 0) || (h <? 0) || (w <? 0) then Err RuntimeError
  else Ok (repeat (zeros h w) (Z.to_nat n)).

(** [torch.cat([a, b], dim=0)]: the trailing dimensions must agree. *)
Definition torch_cat (h w : Z) (a b : tensor3) : result tensor3 :=
  if forallb (plane_shapedb h w) a && forallb (plane_shapedb h w) b
  then Ok (a ++ b)
  else Err RuntimeError.

Record CocoImageIDWrapper (Ann Img : Type) : Type := {
  ids : list Z;
  (** [coco.loadAnns(coco.getAnnIds(id))] *)
  loadAnns : Z -> list Ann;
  (** [coco.loadImgs(id)[0]['height']] and [['width']] *)
  img_height : Z -> Z;
  img_width : Z -> Z;
  (** [maskUtils.decode(coco.annToRLE(ann))] *)
  decode : Ann -> bitmap;
  load_image : Z -> Img;
  transform : Img -> tensor3;
  mask_transform : tensor3 -> tensor3;
  random_nb_object : bool;
  max_nb_masks : Z;
  multi_w : bool;
  is_train : bool
}.
Arguments ids {Ann Img} c.
Arguments loadAnns {Ann Img} c id.
Arguments img_height {Ann Img} c id.
Arguments img_width {Ann Img} c id.
Arguments decode {Ann Img} c ann.
Arguments load_image {Ann Img} c id.
Arguments transform {Ann Img} c img.
Arguments mask_transform {Ann Img} c mask.
Arguments random_nb_object {Ann Img} c.
Arguments max_nb_masks {Ann Img} c.
Arguments multi_w {Ann Img} c.
Arguments is_train {Ann Img} c.

Section Loader.

Variable G : Generator.
Variables Ann Img : Type.

(** [random._randbelow(n)] *)
Definition py_randbelow (n : Z) : M G Z :=
  fun s =>
    let (r, p) := gen_next G (py_rng s) in
    Ok (Z.of_N r mod n, set_py p s).

(** [random.shuffle(x)]: for [i] from [len(x) - 1] down to 1, exchange
    [x[i]] with [x[randbelow(i + 1)]]. *)
Fixpoint shuffle_from {A} (i : nat) (x : list A) : M G (list A) :=
  match i with
  | O => ret x
  | S i' =>
      j <- py_randbelow (Z.of_nat i + 1) ;;
      shuffle_from i' (swap x i (Z.to_nat j))
  end.
Definition random_shuffle {A} (x : list A) : M G (list A) :=
  shuffle_from (length x - 1) x.

(** The union-mode loop: [mask = np.maximum(mask, decode(ann))] over the
    annotations in order. *)
Fixpoint union_loop (self : CocoImageIDWrapper Ann Img) (h w : Z)
    (mask : plane) (anns : list Ann) : result plane :=
  match anns with
  | [] => Ok mask
  | ann :: rest =>
      mask <~ np_maximum h w mask (decode self ann) ;;
      union_loop self h w mask rest
  end.

Definition _load_mask (self : CocoImageIDWrapper Ann Img) (id : Z)
  : M G (option tensor3) :=
  let anns := loadAnns self id in
  match anns with
  | [] => ret None
  | _ :: _ =>
      let original_height := img_height self id in
      let original_width := img_width self id in
      anns <- (if random_nb_object self then random_shuffle anns else ret anns) ;;
      if negb (multi_w self) then
        mask <- lift (union_loop self original_height original_width
                                 (zeros original_height original_width) anns) ;;
        ret (Some [mask])
      else
        nb_masks <- (if is_train self
                     then np_randint 1 (max_nb_masks self + 1)
                     else ret (max_nb_masks self)) ;;
        let anns := py_slice anns 0 nb_masks in
        let masks := map (decode self) anns in
        match masks with
        | _ :: _ =>
            masks <- lift (np_stack masks) ;;
            let masks := map to_float masks in
            if Z.of_nat (length masks) <? nb_masks then
              let additional_masks_count := nb_masks - Z.of_nat (length masks) in
              additional_masks <- lift (torch_zeros3 additional_masks_count
                                          original_height original_width) ;;
              masks <- lift (torch_cat original_height original_width
                                       masks additional_masks) ;;
              ret (Some masks)
            else ret (Some masks)
        | [] =>
            masks <- lift (torch_zeros3 nb_masks original_height original_width) ;;
            ret (Some masks)
        end
  end.

Definition getitem (self : CocoImageIDWrapper Ann Img) (index : Z)
  : M G (option (tensor3 * tensor3)) :=
  id <- lift (py_getitem (ids self) index) ;;
  let img := load_image self id in
  mask <- _load_mask self id ;;
  match mask with
  | None => ret None
  | Some mask => ret (Some (transform self img, mask_transform self mask))
  end.

End Loader.

Arguments py_randbelow {G} n.
Arguments random_shuffle {G A} x.
Arguments shuffle_from {G A} i x.
Arguments union_loop {Ann Img} self h w mask anns.
Arguments _load_mask {G Ann Img} self id.
Arguments getitem {G Ann Img} self index.

(** *** custom_collate *)

Definition shape3_eqb (t u : tensor3) : bool :=
  let '(c, h, w) := shape3 t in
  let '(c', h', w') := shape3 u in
  (c =? c') && (h =? h') && (w =? w').

(** [torch.stack(tensors)]: a non-empty list of tensors of one shape. *)
Definition torch_stack (tensors : list tensor3) : result tensor4 :=
  match tensors with
  | [] => Err RuntimeError
  | t :: _ =>
      if forallb (shape3_eqb t) tensors then Ok tensors else Err RuntimeError
  end.

(** [torch.max(mask, dim=0).values]; no channel to reduce raises. *)
Definition torch_max_dim0 (mask : tensor3) : result plane :=
  match mask with
  | [] => Err IndexError
  | p :: ps => Ok (fold_left (zip_with (zip_with Qmax)) ps p)
  end.

(** [F.pad(mask, pad=(0, 0, 0, 0, 0, pad_size), mode='constant', value=0)] *)
Definition F_pad_channels (mask : tensor3) (pad_size : Z) : tensor3 :=
  let '(_, h, w) := shape3 mask in
  mask ++ repeat (zeros h w) (Z.to_nat pad_size).

(** [max(mask.shape[0] for mask in masks)] over a non-empty sequence *)
Definition max_channels (masks : list tensor3) : Z :=
  fold_right Z.max 0 (map (fun mask => Z.of_nat (length mask)) masks).

Fixpoint drop_none {A} (batch : list (option A)) : list A :=
  match batch with
  | [] => []
  | Some item :: rest => item :: drop_none rest
  | None :: rest => drop_none rest
  end.

Fixpoint pad_masks (max_masks : Z) (masks : list tensor3)
  : result (list tensor3) :=
  match masks with
  | [] => Ok []
  | mask :: rest =>
      union_mask <~ torch_max_dim0 mask ;;
      let pad_size := max_masks - Z.of_nat (length mask) in
      let padded_mask :=
        if pad_size >? 0 then F_pad_channels mask pad_size else mask in
      padded_masks <~ pad_masks max_masks rest ;;
      Ok (padded_mask :: padded_masks)
  end.

Definition custom_collate (batch : list (option (tensor3 * tensor3)))
  : result (tensor4 * tensor4) :=
  let batch := drop_none batch in
  match batch with
  | [] => Ok ([], [])
  | _ :: _ =>
      let images := map fst batch in
      let masks := map snd batch in
      images <~ torch_stack images ;;
      let max_masks := max_channels masks in
      if max_masks =? 1 then
        masks <~ torch_stack masks ;;
        Ok (images, masks)
      else
        padded_masks <~ pad_masks max_masks masks ;;
        masks <~ torch_stack padded_masks ;;
        Ok (images, masks)
  end.

(** ** Concrete generators and kernels, to run the model *)

(** A 64-bit linear congruential generator (Knuth's MMIX constants); a draw
    is the upper half of the new state. *)
Definition lcg : Generator := {|
  gen_state := N;
  gen_next := fun s =>
    let s' := ((6364136223846793005 * s + 1442695040888963407)
                 mod 18446744073709551616)%N in
    ((s' / 4294967296)%N, s');
  gen_seed := fun seed => Z.abs_N seed
|}.

(** A generator that replays a given sequence of draws, then zeros. *)
Definition tape : Generator := {|
  gen_state := list N;
  gen_next := fun s =>
    match s with
    | [] => (0%N, [])
    | r :: rest => (r, rest)
    end;
  gen_seed := fun seed => [Z.abs_N seed]
|}.

Definition lcg_rng (t p n : N) : rng lcg :=
  Build_rng lcg t p n.
Definition tape_rng (t p n : list N) : rng tape :=
  Build_rng tape t p n.

(** Sine of an angle in degrees: exact at the quarter turns, Bhaskara's
    rational approximation in between. *)
Definition sin_deg_approx (a : Q) : Q :=
  let t := Qfloor a mod 360 in
  let frac := (a - inject_Z (Qfloor a))%Q in
  let x := (inject_Z (t mod 180) + frac)%Q in
  let v := (4 * x * (180 - x) / (40500 - x * (180 - x)))%Q in
  Qred (if t <? 180 then v else - v)%Q.

(** Separable triangle-filter resampling of one axis. *)
Definition aa_axis (insz outsz : Z) (line : list Q) : list Q :=
  let scale := (inject_Z insz / inject_Z outsz)%Q in
  let support := Qmax scale 1 in
  map (fun i =>
         let center := (scale * (inject_Z i + (1 # 2)))%Q in
         let lo := Z.max 0 (Qfloor (center - support + (1 # 2))%Q) in
         let hi := Z.min insz (Qfloor (center + support + (1 # 2))%Q) in
         let ws := map (fun j =>
                          let d := ((inject_Z (j + lo) - center + (1 # 2))
                                    / support)%Q in
                          Qmax 0 (1 - Qabs d)%Q)
                       (zrange (hi - lo)) in
         let total := fold_left Qplus ws 0%Q in
         Qred (fold_left Qplus
                 (zip_with (fun wt v => (wt * v / total)%Q) ws
                           (py_slice line lo hi)) 0%Q))
      (zrange outsz).

Fixpoint transpose (n : nat) (p : plane) : plane :=
  match n with
  | O => []
  | S n' => map (fun row => hd 0%Q row) p :: transpose n' (map (@tl Q) p)
  end.

Definition aa_plane (p : plane) (oh ow : Z) : plane :=
  let rows := map (aa_axis (width p) ow) p in
  let cols := map (aa_axis (height p) oh) (transpose (Z.to_nat ow) rows) in
  transpose (Z.to_nat oh) cols.

Definition reference_kernels : Kernels := {|
  cos_deg := fun a => sin_deg_approx (a + 90);
  sin_deg := sin_deg_approx;
  upsample_bilinear_aa := aa_plane
|}.

(** ** Inputs the examples run on *)

Definition image_2x2 : tensor4 := [[ [[1; 2]; [3; 4]]%Q ]].
Definition mask_2x2 : tensor4 := [[ [[1; 0]; [0; 1]]%Q ]].

Definition rotate_default : Rotate :=
  {| min_angle := Some (-10); max_angle := Some 10 |}.

Definition crop_resize_pad_ones : CropResizePad :=
  {| resize_min := Some 1%Q; resize_max := Some 1%Q;
     crop_min := Some 1%Q; crop_max := Some 1%Q |}.

Definition crop_resize_pad_half : CropResizePad :=
  {| resize_min := Some (1 # 2)%Q; resize_max := Some 1%Q;
     crop_min := Some (1 # 2)%Q; crop_max := Some 1%Q |}.

Definition perspective_seeded : Perspective :=
  {| min_distortion_scale := Some (1 # 10)%Q;
     max_distortion_scale := Some (1 # 2)%Q;
     random_seed_attr := Some 42 |}.

Definition perspective_default : Perspective :=
  {| min_distortion_scale := Some (1 # 10)%Q;
     max_distortion_scale := Some (1 # 2)%Q;
     random_seed_attr := None |}.

(** A computation that neither reads nor writes numpy's generator. *)
Definition np_frame (G : Generator) {A} (m : M G A) : Prop :=
  forall s n, m (set_np n s)
              = match m s with
                | Ok (a, s') => Ok (a, set_np n s')
                | Err e => Err e
                end.

Definition image_4x4 : tensor4 :=
  [[ [[1; 2; 3; 4]; [5; 6; 7; 8]; [9; 10; 11; 12]; [13; 14; 15; 16]]%Q ]].
Definition mask_4x4 : tensor4 :=
  [[ [[0; 0; 1; 1]; [0; 0; 1; 1]; [0; 0; 1; 1]; [0; 0; 1; 1]]%Q ]].

Definition size_range_unset : SizeRange :=
  {| min_size := None; max_size := None |}.


(** A two-image dataset over decoded annotations: image 10 is 2 x 2 and
    carries [anns], image 11 carries no annotation. *)
Definition coco_example (anns : list bitmap)
    (shuffle multi train : bool) (max_masks : Z)
  : CocoImageIDWrapper bitmap unit := {|
  ids := [10; 11];
  loadAnns := fun id => if id =? 10 then anns else [];
  img_height := fun _ => 2;
  img_width := fun _ => 2;
  decode := fun ann => ann;
  load_image := fun _ => tt;
  transform := fun _ => [[[0; 0]; [0; 0]]%Q];
  mask_transform := fun mask => mask;
  random_nb_object := shuffle;
  max_nb_masks := max_masks;
  multi_w := multi;
  is_train := train
|}.

Definition bitmap_a : bitmap := [[1; 0]; [0; 0]]%N.
Definition bitmap_b : bitmap := [[0; 0]; [0; 1]]%N.
Definition bitmap_c : bitmap := [[1; 1]; [0; 0]]%N.

(** The accumulation of the union loop, without the shape tests. *)
Definition union_accumulate {Ann Img} (self : CocoImageIDWrapper Ann Img)
    (anns : list Ann) (mask : plane) : plane :=
  fold_left (fun acc ann => maximum_values acc (decode self ann)) anns mask.

(** Samples the loader hands to the collator: images of one shape, masks
    with at least one channel and one height and width. *)
Definition collate_ready (samples : list (tensor3 * tensor3)) : bool :=
  match samples with
  | [] => false
  | (image0, mask0) :: _ =>
      forallb (fun sample => shape3_eqb image0 (fst sample)) samples
      && forallb (fun sample =>
                    (1 <=? Z.of_nat (length (snd sample)))
                    && forallb (plane_shapedb (height (hd [] mask0))
                                              (width (hd [] mask0)))
                               (snd sample))
                 samples
  end.

(** What the collator makes of one mask when the batch maximum is
    [max_masks]. *)
Definition padded_to (max_masks : Z) (mask : tensor3) : tensor3 :=
  mask ++ repeat (zeros (height (hd [] mask)) (width (hd [] mask)))
                 (Z.to_nat (max_masks - Z.of_nat (length mask))).

Definition sample_image : tensor3 := [[[0; 0]; [0; 0]]%Q].
Definition sample_one_mask : tensor3 * tensor3 :=
  (sample_image, [to_float bitmap_a]).
Definition sample_two_masks : tensor3 * tensor3 :=
  (sample_image, [to_float bitmap_a; to_float bitmap_b]).

(** [t[n, k, y, x]] for indices inside the tensor. *)
Definition entry4 (t : tensor4) (n k y x : Z) : Q :=
  nth (Z.to_nat x)
      (nth (Z.to_nat y) (nth (Z.to_nat k) (nth (Z.to_nat n) t []) []) [])
      0%Q.

(** Whether [(y, x)] lies in the window [top:top+wh, left:left+ww]. *)
Definition in_window (top wh left ww y x : Z) : bool :=
  (top <=? y) && (y <? top + wh) && (left <=? x) && (x <? left + ww).

(** A float of [0, 1). *)
Definition unit_interval (r : Q) : Prop := (0 <= r)%Q /\ (r < 1)%Q.

(** [p[y, x]] of a plane and [float(m[y, x])] of a [uint8] array. *)
Definition entry2 (p : plane) (y x : Z) : Q :=
  nth (Z.to_nat x) (nth (Z.to_nat y) p []) 0%Q.
Definition bitmap_value (m : bitmap) (y x : Z) : Q :=
  inject_Z (Z.of_N (nth (Z.to_nat x) (nth (Z.to_nat y) m []) 0%N)).

(** ** Binary64 products

    The scales are Python floats and [size * h] is a product in binary64;
    the operators are written with the exact product [fmul].  [round64] is
    the rounding of binary64 and [float_int x n] tells when Python's
    [int(x * n)] is the integer part of the exact product, so that the two
    agree. *)

Definition pow2 (e : Z) : Q :=
  if 0 <=? e then inject_Z (2 ^ e) else / inject_Z (2 ^ (- e)).

(** [floor(log2(x))] of a positive rational. *)
Definition Qlog2 (x : Q) : Z :=
  let l := Z.log2 (Qnum x) - Z.log2 (Z.pos (Qden x)) in
  if Qle_bool (pow2 l) x then l else l - 1.

(** The nearest binary64 value, ties to even: a significand of 53 bits and
    a least exponent of -1074 (overflow is left to [is_float]). *)
Definition round64 (x : Q) : Q :=
  if Qeq_bool x 0 then 0%Q
  else
    let a := Qabs x in
    let e := Z.max (Qlog2 a - 52) (-1074) in
    let r := (inject_Z (round_half_even (a / pow2 e)) * pow2 e)%Q in
    Qred (if Qle_bool 0 x then r else - r).

(** The largest finite binary64 value. *)
Definition max_float : Q := inject_Z ((2 ^ 53 - 1) * 2 ^ 971).

(** A rational that is a finite binary64 value. *)
Definition is_float (x : Q) : bool :=
  Qeq_bool (round64 x) x && Qle_bool (Qabs x) max_float.

(** [int(x * n)] for the float [x] and the int [n], as Python computes it
    ([n] converted exactly, the product rounded and finite), is
    [py_int (fmul x n)]. *)
Definition float_int (x : Q) (n : Z) : bool :=
  is_float x && (Z.abs n <=? 2 ^ 53)
  && Qle_bool (Qabs (fmul x n)) max_float
  && (py_int (round64 (fmul x n)) =? py_int (fmul x n)).

(** Arguments [torch.randint] accepts: both bounds are int64 values. *)
Definition int64 (n : Z) : bool := (- 2 ^ 63 <=? n) && (n <? 2 ^ 63).

(** The generator state after [n] draws. *)
Definition advance (G : Generator) (n : nat) (t : gen_state G) : gen_state G :=
  Nat.iter n (fun t => snd (gen_next G t)) t.


(** * Properties *)

(** ** Truncation of scaled sizes *)

Lemma py_int_nonneg_floor x : (0 <= x)%Q -> py_int x = Qfloor x.
Proof.
  intros H. unfold py_int. apply Qle_bool_iff in H. now rewrite H.
Qed.

Lemma py_int_mono x y : (x <= y)%Q -> py_int x <= py_int y.
Proof.
  intros H. unfold py_int.
  destruct (Qle_bool 0 x) eqn:Hx; destruct (Qle_bool 0 y) eqn:Hy.
  - now apply Qfloor_resp_le.
  - apply Qle_bool_iff in Hx.
    assert (Qle_bool 0 y = true) by (apply Qle_bool_iff; eapply Qle_trans; eauto).
    congruence.
  - apply Qle_bool_iff in Hy.
    assert (Hx' : (x < 0)%Q).
    { apply Qnot_le_lt. intros C. apply Qle_bool_iff in C. congruence. }
    assert (Qceiling x <= 0).
    { change 0 with (Qceiling (inject_Z 0)). apply Qceiling_resp_le. now apply Qlt_le_weak. }
    assert (0 <= Qfloor y).
    { change 0 with (Qfloor (inject_Z 0)). now apply Qfloor_resp_le. }
    lia.
  - now apply Qceiling_resp_le.
Qed.

Lemma py_int_inject n : py_int (inject_Z n) = n.
Proof.
  unfold py_int. destruct (Qle_bool 0 (inject_Z n)).
  - apply Qfloor_Z.
  - apply Qceiling_Z.
Qed.

Lemma fmul_mono q q' n : (q <= q')%Q -> 0 <= n -> (fmul q n <= fmul q' n)%Q.
Proof.
  intros H Hn. unfold fmul. apply Qmult_le_compat_r; trivial.
  change 0%Q with (inject_Z 0). rewrite <- Zle_Qle. exact Hn.
Qed.

Lemma fmul_one n : (fmul 1 n == inject_Z n)%Q.
Proof. unfold fmul. ring. Qed.

Lemma py_int_proper x y : (x == y)%Q -> py_int x = py_int y.
Proof.
  intros H. apply Z.le_antisymm; apply py_int_mono; rewrite H; apply Qle_refl.
Qed.

Lemma py_int_fmul_one n : py_int (fmul 1 n) = n.
Proof. rewrite (py_int_proper _ _ (fmul_one n)). apply py_int_inject. Qed.

Lemma py_int_fmul_le_one q n : (q <= 1)%Q -> 0 <= n -> py_int (fmul q n) <= n.
Proof.
  intros Hq Hn. rewrite <- (py_int_fmul_one n) at 2.
  apply py_int_mono, fmul_mono; trivial.
Qed.

(** ** The samplers stay inside their ranges *)

Section SamplerFacts.

Variable G : Generator.

Lemma torch_randint_range (low high v : Z) (s s' : rng G) :
  torch_randint low high s = Ok (v, s') -> low <= v < high.
Proof.
  unfold torch_randint. destruct (Z.ltb_spec low high) as [Hlt | Hge]; [| discriminate].
  destruct (gen_next G (torch_rng s)) as [r t]. intros E. inversion E; subst.
  pose proof (Z.mod_pos_bound (Z.of_N r) (high - low)). lia.
Qed.

Lemma torch_randint_empty (low high : Z) (s : rng G) :
  high <= low -> torch_randint low high s = Err RuntimeError.
Proof.
  intros H. unfold torch_randint. destruct (Z.ltb_spec low high); [lia | reflexivity].
Qed.

Lemma torch_randint_total (low high : Z) (s : rng G) :
  low < high -> exists v s', torch_randint low high s = Ok (v, s')
                            /\ py_rng s' = py_rng s /\ np_rng s' = np_rng s.
Proof.
  intros H. unfold torch_randint. destruct (Z.ltb_spec low high); [| lia].
  destruct (gen_next G (torch_rng s)) as [r t]. eauto.
Qed.

Lemma torch_randint_singleton (low : Z) (s : rng G) :
  exists s', torch_randint low (low + 1) s = Ok (low, s').
Proof.
  unfold torch_randint. destruct (Z.ltb_spec low (low + 1)); [| lia].
  destruct (gen_next G (torch_rng s)) as [r t]. eexists. do 2 f_equal.
  replace (low + 1 - low) with 1 by lia. rewrite Z.mod_1_r. lia.
Qed.

Lemma py_randint_range (a b v : Z) (s s' : rng G) :
  py_randint a b s = Ok (v, s') -> a <= v <= b.
Proof.
  unfold py_randint. destruct (Z.leb_spec a b) as [Hle | Hgt]; [| discriminate].
  destruct (gen_next G (py_rng s)) as [r p]. intros E. inversion E; subst.
  pose proof (Z.mod_pos_bound (Z.of_N r) (b - a + 1)). lia.
Qed.


Lemma np_randint_range (low high v : Z) (s s' : rng G) :
  np_randint low high s = Ok (v, s') -> low <= v < high.
Proof.
  unfold np_randint. destruct (Z.ltb_spec low high) as [Hlt | Hge]; [| discriminate].
  destruct (gen_next G (np_rng s)) as [r t]. intros E. inversion E; subst.
  pose proof (Z.mod_pos_bound (Z.of_N r) (high - low)). lia.
Qed.

(** Inversion of a bind that returned. *)
Lemma bind_Ok {A B} (m : M G A) (k : A -> M G B) (s s' : rng G) (b : B) :
  bind m k s = Ok (b, s') ->
  exists a s1, m s = Ok (a, s1) /\ k a s1 = Ok (b, s').
Proof.
  unfold bind. destruct (m s) as [[a s1] | e]; [eauto | discriminate].
Qed.

Lemma bind_Err {A B} (m : M G A) (k : A -> M G B) (s : rng G) (e : exn) :
  m s = Err e -> bind m k s = Err e.
Proof. unfold bind. now intros ->. Qed.

Lemma bind_step {A B} (m : M G A) (k : A -> M G B) (s s1 : rng G) (a : A) :
  m s = Ok (a, s1) -> bind m k s = k a s1.
Proof. unfold bind. now intros ->. Qed.

End SamplerFacts.

(** ** CropResizePad: the crop sampler *)

(** C10: whatever [get_random_crop_size] returns is strictly smaller than
    the resized size in each dimension, and when [int(crop_min * h) >= h]
    (or the same on [w]) the integer range is empty and the call raises
    instead of returning a size. *)
Theorem get_random_crop_size_strictly_smaller
    (G : Generator) (self : CropResizePad) (h w : Z) (s : rng G) :
  (forall ch cw s',
      get_random_crop_size G self h w s = Ok ((ch, cw), s') ->
      ch < h /\ cw < w)
  /\ (forall lo hi,
         crop_min self = Some lo -> crop_max self = Some hi ->
         py_int (fmul lo h) >= h \/ py_int (fmul lo w) >= w ->
         get_random_crop_size G self h w s = Err RuntimeError).
Proof.
  split.
  - intros ch cw s' E. unfold get_random_crop_size in E.
    destruct (crop_min self) as [lo |]; [| discriminate].
    destruct (crop_max self) as [hi |]; [| discriminate].
    apply bind_Ok in E. destruct E as (a & s1 & E1 & E).
    apply bind_Ok in E. destruct E as (b & s2 & E2 & E).
    inversion E; subst.
    apply torch_randint_range in E1. apply torch_randint_range in E2. lia.
  - intros lo hi Hlo Hhi Hempty. unfold get_random_crop_size.
    rewrite Hlo, Hhi.
    destruct (Z_lt_le_dec (py_int (fmul lo h)) (Z.min (py_int (fmul hi h) + 1) h))
      as [Hh | Hh].
    + destruct (torch_randint_total G _ _ s Hh) as (v & s1 & E1 & _).
      rewrite (bind_step G _ _ _ _ _ E1).
      apply bind_Err, torch_randint_empty. lia.
    + apply bind_Err, torch_randint_empty. lia.
Qed.

Lemma get_random_crop_size_strictly_smaller_witness :
  (exists s', get_random_crop_size lcg
                {| resize_min := None; resize_max := None;
                   crop_min := Some (1 # 2)%Q; crop_max := Some 1%Q |}
                8 8 (lcg_rng 1 2 3) = Ok ((4, 7), s'))
  /\ 4 < 8 /\ 7 < 8
  /\ get_random_crop_size lcg
       {| resize_min := None; resize_max := None;
          crop_min := Some 1%Q; crop_max := Some 1%Q |}
       8 8 (lcg_rng 1 2 3) = Err RuntimeError.
Proof.
  pose (ok_cfg := {| resize_min := None; resize_max := None;
                     crop_min := Some (1 # 2)%Q; crop_max := Some 1%Q |}).
  assert (E : exists s', get_random_crop_size lcg ok_cfg 8 8 (lcg_rng 1 2 3)
                         = Ok ((4, 7), s')).
  { eexists. vm_compute. reflexivity. }
  split; [exact E |].
  destruct E as [s' E].
  destruct (get_random_crop_size_strictly_smaller lcg ok_cfg 8 8 (lcg_rng 1 2 3))
    as [Hsmall _].
  destruct (Hsmall 4 7 s' E) as [H1 H2].
  split; [exact H1 |]. split; [exact H2 |].
  destruct (get_random_crop_size_strictly_smaller lcg
              {| resize_min := None; resize_max := None;
                 crop_min := Some 1%Q; crop_max := Some 1%Q |}
              8 8 (lcg_rng 1 2 3)) as [_ Hempty].
  apply (Hempty 1%Q 1%Q eq_refl eq_refl).
  left. vm_compute. discriminate.
Defined.

(** ** Seeding *)

Section Seeding.

Variable G : Generator.

(** Both seeding statements of a seeded call, run from any state, leave the
    torch and Python generators in the state the seed determines. *)
Lemma bind_reseed_forgets {A} (seed : Z) (k : unit -> M G A) (s1 s2 : rng G) :
  np_rng s1 = np_rng s2 ->
  bind (_ <- torch_manual_seed seed ;; py_random_seed seed) k s1
  = bind (_ <- torch_manual_seed seed ;; py_random_seed seed) k s2.
Proof.
  intros H. unfold bind, torch_manual_seed, py_random_seed, set_py, set_torch.
  cbn. now rewrite H.
Qed.

Lemma CropResizePad_forward_seeded_forgets (K : Kernels) self images masks sizes
    seed (s1 s2 : rng G) :
  np_rng s1 = np_rng s2 ->
  CropResizePad_forward G K self images masks sizes (Some seed) s1
  = CropResizePad_forward G K self images masks sizes (Some seed) s2.
Proof. intros H. unfold CropResizePad_forward. now apply bind_reseed_forgets. Qed.

Lemma get_perspective_params_seeded_forgets width height distortion_scale seed
    (s1 s2 : rng G) :
  np_rng s1 = np_rng s2 ->
  get_perspective_params G width height distortion_scale (Some seed) s1
  = get_perspective_params G width height distortion_scale (Some seed) s2.
Proof. intros H. unfold get_perspective_params. now apply bind_reseed_forgets. Qed.

End Seeding.

(** C9 fails as stated: the same unseeded sampling call draws 6 when run
    on its own, 9 when a seeded [CropResizePad] call ran before it and 3
    when a [Perspective] call with [random_seed] ran before it. *)
Lemma seeded_call_leaks_into_later_calls :
  let later := Rotate_get_random_angle lcg rotate_default in
  let seeded_crop :=
    CropResizePad_forward lcg reference_kernels crop_resize_pad_half
      image_2x2 mask_2x2 (Some (1, 1, 1 # 2, 1 # 2)%Q) (Some 42) in
  let seeded_perspective :=
    Perspective_forward lcg perspective_seeded image_2x2 mask_2x2
      (Some (1 # 2)%Q) in
  outcome (later (lcg_rng 1 2 3)) = Ok 6
  /\ outcome ((_ <- seeded_crop ;; later) (lcg_rng 1 2 3)) = Ok 9
  /\ outcome ((_ <- seeded_perspective ;; later) (lcg_rng 1 2 3)) = Ok 3
  /\ outcome (later (lcg_rng 1 2 3))
     <> outcome ((_ <- seeded_crop ;; later) (lcg_rng 1 2 3))
  /\ outcome (later (lcg_rng 1 2 3))
     <> outcome ((_ <- seeded_perspective ;; later) (lcg_rng 1 2 3)).
Proof.
  cbv zeta.
  assert (H1 : outcome (Rotate_get_random_angle lcg rotate_default (lcg_rng 1 2 3))
               = Ok 6) by (vm_compute; reflexivity).
  assert (H2 : outcome
                 ((_ <- CropResizePad_forward lcg reference_kernels
                          crop_resize_pad_half image_2x2 mask_2x2
                          (Some (1, 1, 1 # 2, 1 # 2)%Q) (Some 42) ;;
                   Rotate_get_random_angle lcg rotate_default) (lcg_rng 1 2 3))
               = Ok 9) by (vm_compute; reflexivity).
  assert (H3 : outcome
                 ((_ <- Perspective_forward lcg perspective_seeded image_2x2
                          mask_2x2 (Some (1 # 2)%Q) ;;
                   Rotate_get_random_angle lcg rotate_default) (lcg_rng 1 2 3))
               = Ok 3) by (vm_compute; reflexivity).
  repeat split; trivial.
  - rewrite H1, H2. discriminate.
  - rewrite H1, H3. discriminate.
Qed.

(** ** Which calls depend on the random sources *)

Section Determinism.

Variable G : Generator.
Variable K : Kernels.

Lemma np_frame_ret {A} (a : A) : np_frame G (ret a).
Proof. now intros s n. Qed.

Lemma np_frame_raise {A} (e : exn) : np_frame G (@raise G A e).
Proof. now intros s n. Qed.

Lemma np_frame_lift {A} (r : result A) : np_frame G (lift r).
Proof. intros s n. unfold lift. now destruct r. Qed.

Lemma np_frame_bind {A B} (m : M G A) (k : A -> M G B) :
  np_frame G m -> (forall a, np_frame G (k a)) -> np_frame G (bind m k).
Proof.
  intros Hm Hk s n. unfold bind. rewrite Hm.
  destruct (m s) as [[a s'] | e]; [apply Hk | reflexivity].
Qed.

Lemma np_frame_torch_randint low high : np_frame G (@torch_randint G low high).
Proof.
  intros s n. unfold torch_randint. destruct (low <? high); [| reflexivity].
  cbn. now destruct (gen_next G (torch_rng s)).
Qed.

Lemma np_frame_torch_rand : np_frame G (@torch_rand G).
Proof.
  intros s n. unfold torch_rand. cbn. now destruct (gen_next G (torch_rng s)).
Qed.

Lemma np_frame_py_randint a b : np_frame G (@py_randint G a b).
Proof.
  intros s n. unfold py_randint. destruct (a <=? b); [| reflexivity].
  cbn. now destruct (gen_next G (py_rng s)).
Qed.

Lemma np_frame_torch_manual_seed seed : np_frame G (@torch_manual_seed G seed).
Proof. now intros s n. Qed.

Lemma np_frame_py_random_seed seed : np_frame G (@py_random_seed G seed).
Proof. now intros s n. Qed.

Lemma np_frame_torch_rand_list n : np_frame G (torch_rand_list G n).
Proof.
  induction n as [| n IH]; cbn [torch_rand_list].
  - apply np_frame_ret.
  - apply np_frame_bind; [apply np_frame_torch_rand | intros v].
    apply np_frame_bind; [exact IH | intros vs]. apply np_frame_ret.
Qed.

Lemma np_frame_torch_rand_grid b c : np_frame G (torch_rand_grid G b c).
Proof.
  induction b as [| b IH]; cbn [torch_rand_grid].
  - apply np_frame_ret.
  - apply np_frame_bind; [apply np_frame_torch_rand_list | intros v].
    apply np_frame_bind; [exact IH | intros vs]. apply np_frame_ret.
Qed.

End Determinism.

Create HintDb np_frame.

#[local] Hint Resolve np_frame_ret np_frame_raise np_frame_lift
  np_frame_torch_randint np_frame_torch_rand np_frame_py_randint
  np_frame_torch_manual_seed np_frame_py_random_seed
  np_frame_torch_rand_list np_frame_torch_rand_grid : np_frame.

Ltac np_frame_step :=
  match goal with
  | |- np_frame _ (bind _ _) => apply np_frame_bind; [| intros ?]
  | |- np_frame _ (match ?x with _ => _ end) => destruct x
  | |- np_frame _ _ => solve [auto with np_frame]
  end.

Section DeterminismOperators.

Variable G : Generator.
Variable K : Kernels.

Lemma np_frame_RandomCrop_get_params h w sz :
  np_frame G (RandomCrop_get_params G h w sz).
Proof. unfold RandomCrop_get_params. repeat np_frame_step. Qed.

Lemma np_frame_CropResizePad_forward self images masks sizes seed :
  np_frame G (CropResizePad_forward G K self images masks sizes seed).
Proof.
  unfold CropResizePad_forward, get_random_resize_size, get_random_crop_size.
  repeat np_frame_step; apply np_frame_RandomCrop_get_params.
Qed.

Lemma np_frame_get_perspective_params w h d seed :
  np_frame G (get_perspective_params G w h d seed).
Proof. unfold get_perspective_params. repeat np_frame_step. Qed.

End DeterminismOperators.

Section DeterminismTheorems.

Variable G : Generator.
Variable K : Kernels.

Lemma seeded_outcome {A} (m : M G A) :
  np_frame G m ->
  (forall s1 s2, np_rng s1 = np_rng s2 -> m s1 = m s2) ->
  forall s1 s2, outcome (m s1) = outcome (m s2).
Proof.
  intros Hframe Hseed s1 s2.
  transitivity (outcome (m (set_np (np_rng s2) (set_np (np_rng s1) s2)))).
  - rewrite (Hseed s1 (set_np (np_rng s1) s2) eq_refl).
    rewrite (Hframe (set_np (np_rng s1) s2) (np_rng s2)).
    now destruct (m (set_np (np_rng s1) s2)) as [[a s'] | e].
  - do 2 f_equal. now destruct s2.
Qed.

Lemma Rotate_forward_explicit self image mask angle (s : rng G) :
  outcome (Rotate_forward G K self image mask (Some angle) s)
  = Ok (F_rotate K NEAREST image angle, F_rotate K NEAREST mask angle).
Proof. reflexivity. Qed.

Lemma Resize_forward_explicit self image mask size (s : rng G) :
  outcome (Resize_forward G K self image mask (Some size) s)
  = (let '(_, _, h, w) := shape4 image in
     let output_size := (py_int (fmul size h), py_int (fmul size w)) in
     image' <~ F_resize K BILINEAR true image output_size ;;
     mask' <~ F_resize K NEAREST false mask output_size ;;
     Ok (image', mask')).
Proof.
  unfold Resize_forward, output_size_of, bind, lift, ret, rbind, outcome.
  destruct (shape4 image) as [[[b c] h] w].
  destruct (F_resize K BILINEAR true image (py_int (fmul size h), py_int (fmul size w)))
    as [image' | e]; [| reflexivity].
  destruct (F_resize K NEAREST false mask (py_int (fmul size h), py_int (fmul size w)))
    as [mask' | e]; reflexivity.
Qed.

Lemma UpperLeftCrop_forward_explicit self image mask size (s : rng G) :
  outcome (UpperLeftCrop_forward G self image mask (Some size) s)
  = (let '(_, _, h, w) := shape4 image in
     let th := py_int (fmul size h) in
     let tw := py_int (fmul size w) in
     if (h <? th) || (w <? tw) then Err ValueError
     else Ok (F_crop image 0 0 th tw, F_crop mask 0 0 th tw)).
Proof.
  unfold UpperLeftCrop_forward, output_size_of, RandomCrop_get_params,
    bind, ret, raise, outcome.
  destruct (shape4 image) as [[[b c] h] w].
  destruct (Z.ltb_spec h (py_int (fmul size h))) as [Hh | Hh]; [reflexivity |].
  destruct (Z.ltb_spec w (py_int (fmul size w))) as [Hw | Hw]; [reflexivity |].
  cbn [orb].
  destruct (Z.eqb_spec w (py_int (fmul size w))) as [Ew | Ew];
    destruct (Z.eqb_spec h (py_int (fmul size h))) as [Eh | Eh]; cbn [andb].
  1: now rewrite <- Ew, <- Eh.
  all: destruct (torch_randint_total G 0 (h - py_int (fmul size h) + 1) s)
         as (i & s1 & Ei & _); [lia |];
       destruct (torch_randint_total G 0 (w - py_int (fmul size w) + 1) s1)
         as (j & s2 & Ej & _); [lia |];
       rewrite Ei, Ej; reflexivity.
Qed.

End DeterminismTheorems.

(** C1 (as the code has it): with explicitly supplied parameters, [Rotate]
    (angle), [Resize] (size) and [UpperLeftCrop] (size), like [Identity]
    and [HorizontalFlip], return outputs that do not depend on the random
    sources.  [CropResizePad] with explicit sizes and [Perspective] with an
    explicit distortion scale still draw offsets, pad colours and corner
    points: their outputs are independent of the generator state only when
    the call is also seeded ([seed], respectively [random_seed]). *)
Theorem explicit_parameters_determinism (G : Generator) (K : Kernels)
    (image mask : tensor4) (s1 s2 : rng G) :
  (forall self angle,
      outcome (Rotate_forward G K self image mask (Some angle) s1)
      = outcome (Rotate_forward G K self image mask (Some angle) s2))
  /\ (forall self size,
         outcome (Resize_forward G K self image mask (Some size) s1)
         = outcome (Resize_forward G K self image mask (Some size) s2))
  /\ (forall self size,
         outcome (UpperLeftCrop_forward G self image mask (Some size) s1)
         = outcome (UpperLeftCrop_forward G self image mask (Some size) s2))
  /\ outcome (Identity_forward G image mask s1)
     = outcome (Identity_forward G image mask s2)
  /\ outcome (HorizontalFlip_forward G image mask s1)
     = outcome (HorizontalFlip_forward G image mask s2)
  /\ (forall self sizes seed,
         outcome (CropResizePad_forward G K self image mask (Some sizes)
                                        (Some seed) s1)
         = outcome (CropResizePad_forward G K self image mask (Some sizes)
                                          (Some seed) s2))
  /\ (forall lo hi seed distortion_scale,
         let self := {| min_distortion_scale := lo;
                        max_distortion_scale := hi;
                        random_seed_attr := Some seed |} in
         outcome (Perspective_forward G self image mask (Some distortion_scale) s1)
         = outcome (Perspective_forward G self image mask (Some distortion_scale) s2)).
Proof.
  repeat apply conj; intros.
  - now rewrite !Rotate_forward_explicit.
  - now rewrite !Resize_forward_explicit.
  - now rewrite !UpperLeftCrop_forward_explicit.
  - reflexivity.
  - reflexivity.
  - apply seeded_outcome.
    + apply np_frame_CropResizePad_forward.
    + intros. now apply CropResizePad_forward_seeded_forgets.
  - subst self. unfold Perspective_forward. cbn [random_seed_attr].
    destruct (shape4 image) as [[[b c] h] w].
    apply seeded_outcome.
    + repeat np_frame_step. apply np_frame_get_perspective_params.
    + intros t1 t2 Hnp. unfold bind at 1 3. cbn [ret].
      unfold bind at 1 3.
      now rewrite (get_perspective_params_seeded_forgets G w h distortion_scale
                         seed t1 t2 Hnp).
Qed.

(** C1 fails as stated: with the explicit parameter fixed, [Crop] (size
    1/2), [CropResizePad] (sizes (1, 1, 1/2, 1/2), no seed) and
    [Perspective] (distortion scale 1/2, no [random_seed]) return different
    outputs on the same image and mask when the generators differ. *)
Lemma explicit_parameters_still_draw :
  outcome (Crop_forward tape size_range_unset image_2x2 mask_2x2
             (Some (1 # 2)%Q) (tape_rng [0; 0]%N [] []))
  <> outcome (Crop_forward tape size_range_unset image_2x2 mask_2x2
                (Some (1 # 2)%Q) (tape_rng [1; 1]%N [] []))
  /\ outcome (CropResizePad_forward tape reference_kernels crop_resize_pad_half
                image_2x2 mask_2x2 (Some (1, 1, 1 # 2, 1 # 2)%Q) None
                (tape_rng [0; 0; 0]%N [0; 0]%N []))
     <> outcome (CropResizePad_forward tape reference_kernels crop_resize_pad_half
                   image_2x2 mask_2x2 (Some (1, 1, 1 # 2, 1 # 2)%Q) None
                   (tape_rng [1; 1; 8388608]%N [1; 1]%N []))
  /\ outcome (Perspective_forward tape perspective_default image_4x4 mask_4x4
                (Some (1 # 2)%Q) (tape_rng [1; 0; 1; 0; 1; 1; 1; 1]%N [] []))
     <> outcome (Perspective_forward tape perspective_default image_4x4 mask_4x4
                   (Some (1 # 2)%Q) (tape_rng [0; 0; 1; 0; 1; 1; 0; 1]%N [] [])).
Proof.
  repeat apply conj; vm_compute; discriminate.
Qed.

(** ** Labels under resampling *)

Section Labels.

Variable P : Q -> Prop.
Hypothesis P_zero : P 0%Q.

Lemma nth_plane_all (p : plane) (y x : nat) :
  plane_all P p -> P (nth x (nth y p []) 0%Q).
Proof.
  intros Hp.
  assert (Hrow : Forall P (nth y p [])).
  { destruct (nth_in_or_default y p []) as [Hin | ->]; [| constructor].
    unfold plane_all in Hp. rewrite Forall_forall in Hp. now apply Hp. }
  destruct (nth_in_or_default x (nth y p []) 0%Q) as [Hin | ->]; [| exact P_zero].
  rewrite Forall_forall in Hrow. now apply Hrow.
Qed.

Lemma pixel_or_zero_all (p : plane) (iy ix : Z) :
  plane_all P p -> P (pixel_or_zero p iy ix).
Proof.
  intros Hp. unfold pixel_or_zero.
  destruct (_ && _); [now apply nth_plane_all | exact P_zero].
Qed.

(** Nearest-neighbour sampling copies input entries (or the zero fill),
    whatever the sampling grid. *)
Lemma grid_sample_nearest_all (grid : Z -> Z -> Q * Q) (p : plane) :
  plane_all P p -> plane_all P (grid_sample NEAREST grid p).
Proof.
  intros Hp. unfold grid_sample, plane_all.
  apply Forall_map, Forall_forall. intros y _.
  apply Forall_map, Forall_forall. intros x _.
  unfold sample. destruct (grid y x) as [sx sy]. now apply pixel_or_zero_all.
Qed.

Lemma interpolate_nearest_all (p : plane) (oh ow : Z) :
  plane_all P p -> plane_all P (interpolate_nearest p oh ow).
Proof.
  intros Hp. unfold interpolate_nearest, plane_all.
  apply Forall_map, Forall_forall. intros y _.
  apply Forall_map, Forall_forall. intros x _.
  now apply nth_plane_all.
Qed.

Lemma Forall_firstn' {A} (R : A -> Prop) (n : nat) (l : list A) :
  Forall R l -> Forall R (firstn n l).
Proof.
  intros H. revert n. induction H; intros [| n]; cbn; auto.
Qed.

Lemma Forall_skipn' {A} (R : A -> Prop) (n : nat) (l : list A) :
  Forall R l -> Forall R (skipn n l).
Proof.
  intros H. revert n. induction H; intros [| n]; cbn; auto.
Qed.

Lemma py_slice_all {A} (R : A -> Prop) (l : list A) (a b : Z) :
  Forall R l -> Forall R (py_slice l a b).
Proof.
  intros H. unfold py_slice. now apply Forall_firstn', Forall_skipn'.
Qed.

Lemma slice_plane_all (p : plane) (a b c d : Z) :
  plane_all P p -> plane_all P (slice_plane p a b c d).
Proof.
  intros Hp. unfold slice_plane, plane_all.
  apply Forall_map. eapply Forall_impl; [| apply py_slice_all, Hp].
  intros row Hrow. now apply py_slice_all.
Qed.

Lemma map4_all (f : plane -> plane) (t : tensor4) :
  (forall p, plane_all P p -> plane_all P (f p)) ->
  tensor4_all P t -> tensor4_all P (map4 f t).
Proof.
  intros Hf Ht. unfold map4, tensor4_all, tensor3_all in *.
  apply Forall_map. eapply Forall_impl; [| exact Ht].
  intros u Hu. apply Forall_map. eapply Forall_impl; [| exact Hu]. exact Hf.
Qed.

Lemma F_rotate_nearest_all (K : Kernels) (t : tensor4) (angle : Q) :
  tensor4_all P t -> tensor4_all P (F_rotate K NEAREST t angle).
Proof.
  intros Ht. apply map4_all; [| exact Ht].
  intros p Hp. now apply grid_sample_nearest_all.
Qed.

Lemma F_resize_nearest_all (K : Kernels) (antialias : bool) (t t' : tensor4)
    (size : Z * Z) :
  tensor4_all P t -> F_resize K NEAREST antialias t size = Ok t' ->
  tensor4_all P t'.
Proof.
  intros Ht. unfold F_resize.
  destruct (shape4 t) as [[[b c] h] w]. destruct size as [oh ow].
  destruct (_ && _); [intros E; now inversion E; subst |].
  destruct (_ || _); [discriminate |].
  intros E. inversion E; subst. apply map4_all; [| exact Ht].
  intros p Hp. now apply interpolate_nearest_all.
Qed.

Lemma F_crop_all (t : tensor4) (top left h w : Z) :
  tensor4_all P t -> tensor4_all P (F_crop t top left h w).
Proof.
  intros Ht. apply map4_all; [| exact Ht].
  intros p Hp. now apply slice_plane_all.
Qed.

Lemma F_perspective_nearest_all (t t' : tensor4) (startpoints endpoints : list point) :
  tensor4_all P t -> F_perspective NEAREST t startpoints endpoints = Ok t' ->
  tensor4_all P t'.
Proof.
  intros Ht. unfold F_perspective.
  destruct (get_perspective_coeffs startpoints endpoints) as [coeffs |];
    [| discriminate].
  intros E. inversion E; subst. apply map4_all; [| exact Ht].
  intros p Hp. now apply grid_sample_nearest_all.
Qed.

End Labels.

Lemma is_label_zero : is_label 0%Q.
Proof. now left. Qed.

(** The mask branches of [Rotate], [Resize] and [Crop] resample with the
    nearest-neighbour filter (or slice), so a mask of labels stays a mask of
    labels. *)
Lemma nearest_mask_branches_keep_labels (G : Generator) (K : Kernels)
    (image mask image' mask' : tensor4) (s s' : rng G) :
  tensor4_all is_label mask ->
  (forall self angle,
      Rotate_forward G K self image mask angle s = Ok ((image', mask'), s') ->
      tensor4_all is_label mask')
  /\ (forall self size,
         Resize_forward G K self image mask size s = Ok ((image', mask'), s') ->
         tensor4_all is_label mask')
  /\ (forall self size,
         Crop_forward G self image mask size s = Ok ((image', mask'), s') ->
         tensor4_all is_label mask').
Proof.
  intros Hmask. repeat apply conj; intros self param E.
  - unfold Rotate_forward in E.
    apply bind_Ok in E. destruct E as (angle & s1 & _ & E).
    inversion E; subst. now apply F_rotate_nearest_all; [apply is_label_zero |].
  - unfold Resize_forward in E.
    apply bind_Ok in E. destruct E as (sz & s1 & _ & E).
    apply bind_Ok in E. destruct E as (im & s2 & _ & E).
    apply bind_Ok in E. destruct E as (mk & s3 & Emask & E).
    inversion E; subst. unfold lift in Emask.
    destruct (F_resize K NEAREST false mask sz) as [m |] eqn:Em; [| discriminate].
    inversion Emask; subst.
    eapply F_resize_nearest_all; [apply is_label_zero | exact Hmask | exact Em].
  - unfold Crop_forward in E.
    apply bind_Ok in E. destruct E as (sz & s1 & _ & E).
    destruct (shape4 image) as [[[b c] h] w].
    apply bind_Ok in E. destruct E as ([[[i j] h'] w'] & s2 & _ & E).
    inversion E; subst. now apply F_crop_all.
Qed.

(** C2: on a mask of labels, [Perspective.forward] returns entries 3/4.
    With distortion scale 1/2 on a 4 x 4 input and the corner draws
    1,0 / 1,0 / 1,1 / 1,1 the end points are (1,0), (3,0), (3,3), (1,3);
    [F.perspective] is called without an interpolation argument for the
    mask, so the mask is resampled bilinearly like the image. *)
Theorem Perspective_forward_mask_interpolated :
  let s := tape_rng [1; 0; 1; 0; 1; 1; 1; 1]%N [] [] in
  let mask' : tensor4 :=
    [[ [[0; 0; 3 # 4; 3 # 4]; [0; 0; 3 # 4; 3 # 4];
        [0; 0; 3 # 4; 3 # 4]; [0; 0; 3 # 4; 3 # 4]]%Q ]] in
  tensor4_all is_label mask_4x4
  /\ outcome (get_perspective_params tape 4 4 (1 # 2) None s)
     = Ok ([(0, 0); (3, 0); (3, 3); (0, 3)], [(1, 0); (3, 0); (3, 3); (1, 3)])
  /\ (exists image',
         outcome (Perspective_forward tape perspective_default image_4x4
                    mask_4x4 (Some (1 # 2)%Q) s) = Ok (image', mask'))
  /\ ~ tensor4_all is_label mask'
  /\ F_perspective NEAREST mask_4x4 [(0, 0); (3, 0); (3, 3); (0, 3)]
                   [(1, 0); (3, 0); (3, 3); (1, 3)]
     = Ok mask_4x4.
Proof.
  cbv zeta. repeat apply conj.
  - repeat (apply Forall_cons || apply Forall_nil); (now left) || (now right).
  - vm_compute. reflexivity.
  - eexists. vm_compute. reflexivity.
  - intros H.
    apply Forall_inv in H. apply Forall_inv in H. apply Forall_inv in H.
    apply Forall_inv_tail in H. apply Forall_inv_tail in H.
    apply Forall_inv in H. destruct H as [H | H]; discriminate H.
  - vm_compute. reflexivity.
Qed.

(** ** Shapes *)

Lemma plane_shapedb_iff (h w : Z) (p : plane) :
  plane_shapedb h w p = true <-> plane_shaped h w p.
Proof.
  unfold plane_shapedb, plane_shaped.
  rewrite andb_true_iff, Z.eqb_eq, forallb_forall, Forall_forall.
  split; intros [H1 H2]; split; trivial; intros row Hrow.
  - apply Z.eqb_eq. now apply H2.
  - apply Z.eqb_eq. now apply H2.
Qed.

Lemma tensor3_shapedb_iff (c h w : Z) (t : tensor3) :
  tensor3_shapedb c h w t = true <-> tensor3_shaped c h w t.
Proof.
  unfold tensor3_shapedb, tensor3_shaped.
  rewrite andb_true_iff, Z.eqb_eq, forallb_forall, Forall_forall.
  split; intros [H1 H2]; split; trivial; intros p Hp.
  - apply plane_shapedb_iff. now apply H2.
  - apply plane_shapedb_iff. now apply H2.
Qed.

Lemma tensor4_shapedb_iff (b c h w : Z) (t : tensor4) :
  tensor4_shapedb b c h w t = true <-> tensor4_shaped b c h w t.
Proof.
  unfold tensor4_shapedb, tensor4_shaped.
  rewrite andb_true_iff, Z.eqb_eq, forallb_forall, Forall_forall.
  split; intros [H1 H2]; split; trivial; intros p Hp.
  - apply tensor3_shapedb_iff. now apply H2.
  - apply tensor3_shapedb_iff. now apply H2.
Qed.

Ltac len_lia := unfold tensor4, tensor3, plane, height, width in *; lia.

Lemma hd_shaped {A} (R : A -> Prop) (d : A) (l : list A) :
  Forall R l -> (0 < length l)%nat -> R (hd d l).
Proof.
  intros H Hlen. destruct l as [| a l]; [cbn in Hlen; lia |].
  now inversion H.
Qed.

(** What [shape] reads off a rectangular tensor: each dimension is the
    declared one as soon as the dimensions before it are not empty. *)
Lemma shape4_shaped (b c h w : Z) (t : tensor4) :
  tensor4_shaped b c h w t ->
  let '(nb, nc, dh, dw) := shape4 t in
  nb = b
  /\ (1 <= b -> nc = c)
  /\ (1 <= b -> 1 <= c -> dh = h)
  /\ (1 <= b -> 1 <= c -> 1 <= h -> dw = w).
Proof.
  intros [Hb Ht]. unfold shape4. split; [exact Hb |].
  assert (H0 : 1 <= b -> tensor3_shaped c h w (hd [] t)).
  { intros Hb1. apply hd_shaped; [exact Ht | len_lia]. }
  split; [intros Hb1; now destruct (H0 Hb1) |].
  assert (H1 : 1 <= b -> 1 <= c -> plane_shaped h w (hd [] (hd [] t))).
  { intros Hb1 Hc1. destruct (H0 Hb1) as [Hc Hp]. apply hd_shaped; [exact Hp | len_lia]. }
  split; [intros Hb1 Hc1; now destruct (H1 Hb1 Hc1) |].
  intros Hb1 Hc1 Hh1. destruct (H1 Hb1 Hc1) as [Hh Hrows].
  unfold width.
  apply (hd_shaped (fun row => Z.of_nat (length row) = w)); [exact Hrows | len_lia].
Qed.

Lemma shape4_nondegenerate (b c h w : Z) (t : tensor4) :
  tensor4_shaped b c h w t -> 1 <= b -> 1 <= c -> 1 <= h ->
  shape4 t = (b, c, h, w).
Proof.
  intros Ht Hb Hc Hh. pose proof (shape4_shaped b c h w t Ht) as H.
  destruct (shape4 t) as [[[nb nc] dh] dw].
  destruct H as (-> & H2 & H3 & H4).
  now rewrite H2, H3, H4.
Qed.

Lemma repeat_shaped {A} (R : A -> Prop) (a : A) (n : nat) :
  R a -> Forall R (repeat a n).
Proof. intros H. induction n; cbn; auto. Qed.

Lemma full_shaped (h w : Z) (v : Q) :
  0 <= h -> 0 <= w -> plane_shaped h w (full h w v).
Proof.
  intros Hh Hw. unfold plane_shaped, full, height. split.
  - rewrite repeat_length. lia.
  - apply repeat_shaped. rewrite repeat_length. lia.
Qed.

Lemma zrange_length (n : Z) : Z.of_nat (length (zrange n)) = Z.max 0 n.
Proof. unfold zrange. rewrite length_map, length_seq. lia. Qed.

Lemma grid_of_shaped (f : Z -> Z -> Q) (oh ow : Z) :
  0 <= oh -> 0 <= ow ->
  plane_shaped oh ow (map (fun y => map (f y) (zrange ow)) (zrange oh)).
Proof.
  intros Hh Hw. unfold plane_shaped, height. split.
  - rewrite length_map, zrange_length. lia.
  - apply Forall_map, Forall_forall. intros y _.
    rewrite length_map, zrange_length. lia.
Qed.

Lemma interpolate_shaped (K : Kernels) (mode : InterpolationMode) (p : plane)
    (oh ow : Z) :
  0 <= oh -> 0 <= ow ->
  plane_shaped oh ow (interpolate K mode false p oh ow).
Proof.
  intros Hh Hw. destruct mode; cbn.
  - apply (grid_of_shaped
             (fun y x =>
                nth (Z.to_nat (nearest_index (width p) ow x))
                    (nth (Z.to_nat (nearest_index (height p) oh y)) p []) 0%Q));
      trivial.
  - unfold interpolate_bilinear, plane_shaped, height. split.
    + rewrite length_map, zrange_length. lia.
    + apply Forall_map, Forall_forall. intros y _.
      destruct (linear_source (Z.of_nat (length p)) oh y) as [[y0 y1] ly].
      rewrite length_map, zrange_length. lia.
Qed.

Lemma map4_shaped (f : plane -> plane) (b c h w h' w' : Z) (t : tensor4) :
  (forall p, plane_shaped h w p -> plane_shaped h' w' (f p)) ->
  tensor4_shaped b c h w t -> tensor4_shaped b c h' w' (map4 f t).
Proof.
  intros Hf [Hb Ht]. unfold map4. split; [now rewrite length_map |].
  apply Forall_map. eapply Forall_impl; [| exact Ht].
  intros u [Hc Hu]. split; [now rewrite length_map |].
  apply Forall_map. eapply Forall_impl; [| exact Hu]. exact Hf.
Qed.



(** ** Slices and slice assignment *)

Lemma py_index_norm_inside (len i : Z) :
  0 <= i <= len -> py_index_norm len i = i.
Proof.
  intros H. unfold py_index_norm. destruct (Z.ltb_spec i 0); lia.
Qed.


Lemma py_slice_length {A} (l : list A) (a b : Z) :
  0 <= a -> a <= b -> b <= Z.of_nat (length l) ->
  Z.of_nat (length (py_slice l a b)) = b - a.
Proof.
  intros Ha Hab Hb. unfold py_slice.
  rewrite !py_index_norm_inside by lia.
  rewrite length_firstn, length_skipn. lia.
Qed.

Lemma py_slice_all_of {A} (l : list A) (n : Z) :
  n = Z.of_nat (length l) -> py_slice l 0 n = l.
Proof.
  intros ->. unfold py_slice.
  rewrite !py_index_norm_inside by lia.
  cbn [Z.to_nat skipn]. rewrite Z.sub_0_r, Nat2Z.id. apply firstn_all.
Qed.


Lemma slice_plane_whole (h w : Z) (p : plane) :
  plane_shaped h w p -> slice_plane p 0 (0 + h) 0 (0 + w) = p.
Proof.
  intros [Hh Hrows]. unfold slice_plane, height in *. cbn [Z.add].
  rewrite py_slice_all_of by congruence.
  rewrite <- (map_id p) at 2. apply map_ext_Forall.
  eapply Forall_impl; [| exact Hrows].
  intros row Hrow. cbn beta in *. now rewrite py_slice_all_of.
Qed.

Lemma map4_id_shaped (f : plane -> plane) (b c h w : Z) (t : tensor4) :
  (forall p, plane_shaped h w p -> f p = p) ->
  tensor4_shaped b c h w t -> map4 f t = t.
Proof.
  intros Hf [_ Ht]. unfold map4.
  rewrite <- (map_id t) at 2. apply map_ext_Forall.
  eapply Forall_impl; [| exact Ht].
  intros u [_ Hu]. rewrite <- (map_id u) at 2. apply map_ext_Forall.
  eapply Forall_impl; [| exact Hu]. exact Hf.
Qed.

Lemma zip_with_length {A B C} (f : A -> B -> C) (l : list A) (l' : list B) :
  length (zip_with f l l') = Nat.min (length l) (length l').
Proof.
  revert l'. induction l as [| a l IH]; intros [| b l']; cbn; auto.
Qed.

Lemma Forall_zip_with {A B C} (f : A -> B -> C) (RA : A -> Prop)
    (RB : B -> Prop) (RC : C -> Prop) (l : list A) (l' : list B) :
  (forall a b, RA a -> RB b -> RC (f a b)) ->
  Forall RA l -> Forall RB l' -> Forall RC (zip_with f l l').
Proof.
  intros Hf Hl. revert l'. induction Hl as [| a l Ha Hl IH]; intros l' Hl'.
  - constructor.
  - destruct Hl' as [| b l' Hb Hl']; cbn; constructor; auto.
Qed.


Lemma splice_all {A} (R : A -> Prop) (dst src : list A) (a b : Z) :
  Forall R dst -> Forall R src -> Forall R (splice dst a b src).
Proof.
  intros Hd Hs. unfold splice.
  apply Forall_app. split; [now apply Forall_firstn' |].
  apply Forall_app. split; [exact Hs | now apply Forall_skipn'].
Qed.

Lemma splice_whole {A} (dst src : list A) (n : Z) :
  n = Z.of_nat (length dst) -> splice dst 0 n src = src.
Proof.
  intros ->. unfold splice. cbn [Z.to_nat firstn app].
  rewrite Nat2Z.id, skipn_all. apply app_nil_r.
Qed.


Lemma zip_with_snd {A B} (f : A -> B -> B) (RA : A -> Prop) (RB : B -> Prop)
    (l : list A) (l' : list B) :
  (forall a b, RA a -> RB b -> f a b = b) ->
  Forall RA l -> Forall RB l' -> length l = length l' ->
  zip_with f l l' = l'.
Proof.
  intros Hf Hl. revert l'. induction Hl as [| a l Ha Hl IH]; intros l' Hl' Hlen.
  - destruct l'; [reflexivity | discriminate].
  - destruct Hl' as [| b l' Hb Hl']; [discriminate |].
    cbn. rewrite Hf, IH; auto.
Qed.



(** Assigning over the whole canvas returns the source. *)
Lemma assign_region_whole (b c h w : Z) (dst src : tensor4) :
  tensor4_shaped b c h w dst -> tensor4_shaped b c h w src ->
  1 <= b -> 1 <= c -> 1 <= h -> 1 <= w ->
  assign_region dst 0 (0 + h) 0 (0 + w) src = Ok src.
Proof.
  intros Hdst Hsrc Hb Hc Hh Hw. unfold assign_region.
  rewrite (shape4_nondegenerate b c h w dst Hdst Hb Hc Hh).
  rewrite !py_index_norm_inside by lia. cbn [Z.add].
  replace (Z.max 0 h - 0) with h by lia.
  replace (Z.max 0 w - 0) with w by lia.
  rewrite (proj2 (tensor4_shapedb_iff b c h w src) Hsrc). apply f_equal.
  destruct Hdst as [Hdb Hdst]. destruct Hsrc as [Hsb Hsrc].
  eapply zip_with_snd; [| exact Hdst | exact Hsrc | len_lia].
  intros d3 s3 [Hd3c Hd3] [Hs3c Hs3].
  eapply zip_with_snd; [| exact Hd3 | exact Hs3 | len_lia].
  intros dp sp [Hdh Hdrows] [Hsh Hsrows].
  replace (Z.max 0 h) with h by lia. replace (Z.max 0 w) with w by lia.
  rewrite splice_whole by (unfold height in Hdh; lia).
  rewrite py_slice_all_of by (unfold height in Hdh; lia).
  eapply zip_with_snd; [| exact Hdrows | exact Hsrows | len_lia].
  intros drow srow Hdrow Hsrow. cbn beta in *. apply splice_whole. lia.
Qed.

(** ** Totality of the draws and reductions of [CropResizePad.forward] *)

Section CropResizePadSteps.

Variable G : Generator.

Lemma torch_rand_list_spec (n : nat) (s : rng G) :
  exists vs s', torch_rand_list G n s = Ok (vs, s') /\ length vs = n.
Proof.
  revert s. induction n as [| n IH]; intros s; cbn [torch_rand_list].
  - exists [], s. now split.
  - unfold bind at 1. unfold torch_rand at 1.
    destruct (gen_next G (torch_rng s)) as [r t].
    destruct (IH (set_torch t s)) as (vs & s' & E & Hlen).
    unfold bind at 1. rewrite E. cbn.
    eexists _, s'. split; [reflexivity | cbn; now rewrite Hlen].
Qed.

Lemma torch_rand_grid_spec (b c : nat) (s : rng G) :
  exists g s', torch_rand_grid G b c s = Ok (g, s')
               /\ length g = b /\ Forall (fun r => length r = c) g.
Proof.
  revert s. induction b as [| b IH]; intros s; cbn [torch_rand_grid].
  - exists [], s. now repeat split.
  - destruct (torch_rand_list_spec c s) as (r & s1 & Er & Hr).
    destruct (IH s1) as (g & s' & Eg & Hlen & Hg).
    unfold bind at 1. rewrite Er. unfold bind at 1. rewrite Eg. cbn.
    eexists _, s'. split; [reflexivity |]. split; [cbn; now rewrite Hlen |].
    now constructor.
Qed.

Lemma tensor_min_total (b c h w : Z) (t : tensor4) :
  tensor4_shaped b c h w t -> 1 <= b -> 1 <= c -> 1 <= h -> 1 <= w ->
  (exists v, tensor_min t = Ok v) /\ (exists v, tensor_max t = Ok v).
Proof.
  intros [Hb Ht] Hb1 Hc1 Hh1 Hw1. unfold tensor_min, tensor_max, flatten4.
  destruct t as [| t0 t]; [cbn in Hb; lia |].
  apply Forall_inv in Ht. destruct Ht as [Hc Ht0].
  destruct t0 as [| p0 t0]; [cbn in Hc; lia |].
  apply Forall_inv in Ht0. destruct Ht0 as [Hh Hp0].
  destruct p0 as [| r0 p0]; [cbn in Hh; lia |].
  apply Forall_inv in Hp0.
  destruct r0 as [| v0 r0]; [cbn in Hp0; lia |].
  cbn. eauto.
Qed.

(** The canvases [CropResizePad.forward] pastes into. *)
Lemma padded_images_shaped (b c : nat) (h w : Z) (color : list (list Q)) :
  length color = b -> Forall (fun r => length r = c) color ->
  0 <= h -> 0 <= w ->
  tensor4_shaped (Z.of_nat b) (Z.of_nat c) h w
                 (map (map (fun v => full h w v)) color).
Proof.
  intros Hb Hc Hh Hw. split; [rewrite length_map; lia |].
  apply Forall_map. eapply Forall_impl; [| exact Hc].
  intros r Hr. cbn beta in *. split; [rewrite length_map; lia |].
  apply Forall_map, Forall_forall. intros v _. now apply full_shaped.
Qed.

Lemma padded_masks_shaped (b c : nat) (h w : Z) :
  0 <= h -> 0 <= w ->
  tensor4_shaped (Z.of_nat b) (Z.of_nat c) h w
                 (repeat (repeat (zeros h w) c) b).
Proof.
  intros Hh Hw. split; [rewrite repeat_length; lia |].
  apply repeat_shaped. split; [rewrite repeat_length; lia |].
  apply repeat_shaped. now apply full_shaped.
Qed.

End CropResizePadSteps.

(** ** CropResizePad: the canvas *)

Section CropResizePadCanvas.

Variable G : Generator.
Variable K : Kernels.

Lemma lift_Ok {A} (r : result A) (a : A) (s s' : rng G) :
  lift r s = Ok (a, s') -> r = Ok a.
Proof. unfold lift. destruct r; intros E; now inversion E. Qed.


End CropResizePadCanvas.

Section CropResizePadRun.

Variable G : Generator.
Variable K : Kernels.

Lemma bind_lift_Ok {A B} (r : result A) (a : A) (k : A -> M G B) (s : rng G) :
  r = Ok a -> bind (lift r) k s = k a s.
Proof. now intros ->. Qed.


Lemma RandomCrop_get_params_inside (h w th tw : Z) (s : rng G) :
  th <= h -> tw <= w ->
  exists i j s', RandomCrop_get_params G h w (th, tw) s = Ok ((i, j, th, tw), s')
                 /\ 0 <= i /\ i + th <= h /\ 0 <= j /\ j + tw <= w.
Proof.
  intros Hh Hw. unfold RandomCrop_get_params.
  destruct (Z.ltb_spec h th); [lia |]. destruct (Z.ltb_spec w tw); [lia |].
  cbn [orb].
  destruct (Z.eqb_spec w tw) as [Ew | Ew];
    destruct (Z.eqb_spec h th) as [Eh | Eh]; cbn [andb].
  1: { subst. exists 0, 0, s. split; [reflexivity | lia]. }
  all: destruct (torch_randint_total G 0 (h - th + 1) s) as (i & s1 & Ei & _);
         [lia |];
       destruct (torch_randint_total G 0 (w - tw + 1) s1) as (j & s2 & Ej & _);
         [lia |];
       exists i, j, s2; unfold bind; rewrite Ei, Ej;
       apply torch_randint_range in Ei; apply torch_randint_range in Ej;
       split; [reflexivity | lia].
Qed.

Lemma seeding_returns (seed : option Z) (s : rng G) :
  exists s0,
    match seed with
    | Some sd => _ <- torch_manual_seed sd ;; py_random_seed sd
    | None => ret tt
    end s = Ok (tt, s0).
Proof. destruct seed; eexists; reflexivity. Qed.


End CropResizePadRun.

Lemma py_int_nonneg (x : Q) : (0 <= x)%Q -> 0 <= py_int x.
Proof.
  intros H. change 0 with (py_int (inject_Z 0)) at 1.
  - now apply py_int_mono.
Qed.



Lemma fmul_nonneg (q : Q) (n : Z) : (0 <= q)%Q -> 0 <= n -> (0 <= fmul q n)%Q.
Proof.
  intros Hq Hn. unfold fmul. apply Qmult_le_0_compat; trivial.
  change 0%Q with (inject_Z 0). rewrite <- Zle_Qle. lia.
Qed.

Section CropResizePadSizes.

Variable G : Generator.


End CropResizePadSizes.

Ltac q_order := unfold Qle, Qlt; cbn; lia.

(** Side conditions on concrete inputs. *)
Ltac side_condition :=
  match goal with
  | |- float_int _ _ = true => vm_compute; reflexivity
  | |- int64 _ = true => vm_compute; reflexivity
  | |- (_ <= _)%Q => q_order
  | |- (_ < _)%Q => q_order
  | |- @eq (option _) _ _ => reflexivity
  | |- @eq Z _ _ => vm_compute; reflexivity
  | |- (_ <= _)%Z => vm_compute; discriminate
  | |- (_ < _)%Z => vm_compute; reflexivity
  end.


(** ** CropResizePad at scale 1 *)

Section CropResizePadOnes.

Variable G : Generator.
Variable K : Kernels.

Lemma py_randint_singleton (a : Z) (s : rng G) :
  exists s', py_randint a a s = Ok (a, s').
Proof.
  unfold py_randint. rewrite Z.leb_refl.
  destruct (gen_next G (py_rng s)) as [r p]. eexists. do 2 f_equal.
  replace (a - a + 1) with 1 by lia. rewrite Z.mod_1_r. lia.
Qed.

Lemma F_resize_same_size (mode : InterpolationMode) (aa : bool)
    (b c h w : Z) (t : tensor4) :
  tensor4_shaped b c h w t -> 1 <= b -> 1 <= c -> 1 <= h ->
  F_resize K mode aa t (h, w) = Ok t.
Proof.
  intros Ht Hb Hc Hh. unfold F_resize.
  rewrite (shape4_nondegenerate b c h w t Ht Hb Hc Hh).
  now rewrite !Z.eqb_refl.
Qed.

(** With every bound equal to 1 and sizes sampled, the resize sampler
    returns the input size and the crop sampler is asked for an integer of
    the empty range [h, h). *)
Lemma CropResizePad_ones_sampled_raises (self : CropResizePad)
    (images masks : tensor4) seed (s : rng G) :
  resize_min self = Some 1%Q -> resize_max self = Some 1%Q ->
  crop_min self = Some 1%Q -> crop_max self = Some 1%Q ->
  outcome (CropResizePad_forward G K self images masks None seed s)
  = Err RuntimeError.
Proof.
  intros Ermin Ermax Ecmin Ecmax. unfold CropResizePad_forward.
  destruct (seeding_returns G seed s) as [s0 Eseed].
  rewrite (bind_step G _ _ _ _ _ Eseed).
  destruct (shape4 images) as [[[b c] h] w].
  unfold get_random_resize_size, get_random_crop_size.
  rewrite Ermin, Ermax, Ecmin, Ecmax. rewrite !py_int_fmul_one.
  destruct (torch_randint_singleton G h s0) as [s1 Eh].
  destruct (torch_randint_singleton G w s1) as [s2 Ew].
  unfold bind, ret. rewrite Eh. cbv beta iota. rewrite Ew. cbv beta iota.
  cbn [fst snd]. rewrite !py_int_fmul_one.
  rewrite (torch_randint_empty G h (Z.min (h + 1) h) s2) by lia.
  reflexivity.
Qed.

(** With the explicit sizes (1, 1, 1, 1) nothing is resized, the crop is
    the whole image and it is pasted at offset (0, 0): the inputs come
    back. *)
Lemma CropResizePad_ones_explicit_identity (self : CropResizePad)
    (images masks : tensor4) (b c h w cm : Z) seed (s : rng G) :
  tensor4_shaped b c h w images -> 1 <= b -> 1 <= c -> 1 <= h -> 1 <= w ->
  tensor4_shaped b cm h w masks -> 1 <= cm ->
  outcome (CropResizePad_forward G K self images masks
             (Some (1, 1, 1, 1)%Q) seed s)
  = Ok (images, masks).
Proof.
  intros Himg Hb Hc Hh Hw Hmask Hcm. unfold CropResizePad_forward.
  destruct (seeding_returns G seed s) as [s0 Eseed].
  rewrite (bind_step G _ _ _ _ _ Eseed).
  rewrite (shape4_nondegenerate b c h w images Himg Hb Hc Hh).
  erewrite bind_step; [| reflexivity]. cbn [fst snd].
  rewrite !py_int_fmul_one.
  rewrite (bind_lift_Ok G _ _ _ _ (F_resize_same_size BILINEAR false b c h w
                                     images Himg Hb Hc Hh)).
  rewrite (bind_lift_Ok G _ _ _ _ (F_resize_same_size NEAREST false b cm h w
                                     masks Hmask Hb Hcm Hh)).
  pose proof (shape4_nondegenerate b c h w images Himg Hb Hc Hh) as Hsh.
  pose proof (shape4_nondegenerate b cm h w masks Hmask Hb Hcm Hh) as Hshm.
  destruct (tensor_min_total b c h w images Himg) as [[mn Emn] [mx Emx]];
    trivial.
  assert (Hcrop_i : map4 (fun p => slice_plane p 0 (0 + h) 0 (0 + w)) images
                    = images).
  { eapply map4_id_shaped; [| exact Himg]. intros p. apply slice_plane_whole. }
  assert (Hcrop_m : map4 (fun p => slice_plane p 0 (0 + h) 0 (0 + w)) masks
                    = masks).
  { eapply map4_id_shaped; [| exact Hmask]. intros p. apply slice_plane_whole. }
  assert (Hmc : Z.of_nat (length (hd [] masks)) = cm)
    by (unfold shape4 in Hshm; congruence).
  destruct images as [| image0 rest] eqn:Eimages.
  { destruct Himg as [Hlen _]. cbn in Hlen. lia. }
  erewrite bind_step; [| reflexivity].
  assert (Hd : height (hd [] image0) = h /\ width (hd [] image0) = w).
  { unfold shape4 in Hsh. cbn [hd] in Hsh. now inversion Hsh. }
  destruct Hd as [-> ->].
  rewrite <- Eimages in *. clear Eimages.
  rewrite !Z.min_id.
  unfold RandomCrop_get_params at 1.
  replace ((h <? h) || (w <? w)) with false
    by (symmetry; apply orb_false_iff; rewrite !Z.ltb_irrefl; auto).
  rewrite !Z.eqb_refl. cbn [andb].
  erewrite bind_step; [| reflexivity]. cbv beta iota zeta.
  rewrite Hcrop_i, Hcrop_m.
  replace ((h >? h) || (w >? w)) with false
    by (symmetry; apply orb_false_iff; rewrite !Z.gtb_ltb, !Z.ltb_irrefl; auto).
  rewrite !Z.sub_diag. cbn [Z.max].
  destruct (py_randint_singleton 0 s0) as [s1 Ept].
  destruct (py_randint_singleton 0 s1) as [s2 Epl].
  rewrite (bind_step G _ _ _ _ _ Ept), (bind_step G _ _ _ _ _ Epl).
  rewrite (bind_lift_Ok G _ _ _ _ Emn), (bind_lift_Ok G _ _ _ _ Emx).
  destruct (torch_rand_grid_spec G (Z.to_nat b) (Z.to_nat c) s2)
    as (g & s3 & Eg & Hgb & Hgc).
  rewrite (bind_step G _ _ _ _ _ Eg).
  set (canvas := map (map (fun v => full h w v)) _).
  assert (Hcanvas : tensor4_shaped b c h w canvas).
  { subst canvas.
    replace b with (Z.of_nat (Z.to_nat b)) at 1 by lia.
    replace c with (Z.of_nat (Z.to_nat c)) at 1 by lia.
    apply padded_images_shaped; try lia.
    - now rewrite length_map.
    - apply Forall_map. eapply Forall_impl; [| exact Hgc].
      intros r Hr. cbn beta in *. now rewrite length_map. }
  rewrite (bind_lift_Ok G _ _ _ _
             (assign_region_whole b c h w canvas images Hcanvas Himg
                                  Hb Hc Hh Hw)).
  set (mcanvas := repeat _ _).
  assert (Hmcanvas : tensor4_shaped b cm h w mcanvas).
  { subst mcanvas.
    replace b with (Z.of_nat (Z.to_nat b)) at 1 by lia.
    rewrite <- Hmc. apply padded_masks_shaped; lia. }
  rewrite (bind_lift_Ok G _ _ _ _
             (assign_region_whole b cm h w mcanvas masks Hmcanvas Hmask
                                  Hb Hcm Hh Hw)).
  reflexivity.
Qed.

End CropResizePadOnes.

(** C7 (as the code has it): configured with
    [resize_min = resize_max = crop_min = crop_max = 1.0] and called
    without explicit sizes, [CropResizePad] does not return: the crop
    sampler is capped at the resized size exclusive, its range is empty and
    [torch.randint] raises.  Called with the explicit sizes (1, 1, 1, 1) it
    returns the input image and mask unchanged. *)
Theorem CropResizePad_scale_one (G : Generator) (K : Kernels)
    (images masks : tensor4) :
  (forall seed (s : rng G),
      outcome (CropResizePad_forward G K crop_resize_pad_ones images masks
                 None seed s)
      = Err RuntimeError)
  /\ (forall self b c h w cm seed (s : rng G),
         tensor4_shapedb b c h w images = true ->
         tensor4_shapedb b cm h w masks = true ->
         1 <= b -> 1 <= c -> 1 <= cm -> 1 <= h -> 1 <= w ->
         outcome (CropResizePad_forward G K self images masks
                    (Some (1, 1, 1, 1)%Q) seed s)
         = Ok (images, masks)).
Proof.
  split.
  - intros seed s. now apply CropResizePad_ones_sampled_raises.
  - intros self b c h w cm seed s Himg Hmask Hb Hc Hcm Hh Hw.
    apply tensor4_shapedb_iff in Himg. apply tensor4_shapedb_iff in Hmask.
    now apply (CropResizePad_ones_explicit_identity G K self images masks
                 b c h w cm).
Qed.

Lemma CropResizePad_scale_one_witness :
  outcome (CropResizePad_forward lcg reference_kernels crop_resize_pad_ones
             image_4x4 mask_4x4 None None (lcg_rng 1 2 3))
  = Err RuntimeError
  /\ outcome (CropResizePad_forward lcg reference_kernels crop_resize_pad_ones
                image_4x4 mask_4x4 (Some (1, 1, 1, 1)%Q) None (lcg_rng 1 2 3))
     = Ok (image_4x4, mask_4x4).
Proof.
  destruct (CropResizePad_scale_one lcg reference_kernels image_4x4 mask_4x4)
    as [Hraises Hsame].
  split.
  - apply Hraises.
  - apply (Hsame crop_resize_pad_ones 1 1 4 4 1); try reflexivity; lia.
Defined.

(** C7 fails as stated: on a 2 x 2 image the call with every bound at 1.0
    and no explicit sizes raises instead of returning its inputs. *)
Lemma CropResizePad_scale_one_not_identity :
  outcome (CropResizePad_forward lcg reference_kernels crop_resize_pad_ones
             image_2x2 mask_2x2 None None (lcg_rng 1 2 3))
  <> Ok (image_2x2, mask_2x2).
Proof.
  vm_compute. discriminate.
Qed.

(** ** random.shuffle returns a permutation *)

Lemma list_set_cons {A} (x : A) (l : list A) (i : nat) (v : A) :
  list_set (x :: l) (S i) v = x :: list_set l i v.
Proof. reflexivity. Qed.

Lemma nth_error_list_set {A} (l : list A) (i : nat) (v : A) (n : nat) :
  nth_error (list_set l i v) n
  = if (n =? i)%nat
    then match nth_error l i with Some _ => Some v | None => None end
    else nth_error l n.
Proof.
  revert i n. induction l as [| x l IH]; intros i n.
  - unfold list_set. rewrite firstn_nil, skipn_nil. cbn.
    destruct n, i; cbn; try reflexivity. now destruct (n =? i)%nat.
  - destruct i as [| i].
    + destruct n; reflexivity.
    + rewrite list_set_cons. destruct n as [| n]; [reflexivity |].
      cbn [nth_error Nat.eqb]. apply IH.
Qed.

Lemma list_set_length {A} (l : list A) (i : nat) (v : A) :
  length (list_set l i v) = length l.
Proof.
  revert i. induction l as [| x l IH]; intros i.
  - unfold list_set. now rewrite firstn_nil, skipn_nil.
  - destruct i as [| i]; [reflexivity |].
    rewrite list_set_cons. cbn. now rewrite IH.
Qed.

Lemma swap_Permutation {A} (l : list A) (i j : nat) :
  Permutation l (swap l i j).
Proof.
  unfold swap.
  destruct (nth_error l i) as [a |] eqn:Ei; [| apply Permutation_refl].
  destruct (nth_error l j) as [b |] eqn:Ej; [| apply Permutation_refl].
  apply Permutation_nth_error. split.
  - now rewrite !list_set_length.
  - exists (fun n => if (n =? j)%nat then i else if (n =? i)%nat then j else n).
    split.
    + intros x y.
      destruct (Nat.eqb_spec x j), (Nat.eqb_spec x i),
               (Nat.eqb_spec y j), (Nat.eqb_spec y i); lia.
    + intros n. rewrite !nth_error_list_set.
      destruct (Nat.eqb_spec n j) as [-> | Hnj].
      * destruct (Nat.eqb_spec j i) as [-> | Hji].
        -- now rewrite Ei.
        -- now rewrite Ej, Ei.
      * destruct (Nat.eqb_spec n i) as [-> | Hni]; [| reflexivity].
        now rewrite Ei, Ej.
Qed.

Section Shuffle.

Variable G : Generator.

Lemma shuffle_from_Permutation {A} (i : nat) (x : list A) (s : rng G) :
  exists x' s', shuffle_from i x s = Ok (x', s')
                /\ Permutation x x'
                /\ torch_rng s' = torch_rng s /\ np_rng s' = np_rng s.
Proof.
  revert x s. induction i as [| i IH]; intros x s.
  - exists x, s. repeat split. apply Permutation_refl.
  - cbn [shuffle_from]. unfold bind, py_randbelow.
    destruct (gen_next G (py_rng s)) as [r p].
    destruct (IH (swap x (S i) (Z.to_nat (Z.of_N r mod (Z.of_nat (S i) + 1))))
                 (set_py p s)) as (x' & s' & E & Hperm & Ht & Hn).
    exists x', s'. split; [exact E |]. split; [| now split].
    eapply Permutation_trans; [apply swap_Permutation | exact Hperm].
Qed.

Lemma random_shuffle_Permutation {A} (x : list A) (s : rng G) :
  exists x' s', random_shuffle x s = Ok (x', s')
                /\ Permutation x x'
                /\ torch_rng s' = torch_rng s /\ np_rng s' = np_rng s.
Proof. apply shuffle_from_Permutation. Qed.

End Shuffle.

(** ** Union mode *)

(** [np.maximum] of a float with an integer value, taken twice, does not
    depend on the order of the two integers. *)
Lemma maximum_right_comm (x : Q) (u v : N) :
  Qmax (Qmax x (inject_Z (Z.of_N u))) (inject_Z (Z.of_N v))
  = Qmax (Qmax x (inject_Z (Z.of_N v))) (inject_Z (Z.of_N u)).
Proof.
  assert (Hinj : forall a b : Z, (inject_Z a == inject_Z b)%Q -> a = b).
  { intros a b H. unfold Qeq in H. cbn in H. lia. }
  set (U := inject_Z (Z.of_N u)). set (V := inject_Z (Z.of_N v)).
  unfold Qmax, GenericMinMax.gmax.
  destruct (Qcompare_spec x U) as [E1 | E1 | E1];
    destruct (Qcompare_spec x V) as [E2 | E2 | E2];
    repeat match goal with
           | |- context [Qcompare ?a ?b] =>
               destruct (Qcompare_spec a b)
           end;
    try reflexivity;
    try (exfalso;
         repeat match goal with
                | H : (_ == _)%Q |- _ => revert H
                | H : (_ < _)%Q |- _ => revert H
                end;
         unfold U, V, Qeq, Qlt; cbn; intros; nia).
  all: unfold U, V in *; do 2 f_equal; apply N2Z.inj, Hinj; assumption.
Qed.

Lemma zip_with_right_comm {A B} (f : A -> B -> A) :
  (forall x u v, f (f x u) v = f (f x v) u) ->
  forall l a b,
    zip_with f (zip_with f l a) b = zip_with f (zip_with f l b) a.
Proof.
  intros Hf. induction l as [| x l IH]; intros a b; [reflexivity |].
  destruct a as [| u a], b as [| v b]; cbn; try reflexivity.
  now rewrite Hf, IH.
Qed.

Lemma maximum_values_right_comm (mask : plane) (m1 m2 : bitmap) :
  maximum_values (maximum_values mask m1) m2
  = maximum_values (maximum_values mask m2) m1.
Proof.
  unfold maximum_values. apply zip_with_right_comm.
  apply zip_with_right_comm. apply maximum_right_comm.
Qed.

Lemma forallb_Permutation {A} (f : A -> bool) (l l' : list A) :
  Permutation l l' -> forallb f l = forallb f l'.
Proof.
  induction 1 as [| x l l' _ IH | x y l | l l' l'' _ IH1 _ IH2]; cbn.
  - reflexivity.
  - now rewrite IH.
  - now destruct (f x), (f y).
  - congruence.
Qed.

Section UnionMode.

Variables Ann Img : Type.
Variable self : CocoImageIDWrapper Ann Img.

Lemma accumulate_Permutation (anns anns' : list Ann) :
  Permutation anns anns' ->
  forall mask, union_accumulate self anns mask = union_accumulate self anns' mask.
Proof.
  induction 1 as [| x l l' _ IH | x y l | l l' l'' _ IH1 _ IH2];
    intros mask; unfold union_accumulate in *; cbn.
  - reflexivity.
  - apply IH.
  - now rewrite maximum_values_right_comm.
  - now rewrite IH1, IH2.
Qed.

Lemma union_loop_shaped (h w : Z) (mask : plane) (anns : list Ann) :
  forallb (fun ann => bitmap_shapedb h w (decode self ann)) anns = true ->
  union_loop self h w mask anns = Ok (union_accumulate self anns mask).
Proof.
  revert mask. induction anns as [| ann anns IH]; intros mask H; cbn in *.
  - reflexivity.
  - apply andb_true_iff in H. destruct H as [Hann Hrest].
    unfold np_maximum. rewrite Hann. cbn. now apply IH.
Qed.

(** Union mode on an image with annotations: whatever the shuffle does,
    the result is the one-channel accumulation over the stored order. *)
Lemma load_mask_union (G : Generator) (id : Z) (s : rng G) :
  multi_w self = false ->
  loadAnns self id <> [] ->
  forallb (fun ann => bitmap_shapedb (img_height self id) (img_width self id)
                                     (decode self ann))
          (loadAnns self id) = true ->
  outcome (_load_mask self id s)
  = Ok (Some [union_accumulate self (loadAnns self id)
                         (zeros (img_height self id) (img_width self id))]).
Proof.
  intros Hmode Hne Hshape. unfold _load_mask.
  destruct (loadAnns self id) as [| ann0 anns0] eqn:Eanns; [congruence |].
  rewrite Hmode. cbn [negb].
  assert (Hshuffled :
            exists anns s1,
              (if random_nb_object self
               then random_shuffle (ann0 :: anns0) else ret (ann0 :: anns0)) s
              = Ok (anns, s1) /\ Permutation (ann0 :: anns0) anns).
  { destruct (random_nb_object self).
    - destruct (random_shuffle_Permutation G (ann0 :: anns0) s)
        as (x' & s' & E & Hp & _). eauto.
    - exists (ann0 :: anns0), s. split; [reflexivity | apply Permutation_refl]. }
  destruct Hshuffled as (anns & s1 & Eshuffle & Hperm).
  rewrite (bind_step G _ _ _ _ _ Eshuffle).
  rewrite (forallb_Permutation _ _ _ Hperm) in Hshape.
  unfold bind, lift. rewrite (union_loop_shaped _ _ _ _ Hshape).
  cbv beta iota. unfold ret, outcome.
  now rewrite (accumulate_Permutation _ _ Hperm).
Qed.

End UnionMode.

Lemma union_accumulate_ext {Ann Img} (self self' : CocoImageIDWrapper Ann Img)
    (anns : list Ann) (mask : plane) :
  (forall ann, decode self ann = decode self' ann) ->
  union_accumulate self anns mask = union_accumulate self' anns mask.
Proof.
  intros Hdec. unfold union_accumulate. revert mask.
  induction anns as [| ann anns IH]; intros mask; cbn; [reflexivity |].
  now rewrite Hdec, IH.
Qed.

(** C8: in union mode the materialized mask does not depend on the order
    of the annotation list: two datasets that store the same annotations of
    an image in different orders (and decode them alike, at the image's
    resolution) yield the identical one-channel mask, whatever the shuffle
    flag and the generator states. *)
Theorem union_mask_order_independent (G : Generator) (Ann Img : Type)
    (self self' : CocoImageIDWrapper Ann Img) (id : Z) (s s' : rng G) :
  multi_w self = false -> multi_w self' = false ->
  (forall ann, decode self ann = decode self' ann) ->
  img_height self id = img_height self' id ->
  img_width self id = img_width self' id ->
  Permutation (loadAnns self id) (loadAnns self' id) ->
  forallb (fun ann => bitmap_shapedb (img_height self id) (img_width self id)
                                     (decode self ann))
          (loadAnns self id) = true ->
  outcome (_load_mask self id s) = outcome (_load_mask self' id s')
  /\ (loadAnns self id <> [] ->
      exists mask, outcome (_load_mask self id s) = Ok (Some [mask])).
Proof.
  intros Hmode Hmode' Hdec Hh Hw Hperm Hshape.
  destruct (loadAnns self id) as [| ann0 anns0] eqn:Eanns.
  - apply Permutation_nil in Hperm.
    split; [| congruence].
    unfold _load_mask. now rewrite Eanns, Hperm.
  - assert (Hne : loadAnns self id <> []) by (rewrite Eanns; discriminate).
    assert (Hne' : loadAnns self' id <> []).
    { intros E. rewrite E in Hperm. apply Permutation_sym, Permutation_nil in Hperm.
      discriminate. }
    assert (Hshape' :
              forallb (fun ann => bitmap_shapedb (img_height self' id)
                                                 (img_width self' id)
                                                 (decode self' ann))
                      (loadAnns self' id) = true).
    { rewrite <- (forallb_Permutation _ _ _ Hperm), <- Hh, <- Hw, <- Hshape.
      clear - Hdec. generalize (ann0 :: anns0). intros l.
      induction l as [| ann anns IH]; cbn; [reflexivity |].
      now rewrite Hdec, IH. }
    rewrite <- Eanns in *.
    rewrite (load_mask_union Ann Img self G id s Hmode Hne Hshape).
    rewrite (load_mask_union Ann Img self' G id s' Hmode' Hne' Hshape').
    split; [| eauto].
    rewrite <- Hh, <- Hw.
    rewrite (accumulate_Permutation Ann Img self _ _ Hperm).
    now rewrite (union_accumulate_ext self self').
Qed.

Lemma union_mask_order_independent_witness :
  outcome (_load_mask (coco_example [bitmap_a; bitmap_b; bitmap_c]
                                    true false true 3) 10 (lcg_rng 1 2 3))
  = outcome (_load_mask (coco_example [bitmap_c; bitmap_a; bitmap_b]
                                      false false true 3) 10 (lcg_rng 4 5 6))
  /\ exists mask,
       outcome (_load_mask (coco_example [bitmap_a; bitmap_b; bitmap_c]
                                         true false true 3) 10 (lcg_rng 1 2 3))
       = Ok (Some [mask]).
Proof.
  destruct (union_mask_order_independent lcg bitmap unit
              (coco_example [bitmap_a; bitmap_b; bitmap_c] true false true 3)
              (coco_example [bitmap_c; bitmap_a; bitmap_b] false false true 3)
              10 (lcg_rng 1 2 3) (lcg_rng 4 5 6)) as [Hsame Hone];
    try reflexivity.
  - cbn. apply Permutation_sym.
    apply (Permutation_cons_app [bitmap_a; bitmap_b] []).
    apply Permutation_refl.
  - split; [exact Hsame |]. apply Hone. cbn. discriminate.
Defined.

(** ** Multi-mask mode *)

Lemma py_slice_prefix {A} (l : list A) (k : Z) :
  0 <= k -> py_slice l 0 k = firstn (Z.to_nat k) l.
Proof.
  intros Hk. unfold py_slice. rewrite (py_index_norm_inside _ 0) by lia.
  unfold py_index_norm. destruct (Z.ltb_spec k 0); [lia |].
  cbn [Z.to_nat skipn]. rewrite Z.sub_0_r.
  destruct (Z.min_spec k (Z.of_nat (length l))) as [[Hlt ->] | [Hge ->]];
    [reflexivity |].
  rewrite Nat2Z.id, firstn_all. symmetry. apply firstn_all2. lia.
Qed.

Lemma to_float_shaped (h w : Z) (m : bitmap) :
  bitmap_shapedb h w m = true -> plane_shapedb h w (to_float m) = true.
Proof.
  unfold bitmap_shapedb, plane_shapedb, to_float, height.
  rewrite !andb_true_iff, length_map. intros [Hh Hrows]. split; [exact Hh |].
  rewrite forallb_forall in *. intros row Hrow.
  apply in_map_iff in Hrow. destruct Hrow as (r & <- & Hr).
  rewrite length_map. now apply Hrows.
Qed.



Lemma forallb_firstn {A} (f : A -> bool) (n : nat) (l : list A) :
  forallb f l = true -> forallb f (firstn n l) = true.
Proof.
  revert n. induction l as [| a l IH]; intros [| n] H; cbn in *; trivial.
  apply andb_true_iff in H. destruct H as [Ha Hl]. now rewrite Ha, IH.
Qed.

(** Arrays of one declared shape pass the test [np.stack] makes against
    the first of them. *)
Lemma np_stack_shaped (h w : Z) (masks : list bitmap) :
  masks <> [] ->
  forallb (bitmap_shapedb h w) masks = true ->
  np_stack masks = Ok masks.
Proof.
  intros Hne Hall. unfold np_stack.
  destruct masks as [| m masks]; [congruence |].
  assert (Hm : bitmap_shapedb h w m = true)
    by (cbn in Hall; now apply andb_true_iff in Hall).
  unfold bitmap_shapedb in Hm. apply andb_true_iff in Hm.
  destruct Hm as [Hh Hrows]. apply Z.eqb_eq in Hh.
  enough (E : forallb (bitmap_shapedb (Z.of_nat (length m))
                                      (Z.of_nat (length (hd [] m))))
                      (m :: masks) = true) by now rewrite E.
  rewrite Hh. destruct m as [| row m].
  - (* height 0: every array is empty, whatever the width *)
    cbn in Hh. subst h. rewrite forallb_forall in *.
    intros x Hx. specialize (Hall x Hx).
    unfold bitmap_shapedb in *. apply andb_true_iff in Hall.
    destruct Hall as [Hx0 _]. apply Z.eqb_eq in Hx0.
    destruct x; [reflexivity | cbn in Hx0; lia].
  - cbn [hd]. cbn in Hrows. apply andb_true_iff in Hrows.
    destruct Hrows as [Hrow _]. apply Z.eqb_eq in Hrow. now rewrite Hrow.
Qed.



(** Two annotations, [max_nb_masks = 3], evaluation mode, no shuffle: the
    two decoded masks followed by one all-zero channel. *)
Example load_mask_multi_scenario :
  outcome (_load_mask (coco_example [bitmap_a; bitmap_b] false true false 3)
                      10 (lcg_rng 1 2 3))
  = Ok (Some [to_float bitmap_a; to_float bitmap_b; zeros 2 2]).
Proof. vm_compute. reflexivity. Qed.

(** ** custom_collate *)

Lemma max_channels_ge (masks : list tensor3) (mask : tensor3) :
  In mask masks -> Z.of_nat (length mask) <= max_channels masks.
Proof.
  unfold max_channels. induction masks as [| m masks IH]; intros Hin.
  - destruct Hin.
  - cbn. destruct Hin as [-> | Hin]; [lia |]. specialize (IH Hin). lia.
Qed.

Lemma max_channels_const (masks : list tensor3) (c : Z) :
  masks <> [] -> 0 <= c ->
  Forall (fun mask => Z.of_nat (length mask) = c) masks ->
  max_channels masks = c.
Proof.
  unfold max_channels. intros Hne Hc Hall. revert Hne.
  induction Hall as [| m masks Hm Hall IH]; intros Hne;
    [exfalso; now apply Hne |].
  cbn. destruct masks as [| m' masks'].
  - cbn. lia.
  - rewrite IH by discriminate. lia.
Qed.

Lemma torch_stack_Ok (tensors : list tensor3) (out : tensor4) :
  torch_stack tensors = Ok out ->
  out = tensors
  /\ Forall (fun t => Z.of_nat (length t)
                      = Z.of_nat (length (hd [] tensors))) tensors.
Proof.
  unfold torch_stack. destruct tensors as [| t0 ts]; [discriminate |].
  destruct (forallb (shape3_eqb t0) (t0 :: ts)) eqn:E; [| discriminate].
  intros H. inversion H; subst. split; [reflexivity |].
  apply Forall_forall. intros t Ht.
  rewrite forallb_forall in E. specialize (E t Ht).
  unfold shape3_eqb, shape3 in E.
  apply andb_true_iff in E. destruct E as [E _].
  apply andb_true_iff in E. destruct E as [E _].
  apply Z.eqb_eq in E. cbn [hd]. lia.
Qed.

Lemma padded_to_full (max_masks : Z) (mask : tensor3) :
  max_masks <= Z.of_nat (length mask) -> padded_to max_masks mask = mask.
Proof.
  intros H. unfold padded_to.
  replace (Z.to_nat (max_masks - Z.of_nat (length mask))) with 0%nat by lia.
  apply app_nil_r.
Qed.

Lemma padded_to_length (max_masks : Z) (mask : tensor3) :
  Z.of_nat (length mask) <= max_masks ->
  Z.of_nat (length (padded_to max_masks mask)) = max_masks.
Proof.
  intros H. unfold padded_to. rewrite length_app, repeat_length. lia.
Qed.

(** The padding loop, when no [torch.max] raises, maps every mask to its
    padded form. *)
Lemma pad_masks_Ok (max_masks : Z) (masks padded : list tensor3) :
  pad_masks max_masks masks = Ok padded ->
  padded = map (padded_to max_masks) masks.
Proof.
  revert padded. induction masks as [| mask masks IH]; intros padded E; cbn in E.
  - now inversion E.
  - unfold rbind in E.
    destruct (torch_max_dim0 mask) as [union_mask |]; [| discriminate].
    destruct (pad_masks max_masks masks) as [rest |]; [| discriminate].
    inversion E; subst. cbn. rewrite (IH rest eq_refl). f_equal.
    unfold F_pad_channels, shape3, padded_to.
    destruct (Z.gtb_spec (max_masks - Z.of_nat (length mask)) 0) as [Hpos | Hle];
      [reflexivity |].
    replace (Z.to_nat (max_masks - Z.of_nat (length mask))) with 0%nat by lia.
    now rewrite app_nil_r.
Qed.

Lemma pad_masks_total (max_masks : Z) (masks : list tensor3) :
  Forall (fun mask => 1 <= Z.of_nat (length mask)) masks ->
  exists padded, pad_masks max_masks masks = Ok padded.
Proof.
  induction 1 as [| mask masks Hm _ [rest IH]]; cbn.
  - eauto.
  - destruct mask as [| p ps]; [cbn in Hm; lia |].
    cbn. rewrite IH. cbn. eauto.
Qed.

Lemma ready_mask_shape (h : Z) (p0 : plane) (mask : tensor3) :
  plane_shapedb h (width p0) p0 = true ->
  1 <= Z.of_nat (length mask) ->
  forallb (plane_shapedb h (width p0)) mask = true ->
  height (hd [] mask) = h /\ width (hd [] mask) = width p0.
Proof.
  intros Hp0 Hlen Hall.
  destruct mask as [| p ps]; [cbn in Hlen; lia |].
  cbn in Hall. apply andb_true_iff in Hall. destruct Hall as [Hp _]. cbn [hd].
  apply plane_shapedb_iff in Hp. apply plane_shapedb_iff in Hp0.
  destruct Hp as [Hh Hrows]. destruct Hp0 as [Hh0 _]. split; [exact Hh |].
  destruct p as [| r p].
  - unfold height in *. cbn in Hh. destruct p0; [reflexivity | cbn in Hh0; lia].
  - apply Forall_inv in Hrows. unfold width at 1. cbn [hd]. exact Hrows.
Qed.

Lemma forallb_map {A B} (f : B -> bool) (g : A -> B) (l : list A) :
  forallb f (map g l) = forallb (fun a => f (g a)) l.
Proof. induction l as [| a l IH]; cbn; [reflexivity | now rewrite IH]. Qed.

Lemma torch_stack_intro (tensors : list tensor3) :
  tensors <> [] ->
  forallb (shape3_eqb (hd [] tensors)) tensors = true ->
  torch_stack tensors = Ok tensors.
Proof.
  intros Hne H. unfold torch_stack.
  destruct tensors as [| t0 ts]; [now destruct Hne |].
  cbn [hd] in H. now rewrite H.
Qed.

(** C4: for a non-empty list of surviving samples, whenever the collator
    returns, every mask of the batch has [max(per-sample channel counts)]
    channels; the batch is the list of input masks themselves when that
    maximum is 1; otherwise every mask is its input followed by all-zero
    channels up to the maximum, and a mask that already has the maximum is
    passed through unchanged.  The collator does return on samples whose
    images share one shape and whose masks have at least one channel and
    share height and width. *)
Theorem custom_collate_padding (batch : list (option (tensor3 * tensor3))) :
  let samples := drop_none batch in
  let masks_in := map snd samples in
  let max_masks := max_channels masks_in in
  samples <> [] ->
  (collate_ready samples = true ->
   exists images masks, custom_collate batch = Ok (images, masks))
  /\ (forall images masks,
         custom_collate batch = Ok (images, masks) ->
         images = map fst samples
         /\ Forall (fun mask => Z.of_nat (length mask) = max_masks) masks
         /\ (max_masks = 1 -> masks = masks_in)
         /\ masks = map (padded_to max_masks) masks_in
         /\ Forall (fun mask => Z.of_nat (length mask) = max_masks ->
                                padded_to max_masks mask = mask) masks_in).
Proof.
  cbv zeta. intros Hne. unfold custom_collate.
  destruct (drop_none batch) as [| [image0 mask0] rest]; [congruence |].
  clear Hne.
  set (samples := (image0, mask0) :: rest) in *.
  set (masks_in := map snd samples) in *.
  set (max_masks := max_channels masks_in) in *.
  assert (Hge : forall mask, In mask masks_in ->
                             Z.of_nat (length mask) <= max_masks)
    by (intros mask; apply max_channels_ge).
  split.
  - (* the collator returns *)
    intros Hready. unfold collate_ready in Hready.
    change (match samples with
            | [] => false
            | (image0, mask0) :: _ => _
            end)
      with (forallb (fun sample => shape3_eqb image0 (fst sample)) samples
            && forallb (fun sample =>
                          (1 <=? Z.of_nat (length (snd sample)))
                          && forallb (plane_shapedb (height (hd [] mask0))
                                                    (width (hd [] mask0)))
                                     (snd sample))
                       samples) in Hready.
    apply andb_true_iff in Hready. destruct Hready as [Himages Hmasks].
    set (h := height (hd [] mask0)) in *. set (p0 := hd [] mask0) in *.
    rewrite forallb_forall in Hmasks.
    assert (Hmask : forall sample, In sample samples ->
                      1 <= Z.of_nat (length (snd sample))
                      /\ forallb (plane_shapedb h (width p0)) (snd sample) = true).
    { intros sample Hin. specialize (Hmasks sample Hin).
      apply andb_true_iff in Hmasks. destruct Hmasks as [H1 H2].
      apply Z.leb_le in H1. now split. }
    assert (Hin0 : In (image0, mask0) samples) by now left.
    destruct (Hmask _ Hin0) as [Hlen0 Hall0]. cbn [snd] in Hlen0, Hall0.
    assert (Hp0 : plane_shapedb h (width p0) p0 = true).
    { subst p0. destruct mask0 as [| p ps]; [cbn in Hlen0; lia |].
      cbn in Hall0. now apply andb_true_iff in Hall0. }
    assert (Hshape : forall sample, In sample samples ->
                       height (hd [] (snd sample)) = h
                       /\ width (hd [] (snd sample)) = width p0).
    { intros sample Hin. destruct (Hmask sample Hin) as [H1 H2].
      now apply ready_mask_shape. }
    destruct (Hshape _ Hin0) as [H4 H5]. cbn [snd] in H4, H5.
    assert (Hle0 : Z.of_nat (length mask0) <= max_masks)
      by (apply (Hge mask0), (in_map snd _ _ Hin0)).
    assert (Eimages : torch_stack (map fst samples) = Ok (map fst samples)).
    { apply torch_stack_intro; [discriminate |].
      change (hd [] (map fst samples)) with image0.
      now rewrite forallb_map. }
    rewrite Eimages. cbn [rbind].
    destruct (Z.eqb_spec max_masks 1) as [Hone | Hmany].
    + assert (Estack : torch_stack masks_in = Ok masks_in).
      { apply torch_stack_intro; [discriminate |].
        change (hd [] masks_in) with mask0. unfold masks_in.
        rewrite forallb_map.
        apply forallb_forall. intros sample Hin.
        destruct (Hmask sample Hin) as [H1 _].
        destruct (Hshape sample Hin) as [H2 H3].
        assert (Hle : Z.of_nat (length (snd sample)) <= max_masks)
          by (apply Hge, in_map, Hin).
        unfold shape3_eqb, shape3.
        rewrite H2, H3, H4, H5, !Z.eqb_refl, !andb_true_r.
        apply Z.eqb_eq. lia. }
      rewrite Estack. cbn. eauto.
    + assert (Hnonempty : Forall (fun mask => 1 <= Z.of_nat (length mask)) masks_in).
      { apply Forall_forall. intros mask Hin. apply in_map_iff in Hin.
        destruct Hin as (sample & <- & Hin). now apply Hmask. }
      destruct (pad_masks_total max_masks masks_in Hnonempty) as [padded Epad].
      rewrite Epad. cbn [rbind].
      rewrite (pad_masks_Ok _ _ _ Epad).
      assert (Hhd : forall m : tensor3,
                 1 <= Z.of_nat (length m) ->
                 hd [] (padded_to max_masks m) = hd [] m).
      { intros m Hm. destruct m; [cbn in Hm; lia | reflexivity]. }
      assert (Estack : torch_stack (map (padded_to max_masks) masks_in)
                       = Ok (map (padded_to max_masks) masks_in)).
      { apply torch_stack_intro; [discriminate |].
        change (hd [] (map (padded_to max_masks) masks_in))
          with (padded_to max_masks mask0).
        unfold masks_in. rewrite !forallb_map.
        apply forallb_forall. intros sample Hin.
        destruct (Hmask sample Hin) as [H1 _].
        destruct (Hshape sample Hin) as [H2 H3].
        assert (Hle : Z.of_nat (length (snd sample)) <= max_masks)
          by (apply Hge, in_map, Hin).
        unfold shape3_eqb, shape3.
        rewrite !Hhd, !padded_to_length, H2, H3, H4, H5 by trivial.
        now rewrite !Z.eqb_refl. }
      rewrite Estack. cbn. eauto.
  - (* what it returns *)
    intros images masks E. unfold rbind in E.
    destruct (torch_stack (map fst samples)) as [images' |] eqn:Eimages;
      [| discriminate].
    apply torch_stack_Ok in Eimages. destruct Eimages as [-> _].
    assert (Hfull : Forall (fun mask => Z.of_nat (length mask) = max_masks ->
                                        padded_to max_masks mask = mask) masks_in).
    { apply Forall_forall. intros mask _ Hlen. apply padded_to_full. lia. }
    destruct (Z.eqb_spec max_masks 1) as [Hone | Hmany].
    + destruct (torch_stack masks_in) as [masks' |] eqn:Estack; [| discriminate].
      inversion E; subst images masks; clear E.
      apply torch_stack_Ok in Estack. destruct Estack as [-> Hlens].
      assert (Hconst : Forall (fun mask => Z.of_nat (length mask) = max_masks)
                              masks_in).
      { assert (Hmax : max_channels masks_in
                       = Z.of_nat (length (hd [] masks_in))).
        { apply max_channels_const; [discriminate | lia | exact Hlens]. }
        fold max_masks in Hmax. eapply Forall_impl; [| exact Hlens].
        intros mask Hm. cbn beta in Hm. lia. }
      repeat split; trivial.
      rewrite <- (map_id masks_in) at 1. apply map_ext_Forall.
      eapply Forall_impl; [| exact Hconst].
      intros mask Hm. cbn beta in *. symmetry. apply padded_to_full. lia.
    + destruct (pad_masks max_masks masks_in) as [padded |] eqn:Epad;
        [| discriminate].
      apply pad_masks_Ok in Epad. subst padded.
      destruct (torch_stack (map (padded_to max_masks) masks_in))
        as [masks' |] eqn:Estack; [| discriminate].
      inversion E; subst images masks; clear E.
      apply torch_stack_Ok in Estack. destruct Estack as [-> _].
      repeat split; trivial; try lia.
      apply Forall_map, Forall_forall. intros mask Hin.
      apply padded_to_length. now apply Hge.
Qed.

Lemma custom_collate_padding_witness :
  let batch := [Some sample_one_mask; None; Some sample_two_masks] in
  custom_collate batch
  = Ok ([sample_image; sample_image],
        [[to_float bitmap_a; zeros 2 2]; [to_float bitmap_a; to_float bitmap_b]])
  /\ max_channels (map snd (drop_none batch)) = 2
  /\ padded_to 2 (snd sample_two_masks) = snd sample_two_masks.
Proof.
  cbv zeta.
  destruct (custom_collate_padding
              [Some sample_one_mask; None; Some sample_two_masks])
    as [Hreturns Hpadded]; [cbn; discriminate |].
  destruct (Hreturns eq_refl) as (images & masks & E).
  destruct (Hpadded images masks E) as (Himages & Hcount & _ & Hmasks & Hfull).
  rewrite E, Himages, Hmasks.
  split; [reflexivity |]. split; [reflexivity |].
  apply Forall_inv_tail, Forall_inv in Hfull. now apply Hfull.
Defined.

(** ** Skips *)

(** Sentinels play no part in collation. *)
Lemma custom_collate_drop_none (batch : list (option (tensor3 * tensor3))) :
  custom_collate batch = custom_collate (map Some (drop_none batch)).
Proof.
  unfold custom_collate.
  replace (drop_none (map Some (drop_none batch))) with (drop_none batch);
    [reflexivity |].
  induction (drop_none batch) as [| item items IH]; cbn; [reflexivity |].
  now rewrite <- IH.
Qed.

Lemma drop_none_all_none {A} (batch : list (option A)) :
  Forall (fun item => item = None) batch -> drop_none batch = [].
Proof.
  induction 1 as [| item batch Hitem _ IH]; cbn; [reflexivity |].
  now rewrite Hitem.
Qed.

(** C5: an image without annotations makes [_load_mask], hence
    [__getitem__], return the skip sentinel [None] (drawing nothing);
    sentinels are dropped by the collator, whose result is that of the
    batch without them and whose images are exactly those of the surviving
    samples; a batch of sentinels only collates to the explicit empty batch
    instead of raising. *)
Theorem skip_propagation (G : Generator) (Ann Img : Type)
    (self : CocoImageIDWrapper Ann Img) (index id : Z) (s : rng G)
    (batch : list (option (tensor3 * tensor3))) :
  (py_getitem (ids self) index = Ok id -> loadAnns self id = [] ->
   _load_mask self id s = Ok (None, s) /\ getitem self index s = Ok (None, s))
  /\ custom_collate batch = custom_collate (map Some (drop_none batch))
  /\ (forall images masks,
         custom_collate batch = Ok (images, masks) ->
         images = map fst (drop_none batch)
         /\ length masks = length (drop_none batch))
  /\ (Forall (fun item => item = None) batch ->
      custom_collate batch = Ok ([], [])).
Proof.
  repeat apply conj.
  - intros Hid Hanns.
    assert (Hmask : _load_mask self id s = Ok (None, s)).
    { unfold _load_mask. now rewrite Hanns. }
    split; [exact Hmask |].
    unfold getitem. rewrite (bind_lift_Ok G _ _ _ _ Hid).
    now rewrite (bind_step G _ _ _ _ _ Hmask).
  - apply custom_collate_drop_none.
  - intros images masks E. unfold custom_collate in E.
    destruct (drop_none batch) as [| sample samples].
    { inversion E. now split. }
    set (survivors := sample :: samples) in *. unfold rbind in E.
    destruct (torch_stack (map fst survivors)) as [images' |] eqn:Eimages;
      [| discriminate].
    apply torch_stack_Ok in Eimages. destruct Eimages as [-> _].
    destruct (max_channels (map snd survivors) =? 1).
    + destruct (torch_stack (map snd survivors)) as [masks' |] eqn:Estack;
        [| discriminate].
      apply torch_stack_Ok in Estack. destruct Estack as [-> _].
      inversion E. split; [reflexivity |].
      change (length (map snd survivors) = length survivors). apply length_map.
    + destruct (pad_masks _ (map snd survivors)) as [padded |] eqn:Epad;
        [| discriminate].
      apply pad_masks_Ok in Epad. subst padded.
      destruct (torch_stack _) as [masks' |] eqn:Estack; [| discriminate].
      apply torch_stack_Ok in Estack. destruct Estack as [-> _].
      inversion E. split; [reflexivity |].
      change (length (map (padded_to (max_channels (map snd survivors)))
                          (map snd survivors)) = length survivors).
      now rewrite !length_map.
  - intros Hall. unfold custom_collate.
    now rewrite (drop_none_all_none batch Hall).
Qed.

Lemma skip_propagation_witness :
  let self := coco_example [bitmap_a; bitmap_b] true false true 3 in
  (_load_mask self 11 (lcg_rng 1 2 3) = Ok (None, lcg_rng 1 2 3)
   /\ getitem self 1 (lcg_rng 1 2 3) = Ok (None, lcg_rng 1 2 3))
  /\ custom_collate [None; Some sample_one_mask; None]
     = Ok ([sample_image], [snd sample_one_mask])
  /\ custom_collate [None; None] = Ok ([], []).
Proof.
  cbv zeta.
  destruct (skip_propagation lcg bitmap unit
              (coco_example [bitmap_a; bitmap_b] true false true 3)
              1 11 (lcg_rng 1 2 3) [None; Some sample_one_mask; None])
    as (Hskip & Hdrop & _ & _).
  destruct (skip_propagation lcg bitmap unit
              (coco_example [bitmap_a; bitmap_b] true false true 3)
              1 11 (lcg_rng 1 2 3) [None; None])
    as (_ & _ & _ & Hempty).
  split; [apply Hskip; reflexivity |].
  split; [rewrite Hdrop; reflexivity |].
  apply Hempty. repeat constructor.
Defined.

(** * Further properties of the operators *)

(** ** HorizontalFlip *)

Lemma F_hflip_involutive (t : tensor4) : F_hflip (F_hflip t) = t.
Proof.
  unfold F_hflip, map4. rewrite map_map.
  rewrite <- (map_id t) at 2. apply map_ext. intros u.
  rewrite map_map. rewrite <- (map_id u) at 2. apply map_ext. intros p.
  rewrite map_map. rewrite <- (map_id p) at 2. apply map_ext. intros row.
  apply rev_involutive.
Qed.

Lemma F_hflip_shaped (b c h w : Z) (t : tensor4) :
  tensor4_shaped b c h w t -> tensor4_shaped b c h w (F_hflip t).
Proof.
  apply map4_shaped. intros p [Hh Hrows]. unfold plane_shaped, height in *.
  split; [now rewrite length_map |].
  apply Forall_map. eapply Forall_impl; [| exact Hrows].
  intros row Hrow. cbn beta in *. now rewrite length_rev.
Qed.

Lemma nth_map_default {A B} (f : A -> B) (l : list A) (i : nat) (d : A) (d' : B) :
  f d = d' -> nth i (map f l) d' = f (nth i l d).
Proof. intros <-. apply map_nth. Qed.

(** Column [x] of every row of a flipped tensor is column [w - 1 - x] of
    the input's row. *)
Lemma F_hflip_mirror (t : tensor4) (n k y x : nat) :
  (x < length (nth y (nth k (nth n t []) []) []))%nat ->
  nth x (nth y (nth k (nth n (F_hflip t) []) []) []) 0%Q
  = nth (length (nth y (nth k (nth n t []) []) []) - 1 - x)
        (nth y (nth k (nth n t []) []) []) 0%Q.
Proof.
  intros Hx. unfold F_hflip, map4, tensor4, tensor3, plane in *.
  rewrite (nth_map_default (map (map (@rev Q))) t n [] []) by reflexivity.
  rewrite (nth_map_default (map (@rev Q)) _ k [] []) by reflexivity.
  rewrite (nth_map_default (@rev Q) _ y [] []) by reflexivity.
  rewrite rev_nth by exact Hx. f_equal. lia.
Qed.

(** [HorizontalFlip.forward] always returns, draws nothing, and in the
    image and the mask it returns column [x] of every row is column
    [w - 1 - x] of the input's row; both keep their shapes, and flipping
    the result again gives back image and mask. *)
Theorem HorizontalFlip_forward_mirror (G : Generator) (image mask : tensor4)
    (s : rng G) :
  exists image' mask',
    HorizontalFlip_forward G image mask s = Ok ((image', mask'), s)
    /\ (forall n k y x,
           (x < length (nth y (nth k (nth n image []) []) []))%nat ->
           nth x (nth y (nth k (nth n image' []) []) []) 0%Q
           = nth (length (nth y (nth k (nth n image []) []) []) - 1 - x)
                 (nth y (nth k (nth n image []) []) []) 0%Q)
    /\ (forall n k y x,
           (x < length (nth y (nth k (nth n mask []) []) []))%nat ->
           nth x (nth y (nth k (nth n mask' []) []) []) 0%Q
           = nth (length (nth y (nth k (nth n mask []) []) []) - 1 - x)
                 (nth y (nth k (nth n mask []) []) []) 0%Q)
    /\ (forall b c h w,
           tensor4_shapedb b c h w image = true ->
           tensor4_shapedb b c h w image' = true)
    /\ (forall b c h w,
           tensor4_shapedb b c h w mask = true ->
           tensor4_shapedb b c h w mask' = true)
    /\ HorizontalFlip_forward G image' mask' s = Ok ((image, mask), s).
Proof.
  exists (F_hflip image), (F_hflip mask).
  repeat match goal with |- _ /\ _ => split end.
  - reflexivity.
  - intros n k y x Hx. now apply F_hflip_mirror.
  - intros n k y x Hx. now apply F_hflip_mirror.
  - intros b c h w H. apply tensor4_shapedb_iff.
    apply F_hflip_shaped. now apply tensor4_shapedb_iff.
  - intros b c h w H. apply tensor4_shapedb_iff.
    apply F_hflip_shaped. now apply tensor4_shapedb_iff.
  - unfold HorizontalFlip_forward, ret. now rewrite !F_hflip_involutive.
Qed.

Lemma HorizontalFlip_forward_mirror_witness :
  exists image' mask',
    HorizontalFlip_forward lcg image_2x2 mask_2x2 (lcg_rng 1 2 3)
    = Ok ((image', mask'), lcg_rng 1 2 3)
    /\ nth 0 (nth 0 (nth 0 (nth 0 image' []) []) []) 0%Q = 2%Q
    /\ nth 1 (nth 0 (nth 0 (nth 0 mask' []) []) []) 0%Q = 1%Q
    /\ tensor4_shapedb 1 1 2 2 image' = true
    /\ HorizontalFlip_forward lcg image' mask' (lcg_rng 1 2 3)
       = Ok ((image_2x2, mask_2x2), lcg_rng 1 2 3).
Proof.
  destruct (HorizontalFlip_forward_mirror lcg image_2x2 mask_2x2 (lcg_rng 1 2 3))
    as (image' & mask' & E & Himage & Hmask & Hshape & _ & Htwice).
  exists image', mask'.
  split; [exact E |].
  split; [rewrite (Himage 0%nat 0%nat 0%nat 0%nat); [reflexivity | cbn; lia] |].
  split; [rewrite (Hmask 0%nat 0%nat 0%nat 1%nat); [reflexivity | cbn; lia] |].
  split; [apply Hshape; reflexivity | exact Htwice].
Defined.

(** ** Rotate *)

Lemma round_half_even_integer (x : Q) (n : Z) :
  (x == inject_Z n)%Q -> round_half_even x = n.
Proof.
  intros Hx. unfold round_half_even.
  assert (Hf : Qfloor x = n) by (rewrite Hx; apply Qfloor_Z).
  rewrite Hf.
  assert (Hlt : (x - inject_Z n < 1 # 2)%Q).
  { rewrite Hx. setoid_replace (inject_Z n - inject_Z n)%Q with 0%Q by ring.
    reflexivity. }
  destruct (Qcompare_spec (x - inject_Z n) (1 # 2)) as [E | E | E].
  - rewrite E in Hlt. now apply Qlt_irrefl in Hlt.
  - reflexivity.
  - exfalso. apply (Qlt_irrefl (1 # 2)). eapply Qlt_trans; eassumption.
Qed.

Lemma map_nth_zrange {A} (l : list A) (d : A) :
  map (fun i => nth (Z.to_nat i) l d) (zrange (Z.of_nat (length l))) = l.
Proof.
  unfold zrange. rewrite Nat2Z.id, map_map.
  erewrite map_ext; [| intros i; rewrite Nat2Z.id; reflexivity].
  induction l as [| a l IH]; [reflexivity |].
  cbn [length seq map nth]. f_equal.
  rewrite <- seq_shift, map_map. exact IH.
Qed.

Lemma in_zrange (n i : Z) : In i (zrange n) -> 0 <= i < n.
Proof.
  unfold zrange. intros H. apply in_map_iff in H.
  destruct H as (k & <- & Hk). apply in_seq in Hk. lia.
Qed.

(** Nearest-neighbour sampling on a grid that sends every output pixel to
    itself copies the plane. *)
Lemma grid_sample_nearest_identity (grid : Z -> Z -> Q * Q) (h w : Z) (p : plane) :
  plane_shaped h w p ->
  (forall y x, 0 <= y < h -> 0 <= x < w ->
               (fst (grid y x) == inject_Z x)%Q /\ (snd (grid y x) == inject_Z y)%Q) ->
  grid_sample NEAREST grid p = p.
Proof.
  intros [Hh Hrows] Hgrid. unfold grid_sample.
  assert (Hrow : forall y, 0 <= y < h ->
             map (fun x => sample NEAREST p (grid y x)) (zrange (width p))
             = nth (Z.to_nat y) p []).
  { intros y Hy.
    assert (Hlen : Z.of_nat (length (nth (Z.to_nat y) p [])) = w).
    { rewrite Forall_forall in Hrows. apply Hrows, nth_In.
      unfold height in Hh. lia. }
    assert (Hwidth : width p = w).
    { unfold width. rewrite Forall_forall in Hrows. apply Hrows.
      destruct p; [unfold height in Hh; cbn in Hh; lia | now left]. }
    rewrite Hwidth, <- Hlen.
    rewrite <- (map_nth_zrange (nth (Z.to_nat y) p []) 0%Q) at 2.
    apply map_ext_in. intros x Hx. apply in_zrange in Hx.
    destruct (Hgrid y x Hy) as [Hsx Hsy]; [lia |].
    unfold sample. destruct (grid y x) as [sx sy]. cbn [fst snd] in *.
    rewrite (round_half_even_integer sx x Hsx), (round_half_even_integer sy y Hsy).
    unfold pixel_or_zero. rewrite Hwidth, Hh.
    replace ((0 <=? y) && (y <? h) && (0 <=? x) && (x <? w)) with true;
      [reflexivity |].
    symmetry. rewrite !andb_true_iff, !Z.leb_le, !Z.ltb_lt. lia. }
  unfold height in *.
  transitivity (map (fun i => nth (Z.to_nat i) p []) (zrange (Z.of_nat (length p))));
    [| apply map_nth_zrange].
  apply map_ext_in. intros y Hy. apply in_zrange in Hy. apply Hrow. lia.
Qed.

Lemma affine_grid_zero (K : Kernels) (h w y x : Z) :
  (cos_deg K 0 == 1)%Q -> (sin_deg K 0 == 0)%Q ->
  (fst (affine_grid K 0 h w y x) == inject_Z x)%Q
  /\ (snd (affine_grid K 0 h w y x) == inject_Z y)%Q.
Proof.
  intros Hc Hs. unfold affine_grid. change (- 0)%Q with 0%Q. cbn [fst snd].
  rewrite Hc, Hs. split; field.
Qed.

Lemma F_rotate_zero (K : Kernels) (b c h w : Z) (t : tensor4) :
  (cos_deg K 0 == 1)%Q -> (sin_deg K 0 == 0)%Q ->
  tensor4_shaped b c h w t -> F_rotate K NEAREST t 0 = t.
Proof.
  intros Hc Hs Ht. unfold F_rotate. eapply map4_id_shaped; [| exact Ht].
  intros p Hp. apply (grid_sample_nearest_identity _ h w); [exact Hp |].
  intros y x _ _. destruct Hp as [-> Hrows]. now apply affine_grid_zero.
Qed.

(** [Rotate] called with the explicit angle 0 returns image and mask
    unchanged (for kernels with cos 0 = 1 and sin 0 = 0, on rectangular
    tensors), without drawing anything. *)
Theorem Rotate_forward_angle_zero (G : Generator) (K : Kernels) (self : Rotate)
    (image mask : tensor4) (b c h w cm hm wm : Z) (s : rng G) :
  (cos_deg K 0 == 1)%Q -> (sin_deg K 0 == 0)%Q ->
  tensor4_shapedb b c h w image = true ->
  tensor4_shapedb b cm hm wm mask = true ->
  Rotate_forward G K self image mask (Some 0%Q) s = Ok ((image, mask), s).
Proof.
  intros Hc Hs Himg Hmask.
  apply tensor4_shapedb_iff in Himg. apply tensor4_shapedb_iff in Hmask.
  unfold Rotate_forward. cbn.
  now rewrite (F_rotate_zero K b c h w image), (F_rotate_zero K b cm hm wm mask).
Qed.

Lemma Rotate_forward_angle_zero_witness :
  Rotate_forward lcg reference_kernels rotate_default image_4x4 mask_4x4
    (Some 0%Q) (lcg_rng 1 2 3)
  = Ok ((image_4x4, mask_4x4), lcg_rng 1 2 3).
Proof.
  apply (Rotate_forward_angle_zero lcg reference_kernels rotate_default
           image_4x4 mask_4x4 1 1 4 4 1 4 4); reflexivity.
Defined.

Lemma grid_sample_shaped (mode : InterpolationMode) (grid : Z -> Z -> Q * Q)
    (h w : Z) (p : plane) :
  plane_shaped h w p -> 1 <= h -> plane_shaped h w (grid_sample mode grid p).
Proof.
  intros [Hh Hrows] Hh1. unfold grid_sample.
  assert (Hwidth : width p = w).
  { unfold width. rewrite Forall_forall in Hrows. apply Hrows.
    destruct p; [unfold height in Hh; cbn in Hh; lia | now left]. }
  rewrite Hh, Hwidth.
  apply (grid_of_shaped (fun y x => sample mode p (grid y x))).
  - lia.
  - rewrite <- Hwidth. unfold width. lia.
Qed.

Lemma F_rotate_shaped (K : Kernels) (mode : InterpolationMode) (b c h w : Z)
    (t : tensor4) (angle : Q) :
  tensor4_shaped b c h w t -> 1 <= h ->
  tensor4_shaped b c h w (F_rotate K mode t angle).
Proof.
  intros Ht Hh. unfold F_rotate. eapply map4_shaped; [| exact Ht].
  intros p Hp. now apply grid_sample_shaped.
Qed.

(** [Rotate] without an explicit angle, for bounds [min_angle] and
    [max_angle + 1] that are int64 values (others are refused by
    [torch.randint]): one integer angle of [min_angle, max_angle] (both ends
    included) is drawn and image and mask are rotated by that same angle; an
    empty range raises RuntimeError.  An unset bound raises ValueError.
    Rotation keeps the shape. *)
Theorem Rotate_forward_sampled (G : Generator) (K : Kernels) (self : Rotate)
    (image mask : tensor4) (s : rng G) :
  (forall lo hi,
      min_angle self = Some lo -> max_angle self = Some hi ->
      int64 lo = true -> int64 (hi + 1) = true -> lo <= hi ->
      exists a s',
        lo <= a <= hi
        /\ Rotate_forward G K self image mask None s
           = Ok ((F_rotate K NEAREST image (inject_Z a),
                  F_rotate K NEAREST mask (inject_Z a)), s'))
  /\ (forall lo hi,
         min_angle self = Some lo -> max_angle self = Some hi ->
         int64 lo = true -> int64 (hi + 1) = true -> hi < lo ->
         Rotate_forward G K self image mask None s = Err RuntimeError)
  /\ (min_angle self = None \/ max_angle self = None ->
      Rotate_forward G K self image mask None s = Err ValueError)
  /\ (forall angle b c h w,
         tensor4_shapedb b c h w image = true -> 1 <= h ->
         tensor4_shapedb b c h w (F_rotate K NEAREST image angle) = true).
Proof.
  repeat apply conj.
  - intros lo hi Hlo Hhi _ _ Hle. unfold Rotate_forward, Rotate_get_random_angle.
    rewrite Hlo, Hhi.
    destruct (torch_randint_total G lo (hi + 1) s) as (a & s' & E & _); [lia |].
    exists a, s'. split; [apply torch_randint_range in E; lia |].
    unfold bind. now rewrite E.
  - intros lo hi Hlo Hhi _ _ Hlt. unfold Rotate_forward, Rotate_get_random_angle.
    rewrite Hlo, Hhi. unfold bind.
    now rewrite (torch_randint_empty G lo (hi + 1) s) by lia.
  - intros Hnone. unfold Rotate_forward, Rotate_get_random_angle.
    destruct Hnone as [-> | ->]; [reflexivity |].
    now destruct (min_angle self).
  - intros angle b c h w Himg Hh. apply tensor4_shapedb_iff.
    apply F_rotate_shaped; [now apply tensor4_shapedb_iff | exact Hh].
Qed.

Lemma Rotate_forward_sampled_witness :
  (exists a s',
      -10 <= a <= 10
      /\ Rotate_forward lcg reference_kernels rotate_default image_2x2 mask_2x2
           None (lcg_rng 1 2 3)
         = Ok ((F_rotate reference_kernels NEAREST image_2x2 (inject_Z a),
                F_rotate reference_kernels NEAREST mask_2x2 (inject_Z a)), s'))
  /\ Rotate_forward lcg reference_kernels
       {| min_angle := Some 5; max_angle := Some 2 |} image_2x2 mask_2x2
       None (lcg_rng 1 2 3) = Err RuntimeError
  /\ Rotate_forward lcg reference_kernels
       {| min_angle := None; max_angle := Some 2 |} image_2x2 mask_2x2
       None (lcg_rng 1 2 3) = Err ValueError
  /\ tensor4_shapedb 1 1 2 2 (F_rotate reference_kernels NEAREST image_2x2 30)
     = true.
Proof.
  destruct (Rotate_forward_sampled lcg reference_kernels rotate_default
              image_2x2 mask_2x2 (lcg_rng 1 2 3)) as (Hdraw & _ & _ & Hshape).
  destruct (Rotate_forward_sampled lcg reference_kernels
              {| min_angle := Some 5; max_angle := Some 2 |}
              image_2x2 mask_2x2 (lcg_rng 1 2 3)) as (_ & Hempty & _ & _).
  destruct (Rotate_forward_sampled lcg reference_kernels
              {| min_angle := None; max_angle := Some 2 |}
              image_2x2 mask_2x2 (lcg_rng 1 2 3)) as (_ & _ & Hunset & _).
  split; [| split; [| split]].
  - apply (Hdraw (-10) 10); try reflexivity; lia.
  - apply (Hempty 5 2); try reflexivity; lia.
  - apply Hunset. now left.
  - apply (Hshape 30%Q 1 1 2 2); [reflexivity | lia].
Defined.

(** ** Crop and UpperLeftCrop *)

Lemma nth_py_slice {A} (l : list A) (a b : Z) (k : nat) (d : A) :
  0 <= a -> a <= b -> b <= Z.of_nat (length l) ->
  (k < Z.to_nat (b - a))%nat ->
  nth k (py_slice l a b) d = nth (Z.to_nat a + k) l d.
Proof.
  intros Ha Hab Hb Hk. unfold py_slice.
  rewrite !py_index_norm_inside by lia.
  rewrite nth_firstn, nth_skipn.
  destruct (Nat.ltb_spec k (Z.to_nat (b - a))); [reflexivity | lia].
Qed.

Lemma py_slice_nil {A} (a b : Z) : py_slice (@nil A) a b = [].
Proof. unfold py_slice. now rewrite skipn_nil, firstn_nil. Qed.

(** Entry (y, x) of a window at offset (i, j) is entry (i + y, j + x) of
    the plane. *)
Lemma nth_slice_plane (h w i n j m : Z) (p : plane) (y x : nat) :
  plane_shaped h w p ->
  0 <= i -> 0 <= n -> i + n <= h -> 0 <= j -> 0 <= m -> j + m <= w ->
  (y < Z.to_nat n)%nat -> (x < Z.to_nat m)%nat ->
  nth x (nth y (slice_plane p i (i + n) j (j + m)) []) 0%Q
  = nth (Z.to_nat j + x) (nth (Z.to_nat i + y) p []) 0%Q.
Proof.
  intros [Hh Hrows] Hi Hn Hin Hj Hm Hjm Hy Hx. unfold slice_plane, height in *.
  rewrite (nth_map_default (fun row => py_slice row j (j + m)) _ y [] [])
    by apply py_slice_nil.
  rewrite (nth_py_slice p i (i + n) y []) by lia.
  assert (Hlen : Z.of_nat (length (nth (Z.to_nat i + y) p [])) = w).
  { rewrite Forall_forall in Hrows. apply Hrows, nth_In. lia. }
  apply nth_py_slice; lia.
Qed.

Section CropWindow.

Variable G : Generator.

Lemma RandomCrop_get_params_Ok (h w th tw i j h' w' : Z) (s s' : rng G) :
  RandomCrop_get_params G h w (th, tw) s = Ok ((i, j, h', w'), s') ->
  h' = th /\ w' = tw /\ 0 <= i /\ i + th <= h /\ 0 <= j /\ j + tw <= w.
Proof.
  intros E.
  assert (Hle : th <= h /\ tw <= w).
  { unfold RandomCrop_get_params in E.
    destruct (Z.ltb_spec h th); [discriminate |].
    destruct (Z.ltb_spec w tw); [discriminate |]. lia. }
  destruct Hle as [Hh Hw].
  destruct (RandomCrop_get_params_inside G h w th tw s Hh Hw)
    as (i0 & j0 & s0 & E0 & Hb).
  rewrite E0 in E. inversion E; subst. lia.
Qed.

Lemma RandomCrop_get_params_too_large (h w th tw : Z) (s : rng G) :
  h < th \/ w < tw ->
  RandomCrop_get_params G h w (th, tw) s = Err ValueError.
Proof.
  intros H. unfold RandomCrop_get_params.
  replace ((h <? th) || (w <? tw)) with true; [reflexivity |].
  symmetry. apply orb_true_iff. rewrite !Z.ltb_lt. exact H.
Qed.

End CropWindow.

(** Entry (y, x) of a crop at a window inside the tensor is entry
    (top + y, left + x) of the tensor. *)
Lemma F_crop_entry (b c h w : Z) (t : tensor4) (i j th tw : Z)
    (n k y x : nat) :
  tensor4_shaped b c h w t ->
  0 <= i -> i + th <= h -> 0 <= j -> j + tw <= w ->
  (n < length t)%nat -> (k < Z.to_nat c)%nat ->
  (y < Z.to_nat th)%nat -> (x < Z.to_nat tw)%nat ->
  nth x (nth y (nth k (nth n (F_crop t i j th tw) []) []) []) 0%Q
  = nth (Z.to_nat j + x) (nth (Z.to_nat i + y) (nth k (nth n t []) []) []) 0%Q.
Proof.
  intros Ht Hi Hih Hj Hjw Hn Hk Hy Hx. unfold F_crop, map4.
  unfold tensor4, tensor3 in *.
  rewrite (nth_map_default
             (map (fun p => slice_plane p i (i + th) j (j + tw))) t n [] [])
    by reflexivity.
  rewrite (nth_map_default
             (fun p => slice_plane p i (i + th) j (j + tw)) _ k [] [])
    by (unfold slice_plane; now rewrite py_slice_nil).
  apply (nth_slice_plane h w); trivial; try lia.
  destruct Ht as [_ Ht]. rewrite Forall_forall in Ht.
  assert (H3 : tensor3_shaped c h w (nth n t [])) by (apply Ht, nth_In, Hn).
  destruct H3 as [Hlen Hplanes]. rewrite Forall_forall in Hplanes.
  apply Hplanes, nth_In. unfold plane in *. lia.
Qed.

(** [Crop], for a mask of the image's height and width (a window inside
    the image is then inside the mask, and [F.crop] pads nothing):
    whenever the call returns, with a sampled or an explicit size, image
    and mask are cut at one and the same window, which lies inside the
    image; entry (y, x) of the cropped image and mask is entry
    (i + y, j + x) of the input.  For an explicit size whose products with
    H and W binary64 computes to the integer part of the exact product
    ([float_int]), the window is [int(size * H)] x [int(size * W)], a size
    larger than the image raises ValueError, and the size 1 returns image
    and mask unchanged without drawing. *)
Theorem Crop_forward_window (G : Generator) (self : SizeRange)
    (image mask : tensor4) (b c h w bm cm : Z) (s : rng G) :
  tensor4_shapedb b c h w image = true -> 1 <= b -> 1 <= c -> 1 <= h ->
  tensor4_shapedb bm cm h w mask = true -> 1 <= bm -> 1 <= cm ->
  (forall size image' mask' s',
      Crop_forward G self image mask size s = Ok ((image', mask'), s') ->
      exists i j th tw,
        0 <= i /\ i + th <= h /\ 0 <= j /\ j + tw <= w
        /\ image' = F_crop image i j th tw
        /\ mask' = F_crop mask i j th tw
        /\ (forall sz, size = Some sz ->
                       float_int sz h = true -> float_int sz w = true ->
                       th = py_int (fmul sz h) /\ tw = py_int (fmul sz w))
        /\ (forall n k y x,
               (n < length image)%nat -> (k < Z.to_nat c)%nat ->
               (y < Z.to_nat th)%nat -> (x < Z.to_nat tw)%nat ->
               nth x (nth y (nth k (nth n image' []) []) []) 0%Q
               = nth (Z.to_nat j + x)
                     (nth (Z.to_nat i + y) (nth k (nth n image []) []) []) 0%Q)
        /\ (forall n k y x,
               (n < length mask)%nat -> (k < Z.to_nat cm)%nat ->
               (y < Z.to_nat th)%nat -> (x < Z.to_nat tw)%nat ->
               nth x (nth y (nth k (nth n mask' []) []) []) 0%Q
               = nth (Z.to_nat j + x)
                     (nth (Z.to_nat i + y) (nth k (nth n mask []) []) []) 0%Q))
  /\ (forall size,
         float_int size h = true -> float_int size w = true ->
         h < py_int (fmul size h) \/ w < py_int (fmul size w) ->
         Crop_forward G self image mask (Some size) s = Err ValueError)
  /\ (float_int 1 h = true -> float_int 1 w = true ->
      Crop_forward G self image mask (Some 1%Q) s = Ok ((image, mask), s)).
Proof.
  intros Himg Hb Hc Hh Hmask Hbm Hcm.
  apply tensor4_shapedb_iff in Himg. apply tensor4_shapedb_iff in Hmask.
  pose proof (shape4_nondegenerate b c h w image Himg Hb Hc Hh) as Hshape.
  repeat apply conj.
  - intros size image' mask' s' E. unfold Crop_forward in E.
    apply bind_Ok in E. destruct E as ([th tw] & s1 & Esize & E).
    rewrite Hshape in E.
    apply bind_Ok in E. destruct E as ([[[i j] h'] w'] & s2 & Ecrop & E).
    apply RandomCrop_get_params_Ok in Ecrop.
    destruct Ecrop as (-> & -> & Hi & Hih & Hj & Hjw).
    inversion E; subst image' mask' s'; clear E.
    exists i, j, th, tw.
    split; [exact Hi |]. split; [exact Hih |]. split; [exact Hj |].
    split; [exact Hjw |]. split; [reflexivity |]. split; [reflexivity |].
    split.
    { intros sz -> _ _. unfold output_size_of in Esize. rewrite Hshape in Esize.
      inversion Esize. now split. }
    split; intros n k y x Hn Hk Hy Hx.
    + now apply (F_crop_entry b c h w).
    + now apply (F_crop_entry bm cm h w).
  - intros size _ _ Hbig. unfold Crop_forward, output_size_of.
    rewrite Hshape. unfold bind at 1. cbn [ret].
    unfold bind. now rewrite RandomCrop_get_params_too_large.
  - intros _ _.
    unfold Crop_forward, output_size_of. rewrite Hshape.
    unfold bind at 1. cbn [ret]. rewrite !py_int_fmul_one.
    unfold RandomCrop_get_params.
    replace ((h <? h) || (w <? w)) with false
      by (symmetry; apply orb_false_iff; rewrite !Z.ltb_irrefl; auto).
    rewrite !Z.eqb_refl. cbn.
    unfold F_crop.
    rewrite (map4_id_shaped _ b c h w image), (map4_id_shaped _ bm cm h w mask);
      trivial; intros p; apply slice_plane_whole.
Qed.

Lemma Crop_forward_window_witness :
  exists image' mask' s' i j,
    Crop_forward lcg size_range_unset image_4x4 mask_4x4 (Some (1 # 2)%Q)
      (lcg_rng 1 2 3) = Ok ((image', mask'), s')
    /\ 0 <= i /\ i + 2 <= 4 /\ 0 <= j /\ j + 2 <= 4
    /\ image' = F_crop image_4x4 i j 2 2
    /\ mask' = F_crop mask_4x4 i j 2 2
    /\ Crop_forward lcg size_range_unset image_4x4 mask_4x4 (Some 2%Q)
         (lcg_rng 1 2 3) = Err ValueError
    /\ Crop_forward lcg size_range_unset image_4x4 mask_4x4 (Some 1%Q)
         (lcg_rng 1 2 3) = Ok ((image_4x4, mask_4x4), lcg_rng 1 2 3).
Proof.
  destruct (Crop_forward_window lcg size_range_unset image_4x4 mask_4x4
              1 1 4 4 1 1 (lcg_rng 1 2 3)) as (Hwindow & Hlarge & Hone);
    try reflexivity; try lia.
  destruct (Crop_forward lcg size_range_unset image_4x4 mask_4x4
              (Some (1 # 2)%Q) (lcg_rng 1 2 3)) as [[[image' mask'] s'] | e] eqn:E;
    [| vm_compute in E; discriminate E].
  destruct (Hwindow _ _ _ _ E) as (i & j & th & tw & Hi & Hih & Hj & Hjw
                                   & Himage & Hmask & Hsize & _).
  destruct (Hsize (1 # 2)%Q eq_refl) as [Hth Htw]; try side_condition.
  change (py_int (fmul (1 # 2) 4)) with 2 in Hth, Htw. subst th tw.
  exists image', mask', s', i, j.
  repeat apply conj;
    [ reflexivity | exact Hi | exact Hih | exact Hj | exact Hjw
    | exact Himage | exact Hmask
    | apply Hlarge; [side_condition | side_condition
                     | left; vm_compute; reflexivity]
    | apply Hone; side_condition ].
Defined.

(** [UpperLeftCrop], for a mask of the image's height and width: whenever
    the call returns, image and mask are cut at the window of the chosen
    size whose origin is (0, 0), whatever [RandomCrop.get_params] draws:
    entry (y, x) of the output is entry (y, x) of the input.  For an
    explicit size whose products with H and W binary64 computes to the
    integer part of the exact product ([float_int]), the window is
    [int(size * H)] x [int(size * W)] and a size larger than the image
    raises ValueError. *)
Theorem UpperLeftCrop_forward_corner (G : Generator) (self : SizeRange)
    (image mask : tensor4) (b c h w bm cm : Z) (s : rng G) :
  tensor4_shapedb b c h w image = true -> 1 <= b -> 1 <= c -> 1 <= h ->
  tensor4_shapedb bm cm h w mask = true -> 1 <= bm -> 1 <= cm ->
  (forall size image' mask' s',
      UpperLeftCrop_forward G self image mask size s = Ok ((image', mask'), s') ->
      exists th tw,
        th <= h /\ tw <= w
        /\ image' = F_crop image 0 0 th tw
        /\ mask' = F_crop mask 0 0 th tw
        /\ (forall sz, size = Some sz ->
                       float_int sz h = true -> float_int sz w = true ->
                       th = py_int (fmul sz h) /\ tw = py_int (fmul sz w))
        /\ (forall n k y x,
               (n < length image)%nat -> (k < Z.to_nat c)%nat ->
               (y < Z.to_nat th)%nat -> (x < Z.to_nat tw)%nat ->
               nth x (nth y (nth k (nth n image' []) []) []) 0%Q
               = nth x (nth y (nth k (nth n image []) []) []) 0%Q)
        /\ (forall n k y x,
               (n < length mask)%nat -> (k < Z.to_nat cm)%nat ->
               (y < Z.to_nat th)%nat -> (x < Z.to_nat tw)%nat ->
               nth x (nth y (nth k (nth n mask' []) []) []) 0%Q
               = nth x (nth y (nth k (nth n mask []) []) []) 0%Q))
  /\ (forall size,
         float_int size h = true -> float_int size w = true ->
         h < py_int (fmul size h) \/ w < py_int (fmul size w) ->
         UpperLeftCrop_forward G self image mask (Some size) s = Err ValueError).
Proof.
  intros Himg Hb Hc Hh Hmask Hbm Hcm.
  apply tensor4_shapedb_iff in Himg. apply tensor4_shapedb_iff in Hmask.
  pose proof (shape4_nondegenerate b c h w image Himg Hb Hc Hh) as Hshape.
  split.
  - intros size image' mask' s' E. unfold UpperLeftCrop_forward in E.
    apply bind_Ok in E. destruct E as ([th tw] & s1 & Esize & E).
    rewrite Hshape in E.
    apply bind_Ok in E. destruct E as ([[[i j] h'] w'] & s2 & Ecrop & E).
    apply RandomCrop_get_params_Ok in Ecrop.
    destruct Ecrop as (-> & -> & Hi & Hih & Hj & Hjw).
    inversion E; subst image' mask' s'; clear E.
    exists th, tw.
    split; [lia |]. split; [lia |]. split; [reflexivity |]. split; [reflexivity |].
    split.
    { intros sz -> _ _. unfold output_size_of in Esize. rewrite Hshape in Esize.
      inversion Esize. now split. }
    split; intros n k y x Hn Hk Hy Hx.
    + now apply (F_crop_entry b c h w _ 0 0 th tw); try lia.
    + now apply (F_crop_entry bm cm h w _ 0 0 th tw); try lia.
  - intros size _ _ Hbig. unfold UpperLeftCrop_forward, output_size_of.
    rewrite Hshape. unfold bind at 1. cbn [ret].
    unfold bind. now rewrite RandomCrop_get_params_too_large.
Qed.

Lemma UpperLeftCrop_forward_corner_witness :
  exists image' mask' s',
    UpperLeftCrop_forward lcg size_range_unset image_4x4 mask_4x4
      (Some (1 # 2)%Q) (lcg_rng 1 2 3) = Ok ((image', mask'), s')
    /\ image' = F_crop image_4x4 0 0 2 2
    /\ mask' = F_crop mask_4x4 0 0 2 2
    /\ UpperLeftCrop_forward lcg size_range_unset image_4x4 mask_4x4
         (Some 2%Q) (lcg_rng 1 2 3) = Err ValueError.
Proof.
  destruct (UpperLeftCrop_forward_corner lcg size_range_unset image_4x4 mask_4x4
              1 1 4 4 1 1 (lcg_rng 1 2 3)) as (Hcorner & Hlarge);
    try reflexivity; try lia.
  destruct (UpperLeftCrop_forward lcg size_range_unset image_4x4 mask_4x4
              (Some (1 # 2)%Q) (lcg_rng 1 2 3)) as [[[image' mask'] s'] | e] eqn:E;
    [| vm_compute in E; discriminate E].
  destruct (Hcorner _ _ _ _ E) as (th & tw & _ & _ & Himage & Hmask & Hsize & _).
  destruct (Hsize (1 # 2)%Q eq_refl) as [Hth Htw]; try side_condition.
  change (py_int (fmul (1 # 2) 4)) with 2 in Hth, Htw. subst th tw.
  exists image', mask', s'.
  repeat apply conj;
    [ reflexivity | exact Himage | exact Hmask
    | apply Hlarge; [side_condition | side_condition
                     | left; vm_compute; reflexivity] ].
Defined.

(** ** Resize *)

Lemma F_resize_nonpositive (K : Kernels) (mode : InterpolationMode) (aa : bool)
    (b c h w oh ow : Z) (t : tensor4) :
  tensor4_shaped b c h w t -> 1 <= b -> 1 <= c -> 1 <= h -> 1 <= w ->
  oh <= 0 \/ ow <= 0 ->
  F_resize K mode aa t (oh, ow) = Err RuntimeError.
Proof.
  intros Ht Hb Hc Hh Hw Hbad. unfold F_resize.
  rewrite (shape4_nondegenerate b c h w t Ht Hb Hc Hh).
  replace ((h =? oh) && (w =? ow)) with false
    by (symmetry; apply andb_false_iff; rewrite !Z.eqb_neq; lia).
  replace ((oh <=? 0) || (ow <=? 0) || (h <=? 0) || (w <=? 0)) with true;
    [reflexivity |].
  symmetry. rewrite !orb_true_iff, !Z.leb_le. tauto.
Qed.

Lemma F_resize_Ok_shaped (K : Kernels) (mode : InterpolationMode)
    (b c h w oh ow : Z) (t t' : tensor4) :
  tensor4_shaped b c h w t -> 1 <= b -> 1 <= c -> 1 <= h ->
  F_resize K mode false t (oh, ow) = Ok t' ->
  tensor4_shaped b c oh ow t'.
Proof.
  intros Ht Hb Hc Hh. unfold F_resize.
  rewrite (shape4_nondegenerate b c h w t Ht Hb Hc Hh).
  destruct (Z.eqb_spec h oh) as [-> | Hne]; cbn [andb].
  - destruct (Z.eqb_spec w ow) as [-> | Hne']; [intros E; inversion E; subst; exact Ht |].
    destruct (Z.leb_spec oh 0), (Z.leb_spec ow 0), (Z.leb_spec w 0);
      cbn [orb]; try discriminate.
    intros E. inversion E. eapply map4_shaped; [| exact Ht].
    intros p _. apply interpolate_shaped; lia.
  - destruct (Z.leb_spec oh 0), (Z.leb_spec ow 0), (Z.leb_spec h 0),
             (Z.leb_spec w 0); cbn [orb]; try discriminate.
    intros E. inversion E. eapply map4_shaped; [| exact Ht].
    intros p _. apply interpolate_shaped; lia.
Qed.

(** [Resize] with an explicit scale whose products with H and W binary64
    computes to the integer part of the exact product ([float_int]): the
    target size [int(size * H)] x [int(size * W)] is computed from the
    IMAGE's height and width and the mask is resized to that same size,
    whatever its own size was, keeping its labels and drawing nothing;
    scale 1 returns the image itself (and the mask itself when it has the
    image's height and width); a scale whose target size is not positive
    raises RuntimeError. *)
Theorem Resize_forward_explicit_size (G : Generator) (K : Kernels)
    (self : SizeRange) (image mask : tensor4) (b c h w bm cm hm wm : Z)
    (s : rng G) :
  tensor4_shapedb b c h w image = true ->
  1 <= b -> 1 <= c -> 1 <= h -> 1 <= w ->
  tensor4_shapedb bm cm hm wm mask = true ->
  1 <= bm -> 1 <= cm -> 1 <= hm ->
  (forall size image' mask' s',
      float_int size h = true -> float_int size w = true ->
      Resize_forward G K self image mask (Some size) s = Ok ((image', mask'), s') ->
      s' = s
      /\ tensor4_shapedb bm cm (py_int (fmul size h)) (py_int (fmul size w)) mask'
         = true
      /\ (tensor4_all is_label mask -> tensor4_all is_label mask'))
  /\ (hm = h -> wm = w ->
      float_int 1 h = true -> float_int 1 w = true ->
      Resize_forward G K self image mask (Some 1%Q) s = Ok ((image, mask), s))
  /\ (forall size,
         float_int size h = true -> float_int size w = true ->
         py_int (fmul size h) <= 0 \/ py_int (fmul size w) <= 0 ->
         Resize_forward G K self image mask (Some size) s = Err RuntimeError).
Proof.
  intros Himg Hb Hc Hh Hw Hmask Hbm Hcm Hhm.
  apply tensor4_shapedb_iff in Himg. apply tensor4_shapedb_iff in Hmask.
  pose proof (shape4_nondegenerate b c h w image Himg Hb Hc Hh) as Hshape.
  repeat apply conj.
  - intros size image' mask' s' _ _ E.
    unfold Resize_forward, output_size_of in E. rewrite Hshape in E.
    unfold bind at 1 in E. cbn [ret] in E.
    apply bind_Ok in E. destruct E as (im & s1 & Eim & E).
    apply bind_Ok in E. destruct E as (mk & s2 & Emk & E).
    inversion E; subst im mk s2; clear E.
    unfold lift in Eim, Emk.
    destruct (F_resize K BILINEAR true image _) as [im |]; [| discriminate].
    inversion Eim; subst im s1; clear Eim.
    destruct (F_resize K NEAREST false mask _) as [mk |] eqn:Eresize;
      [| discriminate].
    inversion Emk; subst mk s'; clear Emk.
    split; [reflexivity |]. split.
    + apply tensor4_shapedb_iff.
      eapply (F_resize_Ok_shaped K NEAREST bm cm hm wm); eauto.
    + intros Hlabels.
      eapply (F_resize_nearest_all is_label is_label_zero); eauto.
  - intros -> -> _ _. unfold Resize_forward, output_size_of. rewrite Hshape.
    unfold bind at 1. cbn [ret]. rewrite !py_int_fmul_one.
    rewrite (bind_lift_Ok G _ _ _ _ (F_resize_same_size K BILINEAR true b c h w
                                       image Himg Hb Hc Hh)).
    rewrite (bind_lift_Ok G _ _ _ _ (F_resize_same_size K NEAREST false bm cm h w
                                       mask Hmask Hbm Hcm Hh)).
    reflexivity.
  - intros size _ _ Hbad. unfold Resize_forward, output_size_of. rewrite Hshape.
    unfold bind at 1. cbn [ret]. unfold bind at 1. unfold lift at 1.
    now rewrite (F_resize_nonpositive K BILINEAR true b c h w _ _ image).
Qed.

Lemma Resize_forward_explicit_size_witness :
  (exists image' mask',
      Resize_forward lcg reference_kernels size_range_unset image_4x4 mask_2x2
        (Some (3 # 4)%Q) (lcg_rng 1 2 3)
      = Ok ((image', mask'), lcg_rng 1 2 3)
      /\ tensor4_shapedb 1 1 3 3 mask' = true)
  /\ Resize_forward lcg reference_kernels size_range_unset image_4x4 mask_4x4
       (Some 1%Q) (lcg_rng 1 2 3) = Ok ((image_4x4, mask_4x4), lcg_rng 1 2 3)
  /\ Resize_forward lcg reference_kernels size_range_unset image_4x4 mask_2x2
       (Some 0%Q) (lcg_rng 1 2 3) = Err RuntimeError.
Proof.
  destruct (Resize_forward_explicit_size lcg reference_kernels size_range_unset
              image_4x4 mask_2x2 1 1 4 4 1 1 2 2 (lcg_rng 1 2 3))
    as (Hsize & _ & Hbad); try reflexivity; try lia.
  destruct (Resize_forward_explicit_size lcg reference_kernels size_range_unset
              image_4x4 mask_4x4 1 1 4 4 1 1 4 4 (lcg_rng 1 2 3))
    as (_ & Hone & _); try reflexivity; try lia.
  destruct (Resize_forward lcg reference_kernels size_range_unset image_4x4
              mask_2x2 (Some (3 # 4)%Q) (lcg_rng 1 2 3))
    as [[[image' mask'] s'] | e] eqn:E; [| vm_compute in E; discriminate E].
  assert (F1 : float_int (3 # 4) 4 = true) by (vm_compute; reflexivity).
  destruct (Hsize (3 # 4)%Q image' mask' s' F1 F1 E) as (-> & Hshape & _).
  repeat apply conj;
    [ exists image', mask'; split; [reflexivity | exact Hshape]
    | apply Hone; first [side_condition | reflexivity]
    | apply Hbad; [side_condition | side_condition
                   | left; vm_compute; discriminate] ].
Defined.

(** ** Perspective *)

(** [get_perspective_params], for a distortion scale whose products with
    the half sizes binary64 computes to the integer part of the exact
    product ([float_int]) and for sizes and displacements below 2^62 (so
    that every bound given to [torch.randint] is an int64 value): the start
    points are the four corners of the image; with
    [dw = int(distortion_scale * (width // 2))] and
    [dh = int(distortion_scale * (height // 2))] not negative, every end
    point is displaced from its corner by at most [dw] horizontally and
    [dh] vertically, towards the inside; when [dw = dh = 0] the end points
    are the start points.  A negative [dw] or [dh] leaves an empty range
    and raises RuntimeError. *)
Theorem get_perspective_params_bounds (G : Generator) (width height : Z)
    (distortion_scale : Q) (random_seed : option Z) (s : rng G) :
  let dw := py_int (fmul distortion_scale (width / 2)) in
  let dh := py_int (fmul distortion_scale (height / 2)) in
  let startpoints :=
    [(0, 0); (width - 1, 0); (width - 1, height - 1); (0, height - 1)] in
  float_int distortion_scale (width / 2) = true ->
  float_int distortion_scale (height / 2) = true ->
  Z.abs width < 2 ^ 62 -> Z.abs height < 2 ^ 62 ->
  Z.abs dw < 2 ^ 62 -> Z.abs dh < 2 ^ 62 ->
  (0 <= dw -> 0 <= dh ->
   exists tlx tly trx try brx bry blx bly s',
     get_perspective_params G width height distortion_scale random_seed s
     = Ok ((startpoints, [(tlx, tly); (trx, try); (brx, bry); (blx, bly)]), s')
     /\ 0 <= tlx <= dw /\ 0 <= tly <= dh
     /\ width - 1 - dw <= trx <= width - 1 /\ 0 <= try <= dh
     /\ width - 1 - dw <= brx <= width - 1
     /\ height - 1 - dh <= bry <= height - 1
     /\ 0 <= blx <= dw /\ height - 1 - dh <= bly <= height - 1
     /\ (dw = 0 -> dh = 0 ->
         [(tlx, tly); (trx, try); (brx, bry); (blx, bly)] = startpoints))
  /\ (dw < 0 \/ dh < 0 ->
      outcome (get_perspective_params G width height distortion_scale
                                      random_seed s)
      = Err RuntimeError).
Proof.
  intros dw dh startpoints _ _ _ _ _ _. unfold get_perspective_params.
  destruct (seeding_returns G random_seed s) as [s0 Eseed].
  rewrite (bind_step G _ _ _ _ _ Eseed). fold dw. fold dh.
  split.
  - intros Hdw Hdh.
    destruct (torch_randint_total G 0 (dw + 1) s0) as (tlx & s1 & E1 & _); [lia |].
    destruct (torch_randint_total G 0 (dh + 1) s1) as (tly & s2 & E2 & _); [lia |].
    destruct (torch_randint_total G (width - dw - 1) width s2)
      as (trx & s3 & E3 & _); [lia |].
    destruct (torch_randint_total G 0 (dh + 1) s3) as (try & s4 & E4 & _); [lia |].
    destruct (torch_randint_total G (width - dw - 1) width s4)
      as (brx & s5 & E5 & _); [lia |].
    destruct (torch_randint_total G (height - dh - 1) height s5)
      as (bry & s6 & E6 & _); [lia |].
    destruct (torch_randint_total G 0 (dw + 1) s6) as (blx & s7 & E7 & _); [lia |].
    destruct (torch_randint_total G (height - dh - 1) height s7)
      as (bly & s8 & E8 & _); [lia |].
    exists tlx, tly, trx, try, brx, bry, blx, bly, s8.
    unfold bind. rewrite E1, E2, E3, E4, E5, E6, E7, E8.
    apply torch_randint_range in E1, E2, E3, E4, E5, E6, E7, E8.
    split; [reflexivity |].
    repeat split; try lia.
    intros Hw0 Hh0. subst startpoints. repeat f_equal; lia.
  - intros Hneg.
    destruct (Z_lt_le_dec dw 0) as [Hdw | Hdw].
    + unfold bind. now rewrite (torch_randint_empty G 0 (dw + 1) s0) by lia.
    + destruct (torch_randint_total G 0 (dw + 1) s0) as (tlx & s1 & E1 & _);
        [lia |].
      unfold bind. rewrite E1.
      now rewrite (torch_randint_empty G 0 (dh + 1) s1) by lia.
Qed.

Lemma get_perspective_params_bounds_witness :
  (exists tlx tly trx try brx bry blx bly s',
      get_perspective_params lcg 8 8 (1 # 2) None (lcg_rng 1 2 3)
      = Ok (([(0, 0); (7, 0); (7, 7); (0, 7)],
             [(tlx, tly); (trx, try); (brx, bry); (blx, bly)]), s')
      /\ 0 <= tlx <= 2 /\ 0 <= tly <= 2 /\ 5 <= trx <= 7 /\ 0 <= try <= 2
      /\ 5 <= brx <= 7 /\ 5 <= bry <= 7 /\ 0 <= blx <= 2 /\ 5 <= bly <= 7)
  /\ outcome (get_perspective_params lcg 8 8 (-1) None (lcg_rng 1 2 3))
     = Err RuntimeError.
Proof.
  split.
  - destruct (get_perspective_params_bounds lcg 8 8 (1 # 2) None
                (lcg_rng 1 2 3)) as [Hinside _]; try side_condition.
    destruct Hinside
      as (tlx & tly & trx & try & brx & bry & blx & bly & s' & E & H);
      [vm_compute; discriminate | vm_compute; discriminate |].
    exists tlx, tly, trx, try, brx, bry, blx, bly, s'.
    split; [exact E |].
    change (py_int (fmul (1 # 2) (8 / 2))) with 2 in H.
    repeat split; lia.
  - destruct (get_perspective_params_bounds lcg 8 8 (-1) None
                (lcg_rng 1 2 3)) as [_ Hempty]; try side_condition.
    apply Hempty. left. vm_compute. reflexivity.
Defined.

(** ** CropResizePad: what is pasted where *)

Lemma nth_zip_with {A B C} (f : A -> B -> C) (l : list A) (l' : list B)
    (k : nat) (da : A) (db : B) (dc : C) :
  (k < length l)%nat -> (k < length l')%nat ->
  nth k (zip_with f l l') dc = f (nth k l da) (nth k l' db).
Proof.
  revert l' k. induction l as [| a l IH]; intros l' k Hl Hl'; [cbn in Hl; lia |].
  destruct l' as [| b l']; [cbn in Hl'; lia |].
  destruct k as [| k]; [reflexivity |]. cbn in *. apply IH; lia.
Qed.

Lemma nth_splice {A} (dst src : list A) (a b : Z) (k : nat) (d : A) :
  0 <= a -> a <= b -> b <= Z.of_nat (length dst) ->
  Z.of_nat (length src) = b - a ->
  nth k (splice dst a b src) d
  = if (a <=? Z.of_nat k) && (Z.of_nat k <? b)
    then nth (k - Z.to_nat a) src d
    else nth k dst d.
Proof.
  intros Ha Hab Hb Hsrc. unfold splice.
  destruct (Z.leb_spec a (Z.of_nat k)) as [Hak | Hak]; cbn [andb].
  - rewrite app_nth2 by (rewrite length_firstn; lia).
    rewrite length_firstn.
    replace (k - Nat.min (Z.to_nat a) (length dst))%nat
      with (k - Z.to_nat a)%nat by lia.
    destruct (Z.ltb_spec (Z.of_nat k) b) as [Hkb | Hkb].
    + apply app_nth1. lia.
    + rewrite app_nth2 by lia. rewrite nth_skipn. f_equal. lia.
  - rewrite app_nth1 by (rewrite length_firstn; lia).
    rewrite nth_firstn.
    destruct (Nat.ltb_spec k (Z.to_nat a)); [reflexivity | lia].
Qed.

Lemma nth_full (h w : Z) (v : Q) (y x : nat) :
  (y < Z.to_nat h)%nat -> (x < Z.to_nat w)%nat ->
  nth x (nth y (full h w v) []) 0%Q = v.
Proof.
  intros Hy Hx. unfold full.
  rewrite nth_repeat_lt by exact Hy. now apply nth_repeat_lt.
Qed.

(** Entry (y, x) of a plane after [dp[a:b, c:d] = sp]. *)
Lemma nth_assign_plane (h w a b c d : Z) (dp sp : plane) (y x : nat) :
  plane_shaped h w dp -> plane_shaped (b - a) (d - c) sp ->
  0 <= a -> a <= b -> b <= h -> 0 <= c -> c <= d -> d <= w ->
  (y < Z.to_nat h)%nat -> (x < Z.to_nat w)%nat ->
  nth x (nth y (splice dp a b
                       (zip_with (fun drow srow => splice drow c d srow)
                                 (py_slice dp a b) sp)) []) 0%Q
  = if (a <=? Z.of_nat y) && (Z.of_nat y <? b)
       && (c <=? Z.of_nat x) && (Z.of_nat x <? d)
    then nth (x - Z.to_nat c) (nth (y - Z.to_nat a) sp []) 0%Q
    else nth x (nth y dp []) 0%Q.
Proof.
  intros [Hh Hrows] [Hsh Hsrows] Ha Hab Hb Hc Hcd Hd Hy Hx.
  unfold height in *.
  assert (Hslice : Z.of_nat (length (py_slice dp a b)) = b - a)
    by (apply py_slice_length; lia).
  rewrite nth_splice; trivial; try lia.
  2: { rewrite zip_with_length. lia. }
  destruct ((a <=? Z.of_nat y) && (Z.of_nat y <? b)) eqn:Erow; cbn [andb];
    [| reflexivity].
  apply andb_true_iff in Erow. destruct Erow as [Hay Hyb].
  apply Z.leb_le in Hay. apply Z.ltb_lt in Hyb.
  rewrite (nth_zip_with _ _ _ _ [] [] []) by lia.
  rewrite nth_py_slice by lia.
  replace (Z.to_nat a + (y - Z.to_nat a))%nat with y by lia.
  assert (Hdrow : Z.of_nat (length (nth y dp [])) = w).
  { rewrite Forall_forall in Hrows. apply Hrows, nth_In. lia. }
  assert (Hsrow : Z.of_nat (length (nth (y - Z.to_nat a) sp [])) = d - c).
  { rewrite Forall_forall in Hsrows. apply Hsrows, nth_In. lia. }
  rewrite nth_splice; trivial; lia.
Qed.

Lemma nth_shaped3 (b c h w : Z) (t : tensor4) (n : nat) :
  tensor4_shaped b c h w t -> (n < Z.to_nat b)%nat ->
  tensor3_shaped c h w (nth n t []).
Proof.
  intros [Hb Ht] Hn. rewrite Forall_forall in Ht. apply Ht, nth_In. lia.
Qed.

Lemma nth_shaped_plane (c h w : Z) (t : tensor3) (k : nat) :
  tensor3_shaped c h w t -> (k < Z.to_nat c)%nat ->
  plane_shaped h w (nth k t []).
Proof.
  intros [Hc Ht] Hk. rewrite Forall_forall in Ht. apply Ht, nth_In. lia.
Qed.

(** Entry [n, k, y, x] of [dst] after [dst[:, :, a:a+n', c0:c0+m] = src]:
    the source's entry inside the window, the old entry outside. *)
Lemma entry4_assign_region (b c h w a n' c0 m : Z) (dst src out : tensor4)
    (n k y x : Z) :
  tensor4_shaped b c h w dst -> 1 <= b -> 1 <= c -> 1 <= h -> 1 <= w ->
  0 <= a -> 0 <= n' -> a + n' <= h -> 0 <= c0 -> 0 <= m -> c0 + m <= w ->
  assign_region dst a (a + n') c0 (c0 + m) src = Ok out ->
  0 <= n < b -> 0 <= k < c -> 0 <= y < h -> 0 <= x < w ->
  entry4 out n k y x
  = if in_window a n' c0 m y x then entry4 src n k (y - a) (x - c0)
    else entry4 dst n k y x.
Proof.
  intros Hdst Hb Hc Hh Hw Ha Hn' Han Hc0 Hm Hcm E Hn Hk Hy Hx.
  unfold assign_region in E.
  rewrite (shape4_nondegenerate b c h w dst Hdst Hb Hc Hh) in E.
  rewrite !py_index_norm_inside in E by lia.
  replace (Z.max a (a + n')) with (a + n') in E by lia.
  replace (Z.max c0 (c0 + m)) with (c0 + m) in E by lia.
  destruct (tensor4_shapedb b c (a + n' - a) (c0 + m - c0) src) eqn:Hsrc;
    [| discriminate].
  inversion E; subst out; clear E.
  apply tensor4_shapedb_iff in Hsrc.
  pose proof (nth_shaped3 b c h w dst (Z.to_nat n) Hdst ltac:(lia)) as Hd3.
  pose proof (nth_shaped3 _ _ _ _ src (Z.to_nat n) Hsrc ltac:(lia)) as Hs3.
  pose proof (nth_shaped_plane c h w _ (Z.to_nat k) Hd3 ltac:(lia)) as Hdp.
  pose proof (nth_shaped_plane c _ _ _ (Z.to_nat k) Hs3 ltac:(lia)) as Hsp.
  destruct Hdst as [Hdb _]. destruct Hsrc as [Hsb _].
  destruct Hd3 as [Hdc _]. destruct Hs3 as [Hsc _].
  unfold entry4. unfold tensor4, tensor3, plane in *.
  rewrite (nth_zip_with _ dst src (Z.to_nat n) [] [] []) by len_lia.
  rewrite (nth_zip_with _ (nth (Z.to_nat n) dst []) (nth (Z.to_nat n) src [])
                        (Z.to_nat k) [] [] []) by len_lia.
  rewrite (nth_assign_plane h w) by (trivial; lia).
  unfold in_window. rewrite !Z2Nat.id by lia.
  destruct (_ && _ && _ && _) eqn:Ein; [| reflexivity].
  rewrite !andb_true_iff, !Z.leb_le, !Z.ltb_lt in Ein.
  do 2 f_equal; lia.
Qed.

Lemma entry4_crop (b c h w i n' j m : Z) (t : tensor4) (n k y x : Z) :
  tensor4_shaped b c h w t ->
  0 <= i -> 0 <= n' -> i + n' <= h -> 0 <= j -> 0 <= m -> j + m <= w ->
  0 <= n < b -> 0 <= k < c -> 0 <= y < n' -> 0 <= x < m ->
  entry4 (map4 (fun p => slice_plane p i (i + n') j (j + m)) t) n k y x
  = entry4 t n k (i + y) (j + x).
Proof.
  intros Ht Hi Hn' Hin Hj Hm Hjm Hn Hk Hy Hx.
  pose proof (nth_shaped3 b c h w t (Z.to_nat n) Ht ltac:(lia)) as H3.
  pose proof (nth_shaped_plane c h w _ (Z.to_nat k) H3 ltac:(lia)) as Hp.
  unfold entry4, map4. unfold tensor4, tensor3, plane in *.
  rewrite (nth_map_default _ t (Z.to_nat n) [] []) by reflexivity.
  rewrite (nth_map_default _ (nth (Z.to_nat n) t []) (Z.to_nat k) [] [])
    by (unfold slice_plane; now rewrite py_slice_nil).
  rewrite (nth_slice_plane h w) by (trivial; lia).
  do 2 f_equal; lia.
Qed.

Lemma entry4_full_canvas (h w : Z) (color : list (list Q)) (n k y x : Z) :
  0 <= n < Z.of_nat (length color) ->
  0 <= k < Z.of_nat (length (nth (Z.to_nat n) color [])) ->
  0 <= y < h -> 0 <= x < w ->
  entry4 (map (map (fun v => full h w v)) color) n k y x
  = nth (Z.to_nat k) (nth (Z.to_nat n) color []) 0%Q.
Proof.
  intros Hn Hk Hy Hx. unfold entry4. unfold tensor4, tensor3, plane in *.
  rewrite (nth_map_default _ color (Z.to_nat n) [] []) by reflexivity.
  rewrite (nth_indep _ [] (full h w 0%Q)) by (rewrite length_map; lia).
  rewrite (map_nth (fun v => full h w v)).
  apply nth_full; lia.
Qed.

Lemma entry4_zeros_canvas (h w : Z) (b c : nat) (n k y x : Z) :
  0 <= n < Z.of_nat b -> 0 <= k < Z.of_nat c -> 0 <= y < h -> 0 <= x < w ->
  entry4 (repeat (repeat (zeros h w) c) b) n k y x = 0%Q.
Proof.
  intros Hn Hk Hy Hx. unfold entry4.
  rewrite nth_repeat_lt by lia. rewrite nth_repeat_lt by lia.
  apply nth_full; lia.
Qed.

Section PadColor.

Variable G : Generator.

Lemma torch_rand_unit (r : Q) (s s' : rng G) :
  torch_rand s = Ok (r, s') -> unit_interval r.
Proof.
  unfold torch_rand. destruct (gen_next G (torch_rng s)) as [x t].
  intros E. inversion E; subst.
  pose proof (Z.mod_pos_bound (Z.of_N x) 16777216 ltac:(lia)).
  split; unfold Qle, Qlt; cbn [Qnum Qden]; lia.
Qed.

Lemma torch_rand_list_unit (n : nat) (vs : list Q) (s s' : rng G) :
  torch_rand_list G n s = Ok (vs, s') ->
  length vs = n /\ Forall unit_interval vs.
Proof.
  revert vs s. induction n as [| n IH]; intros vs s E; cbn [torch_rand_list] in E.
  - inversion E. now split.
  - apply bind_Ok in E. destruct E as (v & s1 & Ev & E).
    apply bind_Ok in E. destruct E as (vs' & s2 & Evs & E).
    inversion E; subst. destruct (IH _ _ Evs) as [Hlen Hall].
    split; [cbn; now rewrite Hlen |].
    constructor; [eapply torch_rand_unit; eassumption | exact Hall].
Qed.

Lemma torch_rand_grid_unit (b c : nat) (g : list (list Q)) (s s' : rng G) :
  torch_rand_grid G b c s = Ok (g, s') ->
  length g = b /\ Forall (fun r => length r = c /\ Forall unit_interval r) g.
Proof.
  revert g s. induction b as [| b IH]; intros g s E; cbn [torch_rand_grid] in E.
  - inversion E. now split.
  - apply bind_Ok in E. destruct E as (r & s1 & Er & E).
    apply bind_Ok in E. destruct E as (rs & s2 & Ers & E).
    inversion E; subst. destruct (IH _ _ Ers) as [Hlen Hall].
    split; [cbn; now rewrite Hlen |].
    constructor; [eapply torch_rand_list_unit; eassumption | exact Hall].
Qed.

End PadColor.

Lemma fold_left_Qmin_le (vs : list Q) (v : Q) : (fold_left Qmin vs v <= v)%Q.
Proof.
  revert v. induction vs as [| a vs IH]; intros v; cbn; [apply Qle_refl |].
  eapply Qle_trans; [apply IH | apply Q.le_min_l].
Qed.

Lemma fold_left_Qmax_ge (vs : list Q) (v : Q) : (v <= fold_left Qmax vs v)%Q.
Proof.
  revert v. induction vs as [| a vs IH]; intros v; cbn; [apply Qle_refl |].
  eapply Qle_trans; [apply Q.le_max_l | apply IH].
Qed.

Lemma tensor_min_le_max (t : tensor4) (lo hi : Q) :
  tensor_min t = Ok lo -> tensor_max t = Ok hi -> (lo <= hi)%Q.
Proof.
  unfold tensor_min, tensor_max. destruct (flatten4 t) as [| v vs]; [discriminate |].
  intros E1 E2. inversion E1; inversion E2; subst.
  eapply Qle_trans; [apply fold_left_Qmin_le | apply fold_left_Qmax_ge].
Qed.

(** The padding colour lies between the smallest and the largest value. *)
Lemma pad_color_between (lo hi r : Q) :
  (lo <= hi)%Q -> unit_interval r ->
  (lo <= Qred ((hi - lo) * r + lo) <= hi)%Q.
Proof.
  intros Hle [H0 H1]. rewrite Qred_correct.
  assert (Hd : (0 <= hi - lo)%Q) by lra.
  pose proof (Qmult_le_0_compat _ _ Hd H0) as Hp.
  assert (Hq : ((hi - lo) * r <= (hi - lo) * 1)%Q).
  { rewrite !(Qmult_comm (hi - lo)). apply Qmult_le_compat_r; [lra | exact Hd]. }
  split; lra.
Qed.

Section CropResizePadPaste.

Variable G : Generator.
Variable K : Kernels.

Lemma F_resize_Ok_positive (mode : InterpolationMode) (b c h w oh ow : Z)
    (t t' : tensor4) :
  tensor4_shaped b c h w t -> 1 <= b -> 1 <= c -> 1 <= h -> 1 <= w ->
  F_resize K mode false t (oh, ow) = Ok t' -> 1 <= oh /\ 1 <= ow.
Proof.
  intros Ht Hb Hc Hh Hw. unfold F_resize.
  rewrite (shape4_nondegenerate b c h w t Ht Hb Hc Hh).
  destruct (Z.eqb_spec h oh), (Z.eqb_spec w ow); cbn [andb]; try (intros _; lia);
    destruct (Z.leb_spec oh 0), (Z.leb_spec ow 0); cbn [orb];
    try discriminate; intros _; lia.
Qed.

(** The stages of a call of [CropResizePad.forward] that returned. *)
Lemma CropResizePad_forward_Ok_inv (self : CropResizePad)
    (images masks : tensor4) (b c h w : Z) sizes seed (s s' : rng G)
    (out_images out_masks : tensor4) :
  tensor4_shaped b c h w images -> 1 <= b -> 1 <= c -> 1 <= h -> 1 <= w ->
  CropResizePad_forward G K self images masks sizes seed s
  = Ok ((out_images, out_masks), s') ->
  exists nh nw ch cw i j pad_top pad_left ri rm lo hi noise,
    F_resize K BILINEAR false images (nh, nw) = Ok ri
    /\ F_resize K NEAREST false masks (nh, nw) = Ok rm
    /\ (forall f0 f1 f2 f3, sizes = Some (f0, f1, f2, f3) ->
          nh = py_int (fmul f0 h) /\ nw = py_int (fmul f1 w)
          /\ ch = Z.min (py_int (fmul f2 nh)) nh
          /\ cw = Z.min (py_int (fmul f3 nw)) nw)
    /\ tensor4_shaped b c nh nw ri /\ 1 <= nh /\ 1 <= nw
    /\ (0 <= i /\ i + ch <= nh /\ 0 <= j /\ j + cw <= nw)
    /\ (0 <= pad_top /\ pad_top + ch <= h /\ 0 <= pad_left /\ pad_left + cw <= w)
    /\ tensor_min ri = Ok lo /\ tensor_max ri = Ok hi
    /\ length noise = Z.to_nat b
    /\ Forall (fun r => length r = Z.to_nat c /\ Forall unit_interval r) noise
    /\ assign_region
         (map (map (fun v => full h w v))
              (map (map (fun r => Qred ((hi - lo) * r + lo)%Q)) noise))
         pad_top (pad_top + ch) pad_left (pad_left + cw)
         (map4 (fun p => slice_plane p i (i + ch) j (j + cw)) ri)
       = Ok out_images
    /\ assign_region
         (repeat (repeat (zeros h w) (length (hd [] rm))) (Z.to_nat b))
         pad_top (pad_top + ch) pad_left (pad_left + cw)
         (map4 (fun p => slice_plane p i (i + ch) j (j + cw)) rm)
       = Ok out_masks.
Proof.
  intros Himg Hb Hc Hh Hw E. unfold CropResizePad_forward in E.
  apply bind_Ok in E. destruct E as (u & s0 & _ & E).
  rewrite (shape4_nondegenerate b c h w images Himg Hb Hc Hh) in E.
  apply bind_Ok in E. destruct E as ([[nh nw] [ch0 cw0]] & s1 & Esizes & E).
  assert (Hsizes : forall f0 f1 f2 f3, sizes = Some (f0, f1, f2, f3) ->
            nh = py_int (fmul f0 h) /\ nw = py_int (fmul f1 w)
            /\ ch0 = py_int (fmul f2 nh) /\ cw0 = py_int (fmul f3 nw)).
  { intros f0 f1 f2 f3 ->. unfold ret in Esizes. cbn [fst snd] in Esizes.
    inversion Esizes; subst. now repeat split. }
  clear Esizes.
  apply bind_Ok in E. destruct E as (ri & s2 & Eri & E).
  apply bind_Ok in E. destruct E as (rm & s3 & Erm & E).
  apply lift_Ok in Eri. apply lift_Ok in Erm. cbn [fst snd] in E.
  pose proof (F_resize_Ok_shaped K BILINEAR b c h w nh nw images ri
                Himg Hb Hc Hh Eri) as Hri.
  destruct (F_resize_Ok_positive BILINEAR b c h w nh nw images ri
              Himg Hb Hc Hh Hw Eri) as [Hnh Hnw].
  apply bind_Ok in E. destruct E as (image0 & s4 & Eimage0 & E).
  assert (Himage0 : image0 = hd [] ri).
  { destruct ri as [| r0 ri']; [discriminate |]. now inversion Eimage0. }
  pose proof (shape4_nondegenerate b c nh nw ri Hri Hb Hc Hnh) as Hshape.
  unfold shape4 in Hshape. rewrite <- Himage0 in Hshape.
  assert (Hih : height (hd [] image0) = nh) by congruence.
  assert (Hiw : width (hd [] image0) = nw) by congruence.
  rewrite Hih, Hiw in E.
  apply bind_Ok in E. destruct E as ([[[i j] h'] w'] & s5 & Ecrop & E).
  apply RandomCrop_get_params_Ok in Ecrop.
  destruct Ecrop as (-> & -> & Hi & Hich & Hj & Hjcw).
  set (ch := Z.min ch0 nh) in *. set (cw := Z.min cw0 nw) in *.
  destruct (Z.gtb_spec ch h) as [Hbig | Hch]; [discriminate |].
  destruct (Z.gtb_spec cw w) as [Hbig | Hcw]; [discriminate |]. cbn [orb] in E.
  apply bind_Ok in E. destruct E as (pad_top & s6 & Etop & E).
  apply bind_Ok in E. destruct E as (pad_left & s7 & Eleft & E).
  apply py_randint_range in Etop. apply py_randint_range in Eleft.
  apply bind_Ok in E. destruct E as (lo & s8 & Elo & E).
  apply bind_Ok in E. destruct E as (hi & s9 & Ehi & E).
  apply lift_Ok in Elo. apply lift_Ok in Ehi.
  apply bind_Ok in E. destruct E as (noise & s10 & Enoise & E).
  apply torch_rand_grid_unit in Enoise. destruct Enoise as [Hnb Hnoise].
  apply bind_Ok in E. destruct E as (pi & s11 & Epi & E).
  apply bind_Ok in E. destruct E as (pm & s12 & Epm & E).
  apply lift_Ok in Epi. apply lift_Ok in Epm.
  inversion E; subst pi pm; clear E.
  exists nh, nw, ch, cw, i, j, pad_top, pad_left, ri, rm, lo, hi, noise.
  repeat match goal with |- _ /\ _ => split end; trivial; try lia.
  intros f0 f1 f2 f3 Es. destruct (Hsizes f0 f1 f2 f3 Es) as (E1 & E2 & E3 & E4).
  subst ch cw. rewrite <- E3, <- E4. now repeat split.
Qed.

(** The colour canvas: entry [n, k, y, x] is the colour of [(n, k)],
    between the two bounds, wherever [(y, x)] lies. *)
Lemma pad_canvas_entry (h w : Z) (lo hi : Q) (noise : list (list Q))
    (nb nc : nat) (n k : Z) :
  length noise = nb ->
  Forall (fun r => length r = nc /\ Forall unit_interval r) noise ->
  (lo <= hi)%Q -> 0 <= n < Z.of_nat nb -> 0 <= k < Z.of_nat nc ->
  exists v, (lo <= v <= hi)%Q
    /\ forall y x, 0 <= y < h -> 0 <= x < w ->
         entry4 (map (map (fun v => full h w v))
                     (map (map (fun r => Qred ((hi - lo) * r + lo)%Q)) noise))
                n k y x = v.
Proof.
  intros Hnb Hnoise Hle Hn Hk.
  assert (Hrow : length (nth (Z.to_nat n) noise []) = nc
                 /\ Forall unit_interval (nth (Z.to_nat n) noise [])).
  { rewrite Forall_forall in Hnoise. apply Hnoise, nth_In. lia. }
  destruct Hrow as [Hlen Hunit].
  assert (Hr : unit_interval (nth (Z.to_nat k) (nth (Z.to_nat n) noise []) 0%Q)).
  { rewrite Forall_forall in Hunit. apply Hunit, nth_In. lia. }
  exists (Qred ((hi - lo) * nth (Z.to_nat k) (nth (Z.to_nat n) noise []) 0%Q + lo)%Q).
  split; [now apply pad_color_between |].
  intros y x Hy Hx.
  rewrite entry4_full_canvas; try lia.
  - rewrite (nth_map_default _ noise (Z.to_nat n) [] []) by reflexivity.
    rewrite (nth_indep _ 0%Q (Qred ((hi - lo) * 0 + lo)%Q))
      by (rewrite length_map; lia).
    now rewrite (map_nth (fun r => Qred ((hi - lo) * r + lo)%Q)).
  - rewrite length_map. lia.
  - rewrite (nth_map_default _ noise (Z.to_nat n) [] []) by reflexivity.
    rewrite length_map. lia.
Qed.

End CropResizePadPaste.

(** [CropResizePad.forward], entry by entry.  Whenever the call returns,
    there are a resized size, a crop window [i:i+ch, j:j+cw] inside the
    resized tensors and a paste position [(pad_top, pad_left)] inside the
    canvas such that, for crop sizes that are not negative:
    - inside the pasted window the mask holds the NEAREST-resized mask and
      the image the resized image, both read at the same crop offsets;
    - outside the window the mask is 0 and the image holds one colour per
      (sample, channel), between the smallest and the largest value of the
      resized image.
    Explicit [sizes] whose products binary64 computes to the integer part
    of the exact product ([float_int]) fix the resized size
    [int(sizes[0] * H)] x [int(sizes[1] * W)] and the crop size, clamped to
    the resized size. *)
Theorem CropResizePad_forward_paste (G : Generator) (K : Kernels)
    (self : CropResizePad) (images masks : tensor4) (b c h w cm hm wm : Z)
    sizes seed (s s' : rng G) (out_images out_masks : tensor4) :
  tensor4_shapedb b c h w images = true ->
  1 <= b -> 1 <= c -> 1 <= h -> 1 <= w ->
  tensor4_shapedb b cm hm wm masks = true ->
  1 <= cm -> 1 <= hm ->
  CropResizePad_forward G K self images masks sizes seed s
  = Ok ((out_images, out_masks), s') ->
  exists nh nw ch cw i j pad_top pad_left ri rm lo hi,
    F_resize K BILINEAR false images (nh, nw) = Ok ri
    /\ F_resize K NEAREST false masks (nh, nw) = Ok rm
    /\ tensor_min ri = Ok lo /\ tensor_max ri = Ok hi
    /\ (forall f0 f1 f2 f3, sizes = Some (f0, f1, f2, f3) ->
          float_int f0 h = true -> float_int f1 w = true ->
          float_int f2 (py_int (fmul f0 h)) = true ->
          float_int f3 (py_int (fmul f1 w)) = true ->
          nh = py_int (fmul f0 h) /\ nw = py_int (fmul f1 w)
          /\ ch = Z.min (py_int (fmul f2 nh)) nh
          /\ cw = Z.min (py_int (fmul f3 nw)) nw)
    /\ (0 <= i /\ i + ch <= nh /\ 0 <= j /\ j + cw <= nw)
    /\ (0 <= pad_top /\ pad_top + ch <= h /\ 0 <= pad_left /\ pad_left + cw <= w)
    /\ (0 <= ch -> 0 <= cw ->
        forall n y x, 0 <= n < b -> 0 <= y < h -> 0 <= x < w ->
          (forall k, 0 <= k < cm ->
             entry4 out_masks n k y x
             = if in_window pad_top ch pad_left cw y x
               then entry4 rm n k (i + (y - pad_top)) (j + (x - pad_left))
               else 0%Q)
          /\ (forall k, 0 <= k < c ->
                if in_window pad_top ch pad_left cw y x
                then entry4 out_images n k y x
                     = entry4 ri n k (i + (y - pad_top)) (j + (x - pad_left))
                else (lo <= entry4 out_images n k y x <= hi)%Q
                     /\ forall y' x', 0 <= y' < h -> 0 <= x' < w ->
                          in_window pad_top ch pad_left cw y' x' = false ->
                          entry4 out_images n k y' x'
                          = entry4 out_images n k y x)).
Proof.
  intros Himg Hb Hc Hh Hw Hmask Hcm Hhm E.
  apply tensor4_shapedb_iff in Himg. apply tensor4_shapedb_iff in Hmask.
  destruct (CropResizePad_forward_Ok_inv G K self images masks b c h w sizes
              seed s s' out_images out_masks Himg Hb Hc Hh Hw E)
    as (nh & nw & ch & cw & i & j & pt & pl & ri & rm & lo & hi & noise
        & Eri & Erm & Hsizes & Hri & Hnh & Hnw & Hwin & Hpaste & Elo & Ehi
        & Hnb & Hnoise & Epi & Epm).
  exists nh, nw, ch, cw, i, j, pt, pl, ri, rm, lo, hi.
  repeat match goal with |- _ /\ _ => split end; trivial; try lia.
  { intros f0 f1 f2 f3 Es _ _ _ _. exact (Hsizes f0 f1 f2 f3 Es). }
  intros Hch Hcw n y x Hn Hy Hx.
  pose proof (F_resize_Ok_shaped K NEAREST b cm hm wm nh nw masks rm
                Hmask Hb Hcm Hhm Erm) as Hrm.
  pose proof (shape4_nondegenerate b cm nh nw rm Hrm Hb Hcm Hnh) as Hshape.
  assert (Hlc : Z.of_nat (length (hd [] rm)) = cm)
    by (unfold shape4 in Hshape; congruence).
  pose proof (tensor_min_le_max ri lo hi Elo Ehi) as Hle.
  split.
  - intros k Hk.
    rewrite (entry4_assign_region b cm h w pt ch pl cw _ _ _ n k y x)
      with (2 := Hb) (12 := Epm); try lia.
    2: { rewrite <- Hlc. replace b with (Z.of_nat (Z.to_nat b)) at 1 by lia.
         apply padded_masks_shaped; lia. }
    destruct (in_window pt ch pl cw y x) eqn:Ein.
    + unfold in_window in Ein.
      rewrite !andb_true_iff, !Z.leb_le, !Z.ltb_lt in Ein.
      apply (entry4_crop b cm nh nw); trivial; lia.
    + apply entry4_zeros_canvas; lia.
  - intros k Hk.
    assert (Hcanvas : tensor4_shaped b c h w
              (map (map (fun v => full h w v))
                   (map (map (fun r => Qred ((hi - lo) * r + lo)%Q)) noise))).
    { replace b with (Z.of_nat (Z.to_nat b)) at 1 by lia.
      replace c with (Z.of_nat (Z.to_nat c)) at 1 by lia.
      apply padded_images_shaped; try lia.
      - now rewrite length_map.
      - apply Forall_map. eapply Forall_impl; [| exact Hnoise].
        intros r [Hr _]. cbn beta. now rewrite length_map. }
    destruct (pad_canvas_entry h w lo hi noise (Z.to_nat b) (Z.to_nat c) n k
                Hnb Hnoise Hle ltac:(lia) ltac:(lia)) as (v & Hv & Hcol).
    destruct (in_window pt ch pl cw y x) eqn:Ein.
    + rewrite (entry4_assign_region b c h w pt ch pl cw _ _ _ n k y x)
        with (1 := Hcanvas) (12 := Epi); try lia.
      rewrite Ein. unfold in_window in Ein.
      rewrite !andb_true_iff, !Z.leb_le, !Z.ltb_lt in Ein.
      apply (entry4_crop b c nh nw); trivial; lia.
    + assert (Hout : forall y' x', 0 <= y' < h -> 0 <= x' < w ->
                in_window pt ch pl cw y' x' = false ->
                entry4 out_images n k y' x' = v).
      { intros y' x' Hy' Hx' Eout.
        rewrite (entry4_assign_region b c h w pt ch pl cw _ _ _ n k y' x')
          with (1 := Hcanvas) (12 := Epi); try lia.
        rewrite Eout. now apply Hcol. }
      rewrite (Hout y x Hy Hx Ein). split; [exact Hv |].
      intros y' x' Hy' Hx' Eout. now apply Hout.
Qed.

Lemma CropResizePad_forward_paste_witness :
  exists out_images out_masks s',
    CropResizePad_forward lcg reference_kernels crop_resize_pad_half
      image_4x4 mask_4x4 (Some (1, 1, 1 # 2, 1 # 2)%Q) None (lcg_rng 1 2 3)
    = Ok ((out_images, out_masks), s')
    /\ exists nh nw ch cw i j pad_top pad_left ri rm lo hi,
         F_resize reference_kernels BILINEAR false image_4x4 (nh, nw) = Ok ri
         /\ F_resize reference_kernels NEAREST false mask_4x4 (nh, nw) = Ok rm
         /\ tensor_min ri = Ok lo /\ tensor_max ri = Ok hi
         /\ (forall f0 f1 f2 f3,
               Some (1, 1, 1 # 2, 1 # 2)%Q = Some (f0, f1, f2, f3) ->
               float_int f0 4 = true -> float_int f1 4 = true ->
               float_int f2 (py_int (fmul f0 4)) = true ->
               float_int f3 (py_int (fmul f1 4)) = true ->
               nh = py_int (fmul f0 4) /\ nw = py_int (fmul f1 4)
               /\ ch = Z.min (py_int (fmul f2 nh)) nh
               /\ cw = Z.min (py_int (fmul f3 nw)) nw)
         /\ (0 <= i /\ i + ch <= nh /\ 0 <= j /\ j + cw <= nw)
         /\ (0 <= pad_top /\ pad_top + ch <= 4
             /\ 0 <= pad_left /\ pad_left + cw <= 4)
         /\ (0 <= ch -> 0 <= cw ->
             forall n y x, 0 <= n < 1 -> 0 <= y < 4 -> 0 <= x < 4 ->
               (forall k, 0 <= k < 1 ->
                  entry4 out_masks n k y x
                  = if in_window pad_top ch pad_left cw y x
                    then entry4 rm n k (i + (y - pad_top)) (j + (x - pad_left))
                    else 0%Q)
               /\ (forall k, 0 <= k < 1 ->
                     if in_window pad_top ch pad_left cw y x
                     then entry4 out_images n k y x
                          = entry4 ri n k (i + (y - pad_top))
                                   (j + (x - pad_left))
                     else (lo <= entry4 out_images n k y x <= hi)%Q
                          /\ forall y' x', 0 <= y' < 4 -> 0 <= x' < 4 ->
                               in_window pad_top ch pad_left cw y' x' = false ->
                               entry4 out_images n k y' x'
                               = entry4 out_images n k y x)).
Proof.
  destruct (CropResizePad_forward lcg reference_kernels crop_resize_pad_half
              image_4x4 mask_4x4 (Some (1, 1, 1 # 2, 1 # 2)%Q) None
              (lcg_rng 1 2 3)) as [[[oi om] s'] | e] eqn:E;
    [| vm_compute in E; discriminate].
  exists oi, om, s'. split; [reflexivity |].
  apply (CropResizePad_forward_paste lcg reference_kernels
           crop_resize_pad_half image_4x4 mask_4x4 1 1 4 4 1 4 4
           (Some (1, 1, 1 # 2, 1 # 2)%Q) None (lcg_rng 1 2 3) s' oi om);
    try reflexivity; try lia.
  exact E.
Defined.

(** ** Mask values *)

Section MaskValues.

Variable P : Q -> Prop.
Hypothesis P_zero : P 0%Q.

Lemma assign_region_all (dst src out : tensor4) (a b c d : Z) :
  tensor4_all P dst -> tensor4_all P src ->
  assign_region dst a b c d src = Ok out -> tensor4_all P out.
Proof.
  intros Hdst Hsrc. unfold assign_region.
  destruct (shape4 dst) as [[[nb nc] h] w].
  destruct (tensor4_shapedb _ _ _ _ src); [| discriminate].
  intros E. inversion E; subst out; clear E.
  unfold tensor4_all, tensor3_all, plane_all in *.
  eapply Forall_zip_with; [| exact Hdst | exact Hsrc].
  intros d3 s3 Hd3 Hs3. cbn beta in *.
  eapply Forall_zip_with; [| exact Hd3 | exact Hs3].
  intros dp sp Hdp Hsp. cbn beta in *.
  apply splice_all; [exact Hdp |].
  eapply Forall_zip_with; [| apply py_slice_all; exact Hdp | exact Hsp].
  intros drow srow Hdrow Hsrow. cbn beta in *. now apply splice_all.
Qed.

Lemma zeros_canvas_all (h w : Z) (b c : nat) :
  tensor4_all P (repeat (repeat (zeros h w) c) b).
Proof.
  unfold tensor4_all, tensor3_all, plane_all, zeros, full.
  do 4 (apply Forall_forall; intros ? ->%repeat_spec). exact P_zero.
Qed.

Lemma F_hflip_all (t : tensor4) : tensor4_all P t -> tensor4_all P (F_hflip t).
Proof.
  intros Ht. unfold F_hflip. apply map4_all; [| exact Ht].
  intros p Hp. unfold plane_all in *. apply Forall_map.
  eapply Forall_impl; [| exact Hp]. intros row Hrow. now apply Forall_rev.
Qed.

End MaskValues.

(** Every operator but [Perspective] resamples the mask with the
    nearest-neighbour filter, slices it, mirrors it or pastes it on a canvas
    of zeros: each entry of the returned mask is an entry of the input mask
    or 0.  So a property of the values that holds for 0 and for the input
    mask holds for the returned mask. *)
Theorem mask_values_preserved (G : Generator) (K : Kernels) (P : Q -> Prop)
    (image mask image' mask' : tensor4) (s s' : rng G) :
  P 0%Q -> tensor4_all P mask ->
  (Identity_forward G image mask s = Ok ((image', mask'), s') ->
   tensor4_all P mask')
  /\ (forall self angle,
         Rotate_forward G K self image mask angle s = Ok ((image', mask'), s') ->
         tensor4_all P mask')
  /\ (forall self size,
         Resize_forward G K self image mask size s = Ok ((image', mask'), s') ->
         tensor4_all P mask')
  /\ (forall self size,
         Crop_forward G self image mask size s = Ok ((image', mask'), s') ->
         tensor4_all P mask')
  /\ (forall self size,
         UpperLeftCrop_forward G self image mask size s
         = Ok ((image', mask'), s') ->
         tensor4_all P mask')
  /\ (forall self sizes seed,
         CropResizePad_forward G K self image mask sizes seed s
         = Ok ((image', mask'), s') ->
         tensor4_all P mask')
  /\ (HorizontalFlip_forward G image mask s = Ok ((image', mask'), s') ->
      tensor4_all P mask').
Proof.
  intros P0 Hmask.
  repeat match goal with |- _ /\ _ => split end.
  - intros E. inversion E; subst. exact Hmask.
  - intros self angle E. unfold Rotate_forward in E.
    apply bind_Ok in E. destruct E as (a & s1 & _ & E).
    inversion E; subst. now apply F_rotate_nearest_all.
  - intros self size E. unfold Resize_forward in E.
    apply bind_Ok in E. destruct E as (sz & s1 & _ & E).
    apply bind_Ok in E. destruct E as (im & s2 & _ & E).
    apply bind_Ok in E. destruct E as (mk & s3 & Emask & E).
    inversion E; subst. apply lift_Ok in Emask.
    eapply F_resize_nearest_all; [exact P0 | exact Hmask | exact Emask].
  - intros self size E. unfold Crop_forward in E.
    apply bind_Ok in E. destruct E as (sz & s1 & _ & E).
    destruct (shape4 image) as [[[b c] h] w].
    apply bind_Ok in E. destruct E as ([[[i j] h'] w'] & s2 & _ & E).
    inversion E; subst. now apply F_crop_all.
  - intros self size E. unfold UpperLeftCrop_forward in E.
    apply bind_Ok in E. destruct E as (sz & s1 & _ & E).
    destruct (shape4 image) as [[[b c] h] w].
    apply bind_Ok in E. destruct E as ([[[i j] h'] w'] & s2 & _ & E).
    inversion E; subst. now apply F_crop_all.
  - intros self sizes seed E. unfold CropResizePad_forward in E.
    apply bind_Ok in E. destruct E as (u & s0 & _ & E).
    destruct (shape4 image) as [[[b c] h] w].
    apply bind_Ok in E. destruct E as ([new_size [crop_h crop_w]] & s1 & _ & E).
    apply bind_Ok in E. destruct E as (ri & s2 & _ & E).
    apply bind_Ok in E. destruct E as (rm & s3 & Erm & E).
    apply lift_Ok in Erm.
    apply bind_Ok in E. destruct E as (image0 & s4 & _ & E).
    apply bind_Ok in E. destruct E as ([[[i j] h'] w'] & s5 & _ & E).
    destruct ((h' >? h) || (w' >? w)); [discriminate |].
    apply bind_Ok in E. destruct E as (pad_top & s6 & _ & E).
    apply bind_Ok in E. destruct E as (pad_left & s7 & _ & E).
    apply bind_Ok in E. destruct E as (lo & s8 & _ & E).
    apply bind_Ok in E. destruct E as (hi & s9 & _ & E).
    apply bind_Ok in E. destruct E as (noise & s10 & _ & E).
    apply bind_Ok in E. destruct E as (pi & s11 & _ & E).
    apply bind_Ok in E. destruct E as (pm & s12 & Epm & E).
    apply lift_Ok in Epm. inversion E; subst; clear E.
    eapply assign_region_all; [| | exact Epm].
    + now apply zeros_canvas_all.
    + apply map4_all; [intros p Hp; now apply slice_plane_all |].
      eapply F_resize_nearest_all; [exact P0 | exact Hmask | exact Erm].
  - intros E. inversion E; subst. now apply F_hflip_all.
Qed.

Lemma mask_values_preserved_witness :
  exists image' mask' s',
    CropResizePad_forward lcg reference_kernels crop_resize_pad_half
      image_4x4 mask_4x4 (Some (1, 1, 1 # 2, 1 # 2)%Q) None (lcg_rng 1 2 3)
    = Ok ((image', mask'), s')
    /\ tensor4_all is_label mask'.
Proof.
  destruct (CropResizePad_forward lcg reference_kernels crop_resize_pad_half
              image_4x4 mask_4x4 (Some (1, 1, 1 # 2, 1 # 2)%Q) None
              (lcg_rng 1 2 3)) as [[[oi om] s'] | e] eqn:E;
    [| vm_compute in E; discriminate].
  exists oi, om, s'. split; [reflexivity |].
  assert (Hzero : is_label 0%Q) by (left; reflexivity).
  assert (Hmask : tensor4_all is_label mask_4x4).
  { repeat (apply Forall_cons || apply Forall_nil);
      (left; reflexivity) || (right; reflexivity). }
  destruct (mask_values_preserved lcg reference_kernels is_label
              image_4x4 mask_4x4 oi om (lcg_rng 1 2 3) s' Hzero Hmask)
    as (_ & _ & _ & _ & _ & Hpad & _).
  exact (Hpad crop_resize_pad_half (Some (1, 1, 1 # 2, 1 # 2)%Q) None E).
Defined.

(** * Further properties of the loader *)

(** ** The union mask, entry by entry *)

Lemma bitmap_shapedb_spec (h w : Z) (m : bitmap) :
  bitmap_shapedb h w m = true ->
  Z.of_nat (length m) = h
  /\ forall row, In row m -> Z.of_nat (length row) = w.
Proof.
  unfold bitmap_shapedb. intros H. apply andb_true_iff in H.
  destruct H as [Hh Hrows]. apply Z.eqb_eq in Hh. split; [exact Hh |].
  intros row Hin. rewrite forallb_forall in Hrows.
  apply Z.eqb_eq. now apply Hrows.
Qed.

Lemma maximum_values_shaped (h w : Z) (acc : plane) (m : bitmap) :
  plane_shaped h w acc -> bitmap_shapedb h w m = true ->
  plane_shaped h w (maximum_values acc m).
Proof.
  intros [Hh Hrows] Hm. apply bitmap_shapedb_spec in Hm.
  destruct Hm as [Hmh Hmrows]. unfold maximum_values, plane_shaped, height in *.
  split; [rewrite zip_with_length; lia |].
  eapply Forall_zip_with; [| exact Hrows | apply Forall_forall; exact Hmrows].
  intros row mrow Hrow Hmrow. cbn beta in *. rewrite zip_with_length. lia.
Qed.

Lemma entry2_maximum_values (h w : Z) (acc : plane) (m : bitmap) (y x : Z) :
  plane_shaped h w acc -> bitmap_shapedb h w m = true ->
  0 <= y < h -> 0 <= x < w ->
  entry2 (maximum_values acc m) y x
  = Qmax (entry2 acc y x) (bitmap_value m y x).
Proof.
  intros [Hh Hrows] Hm Hy Hx. apply bitmap_shapedb_spec in Hm.
  destruct Hm as [Hmh Hmrows].
  unfold maximum_values, entry2, bitmap_value, height, plane in *.
  assert (Hrow : Z.of_nat (length (nth (Z.to_nat y) acc [])) = w).
  { rewrite Forall_forall in Hrows. apply Hrows, nth_In. lia. }
  assert (Hmrow : Z.of_nat (length (nth (Z.to_nat y) m [])) = w)
    by (apply Hmrows, nth_In; lia).
  rewrite (nth_zip_with _ acc m (Z.to_nat y) [] [] []) by lia.
  now rewrite (nth_zip_with _ _ _ (Z.to_nat x) 0%Q 0%N 0%Q) by lia.
Qed.

Lemma Qmax_cases (a b : Q) : Qmax a b = a \/ Qmax a b = b.
Proof.
  unfold Qmax, GenericMinMax.gmax. destruct (Qcompare a b); auto.
Qed.

Section UnionEntries.

Context {Ann Img : Type}.
Variable self : CocoImageIDWrapper Ann Img.

Lemma entry2_accumulate (h w : Z) (anns : list Ann) (acc : plane) (y x : Z) :
  plane_shaped h w acc ->
  forallb (fun ann => bitmap_shapedb h w (decode self ann)) anns = true ->
  0 <= y < h -> 0 <= x < w ->
  entry2 (union_accumulate self anns acc) y x
  = fold_left (fun v ann => Qmax v (bitmap_value (decode self ann) y x))
              anns (entry2 acc y x).
Proof.
  intros Hacc Hanns Hy Hx. revert acc Hacc.
  induction anns as [| ann anns IH]; intros acc Hacc; [reflexivity |].
  cbn in Hanns. apply andb_true_iff in Hanns. destruct Hanns as [Hann Hrest].
  unfold union_accumulate in *. cbn [fold_left].
  rewrite (IH Hrest) by (now apply maximum_values_shaped).
  now rewrite (entry2_maximum_values h w).
Qed.

(** The running maximum is at least the start value and every value met,
    and it is one of them. *)
Lemma running_maximum_spec (anns : list Ann) (value : Ann -> Q) (v0 : Q) :
  let r := fold_left (fun v ann => Qmax v (value ann)) anns v0 in
  (v0 <= r)%Q
  /\ (forall ann, In ann anns -> (value ann <= r)%Q)
  /\ (r = v0 \/ exists ann, In ann anns /\ r = value ann).
Proof.
  cbv zeta. revert v0. induction anns as [| a anns IH]; intros v0; cbn [fold_left].
  - split; [apply Qle_refl |]. split; [intros ann [] | now left].
  - destruct (IH (Qmax v0 (value a))) as (Hge & Hall & Hone).
    split; [eapply Qle_trans; [apply Q.le_max_l | exact Hge] |].
    split.
    + intros ann [<- | Hin]; [| now apply Hall].
      eapply Qle_trans; [apply Q.le_max_r | exact Hge].
    + destruct Hone as [Hr | (ann & Hin & Hr)].
      * destruct (Qmax_cases v0 (value a)) as [E | E].
        -- left. now rewrite Hr.
        -- right. exists a. split; [now left | now rewrite Hr].
      * right. exists ann. split; [now right | exact Hr].
Qed.

Lemma accumulate_shaped (h w : Z) (anns : list Ann) (acc : plane) :
  plane_shaped h w acc ->
  forallb (fun ann => bitmap_shapedb h w (decode self ann)) anns = true ->
  plane_shaped h w (union_accumulate self anns acc).
Proof.
  intros Hacc Hanns. revert acc Hacc.
  induction anns as [| ann anns IH]; intros acc Hacc; [exact Hacc |].
  cbn in Hanns. apply andb_true_iff in Hanns. destruct Hanns as [Hann Hrest].
  unfold union_accumulate in *. cbn [fold_left].
  apply (IH Hrest). now apply maximum_values_shaped.
Qed.

End UnionEntries.

(** In union mode, for an image with annotations decoded at the image's
    resolution, the materialized mask has one channel of the image's height
    and width, and each entry is the maximum of the annotations' values at
    that position: at least every annotation's value, and the value of one
    of them.  So for binary annotations an entry is 1 where some annotation
    covers the position and 0 elsewhere. *)
Theorem union_mask_entries (G : Generator) (Ann Img : Type)
    (self : CocoImageIDWrapper Ann Img) (id : Z) (s : rng G) :
  multi_w self = false ->
  loadAnns self id <> [] ->
  forallb (fun ann => bitmap_shapedb (img_height self id) (img_width self id)
                                     (decode self ann))
          (loadAnns self id) = true ->
  exists mask,
    outcome (_load_mask self id s) = Ok (Some [mask])
    /\ plane_shapedb (img_height self id) (img_width self id) mask = true
    /\ forall y x, 0 <= y < img_height self id -> 0 <= x < img_width self id ->
         (forall ann, In ann (loadAnns self id) ->
                      (bitmap_value (decode self ann) y x <= entry2 mask y x)%Q)
         /\ (exists ann, In ann (loadAnns self id)
                         /\ entry2 mask y x = bitmap_value (decode self ann) y x)
         /\ ((forall ann, In ann (loadAnns self id) ->
                          is_label (bitmap_value (decode self ann) y x)) ->
             is_label (entry2 mask y x)
             /\ (entry2 mask y x = 1%Q <->
                 exists ann, In ann (loadAnns self id)
                             /\ bitmap_value (decode self ann) y x = 1%Q)).
Proof.
  intros Hmode Hne Hshape.
  set (H := img_height self id) in *. set (W := img_width self id) in *.
  exists (union_accumulate self (loadAnns self id) (zeros H W)).
  split; [now apply load_mask_union |].
  assert (Hzeros : plane_shaped H W (zeros H W)).
  { destruct (loadAnns self id) as [| ann0 anns0]; [congruence |].
    cbn in Hshape. apply andb_true_iff in Hshape. destruct Hshape as [H0 _].
    apply bitmap_shapedb_spec in H0. destruct H0 as [Hh Hrows].
    destruct (decode self ann0) as [| row rows].
    - cbn in Hh. rewrite <- Hh. split; [reflexivity | constructor].
    - specialize (Hrows row (or_introl eq_refl)). apply full_shaped; lia. }
  split; [now apply plane_shapedb_iff, accumulate_shaped |].
  intros y x Hy Hx.
  rewrite (entry2_accumulate self H W) by trivial.
  replace (entry2 (zeros H W) y x) with 0%Q
    by (symmetry; apply nth_full; lia).
  pose proof (running_maximum_spec (loadAnns self id)
                (fun ann => bitmap_value (decode self ann) y x) 0%Q) as Hspec.
  cbv zeta beta in Hspec.
  set (r := fold_left _ (loadAnns self id) 0%Q) in *.
  clearbody r. destruct Hspec as (H0 & Hall & Hone).
  assert (Hex : exists ann, In ann (loadAnns self id)
                            /\ r = bitmap_value (decode self ann) y x).
  { destruct Hone as [Hr | Hex]; [| exact Hex].
    destruct (loadAnns self id) as [| ann0 anns0] eqn:Eanns; [congruence |].
    exists ann0. split; [now left |].
    specialize (Hall ann0 (or_introl eq_refl)). rewrite Hr in Hall |- *.
    unfold bitmap_value in *.
    destruct (nth (Z.to_nat x) (nth (Z.to_nat y) (decode self ann0) []) 0%N)
      as [| p]; [reflexivity |].
    exfalso. revert Hall. unfold Qle. cbn. lia. }
  split; [exact Hall |]. split; [exact Hex |].
  intros Hlabels. split.
  - destruct Hex as (ann & Hin & ->). now apply Hlabels.
  - split.
    + intros Hr. destruct Hex as (ann & Hin & E). exists ann.
      split; [exact Hin | congruence].
    + intros (ann & Hin & E). specialize (Hall ann Hin). rewrite E in Hall.
      destruct Hex as (ann' & Hin' & E').
      destruct (Hlabels ann' Hin') as [Hz | Ho]; [| congruence].
      exfalso. rewrite E', Hz in Hall. revert Hall. unfold Qle. cbn. lia.
Qed.

Lemma union_mask_entries_witness :
  let self := coco_example [bitmap_a; bitmap_b; bitmap_c] true false true 3 in
  exists mask,
    outcome (_load_mask self 10 (lcg_rng 1 2 3)) = Ok (Some [mask])
    /\ plane_shapedb 2 2 mask = true
    /\ forall y x, 0 <= y < 2 -> 0 <= x < 2 ->
         (forall ann, In ann [bitmap_a; bitmap_b; bitmap_c] ->
                      (bitmap_value ann y x <= entry2 mask y x)%Q)
         /\ (exists ann, In ann [bitmap_a; bitmap_b; bitmap_c]
                         /\ entry2 mask y x = bitmap_value ann y x)
         /\ ((forall ann, In ann [bitmap_a; bitmap_b; bitmap_c] ->
                          is_label (bitmap_value ann y x)) ->
             is_label (entry2 mask y x)
             /\ (entry2 mask y x = 1%Q <->
                 exists ann, In ann [bitmap_a; bitmap_b; bitmap_c]
                             /\ bitmap_value ann y x = 1%Q)).
Proof.
  apply (union_mask_entries lcg bitmap unit
           (coco_example [bitmap_a; bitmap_b; bitmap_c] true false true 3)
           10 (lcg_rng 1 2 3)).
  - reflexivity.
  - cbn. discriminate.
  - reflexivity.
Defined.

(** ** What makes the collator raise *)

Lemma pad_masks_Err (max_masks : Z) (masks : list tensor3) (e : exn) :
  pad_masks max_masks masks = Err e -> e = IndexError /\ In [] masks.
Proof.
  induction masks as [| mask masks IH]; cbn; [discriminate |].
  unfold rbind. destruct mask as [| p ps]; cbn.
  - intros E. inversion E. split; [reflexivity | now left].
  - destruct (pad_masks max_masks masks) as [rest |]; [discriminate |].
    intros E. destruct (IH E) as [He Hin]. split; [exact He | now right].
Qed.

Lemma pad_masks_empty_channel (max_masks : Z) (masks : list tensor3) :
  In [] masks -> pad_masks max_masks masks = Err IndexError.
Proof.
  induction masks as [| mask masks IH]; intros Hin; [destruct Hin |].
  cbn. unfold rbind. destruct mask as [| p ps]; [reflexivity |].
  destruct Hin as [Hin | Hin]; [discriminate |].
  cbn. now rewrite (IH Hin).
Qed.

Lemma torch_stack_Err (tensors : list tensor3) (e : exn) :
  torch_stack tensors = Err e -> e = RuntimeError.
Proof.
  unfold torch_stack. destruct tensors as [| t ts]; [now inversion 1 |].
  destruct (forallb _ _); [discriminate | now inversion 1].
Qed.

Lemma torch_stack_channels (tensors : list tensor3) (t u : tensor3)
    (out : tensor4) :
  torch_stack tensors = Ok out -> In t tensors -> In u tensors ->
  length t = length u.
Proof.
  intros E Ht Hu. apply torch_stack_Ok in E. destruct E as [_ Hall].
  rewrite Forall_forall in Hall.
  pose proof (Hall t Ht). pose proof (Hall u Hu). lia.
Qed.

Lemma max_channels_attained (masks : list tensor3) :
  masks <> [] -> 0 < max_channels masks ->
  exists mask, In mask masks /\ Z.of_nat (length mask) = max_channels masks.
Proof.
  unfold max_channels. induction masks as [| m masks IH]; [congruence |].
  intros _ Hpos. cbn in *.
  destruct (Z.max_spec (Z.of_nat (length m))
                       (fold_right Z.max 0
                          (map (fun mask => Z.of_nat (length mask)) masks)))
    as [[Hlt E] | [Hge E]]; rewrite E in *.
  - destruct masks as [| m' masks']; [cbn in Hpos; lia |].
    destruct (IH ltac:(discriminate) Hpos) as (mask & Hin & Hlen).
    exists mask. split; [now right | exact Hlen].
  - exists m. split; [now left | reflexivity].
Qed.

(** The collator raises, and only then, on these batches:
    - a surviving sample whose mask has no channel makes it raise,
      whatever the other samples: RuntimeError when the images cannot be
      stacked or the largest channel count is 1 (the stack of the masks
      fails), IndexError otherwise (the reduction over the channels);
    - IndexError is raised only for a mask without channels;
    - images of different shapes raise RuntimeError. *)
Theorem custom_collate_raises (batch : list (option (tensor3 * tensor3))) :
  let samples := drop_none batch in
  (In [] (map snd samples) ->
   exists e, custom_collate batch = Err e
     /\ (e = IndexError <->
         torch_stack (map fst samples) = Ok (map fst samples)
         /\ max_channels (map snd samples) <> 1))
  /\ (custom_collate batch = Err IndexError -> In [] (map snd samples))
  /\ (forall e, custom_collate batch = Err e ->
                e = IndexError \/ e = RuntimeError)
  /\ (forall image mask image' mask',
         In (image, mask) samples -> In (image', mask') samples ->
         shape3 image <> shape3 image' ->
         custom_collate batch = Err RuntimeError).
Proof.
  cbv zeta. unfold custom_collate.
  destruct (drop_none batch) as [| sample rest].
  { repeat match goal with |- _ /\ _ => split end.
    - intros [].
    - discriminate.
    - discriminate.
    - intros image mask image' mask' []. }
  set (samples := sample :: rest). unfold rbind.
  repeat match goal with |- _ /\ _ => split end.
  - intros Hin.
    destruct (torch_stack (map fst samples)) as [images |] eqn:Eimages.
    + pose proof (torch_stack_Ok _ _ Eimages) as [-> _].
      destruct (Z.eqb_spec (max_channels (map snd samples)) 1) as [Hone | Hne].
      * destruct (torch_stack (map snd samples)) as [masks |] eqn:Emasks.
        -- exfalso.
           destruct (max_channels_attained (map snd samples)) as (m & Hm & Hlen);
             [discriminate | lia |].
           pose proof (torch_stack_channels _ _ _ _ Emasks Hin Hm) as Hc.
           cbn in Hc. lia.
        -- exists e. apply torch_stack_Err in Emasks. subst e.
           split; [reflexivity |]. split; [discriminate | tauto].
      * rewrite (pad_masks_empty_channel _ _ Hin). exists IndexError.
        split; [reflexivity |]. tauto.
    + exists e. apply torch_stack_Err in Eimages. subst e.
      split; [reflexivity |]. split; [discriminate |].
      intros [E _]. discriminate.
  - destruct (torch_stack (map fst samples)) as [images |] eqn:Eimages.
    2: { apply torch_stack_Err in Eimages. subst. discriminate. }
    destruct (max_channels (map snd samples) =? 1).
    + destruct (torch_stack (map snd samples)) as [masks |] eqn:Emasks;
        [discriminate |].
      apply torch_stack_Err in Emasks. subst. discriminate.
    + destruct (pad_masks _ (map snd samples)) as [padded |] eqn:Epad.
      * destruct (torch_stack padded) as [masks |] eqn:Emasks; [discriminate |].
        apply torch_stack_Err in Emasks. subst. discriminate.
      * intros _. now destruct (pad_masks_Err _ _ _ Epad).
  - intros e.
    destruct (torch_stack (map fst samples)) as [images |] eqn:Eimages.
    2: { apply torch_stack_Err in Eimages. subst. intros E. inversion E. now right. }
    destruct (max_channels (map snd samples) =? 1).
    + destruct (torch_stack (map snd samples)) as [masks |] eqn:Emasks;
        [discriminate |].
      apply torch_stack_Err in Emasks. subst. intros E. inversion E. now right.
    + destruct (pad_masks _ (map snd samples)) as [padded |] eqn:Epad.
      * destruct (torch_stack padded) as [masks |] eqn:Emasks; [discriminate |].
        apply torch_stack_Err in Emasks. subst. intros E. inversion E. now right.
      * destruct (pad_masks_Err _ _ _ Epad) as [-> _].
        intros E. inversion E. now left.
  - intros image mask image' mask' Hin Hin' Hshape.
    destruct (torch_stack (map fst samples)) as [images |] eqn:Eimages.
    2: { apply torch_stack_Err in Eimages. now subst. }
    exfalso. apply Hshape.
    unfold torch_stack in Eimages. cbn [map samples] in Eimages.
    fold samples in Eimages.
    destruct (forallb _ _) eqn:Eall in Eimages; [| discriminate].
    rewrite forallb_forall in Eall.
    assert (Hs : forall t, In t (map fst samples) ->
                           shape3 t = shape3 (fst sample)).
    { intros t Ht. specialize (Eall t Ht). unfold shape3_eqb in Eall.
      destruct (shape3 (fst sample)) as [[c0 h0] w0].
      destruct (shape3 t) as [[c1 h1] w1].
      rewrite !andb_true_iff, !Z.eqb_eq in Eall.
      destruct Eall as [[-> ->] ->]. reflexivity. }
    rewrite (Hs image), (Hs image'); trivial.
    + apply (in_map fst _ _ Hin').
    + apply (in_map fst _ _ Hin).
Qed.

Lemma custom_collate_raises_witness :
  custom_collate [Some (sample_image, []); None; Some sample_two_masks]
  = Err IndexError
  /\ custom_collate [Some (sample_image, []); Some sample_one_mask]
     = Err RuntimeError
  /\ custom_collate [Some sample_one_mask; Some ([[[0]]%Q], [to_float bitmap_a])]
     = Err RuntimeError.
Proof.
  split; [| split].
  - destruct (custom_collate_raises
                [Some (sample_image, []); None; Some sample_two_masks])
      as (Hraise & _ & _ & _).
    destruct (Hraise (or_introl eq_refl)) as (e & E & Hiff).
    rewrite E. f_equal. apply Hiff. split; [reflexivity | discriminate].
  - destruct (custom_collate_raises
                [Some (sample_image, []); Some sample_one_mask])
      as (Hraise & _ & Hkind & _).
    destruct (Hraise (or_introl eq_refl)) as (e & E & Hiff).
    rewrite E. f_equal.
    destruct (Hkind e E) as [He | He]; [| exact He].
    apply Hiff in He. destruct He as [_ Hne]. exfalso. apply Hne. reflexivity.
  - destruct (custom_collate_raises
                [Some sample_one_mask; Some ([[[0]]%Q], [to_float bitmap_a])])
      as (_ & _ & _ & Hshape).
    apply (Hshape sample_image [to_float bitmap_a] [[[0]]%Q] [to_float bitmap_a]).
    + left. reflexivity.
    + right. left. reflexivity.
    + discriminate.
Defined.

(** ** Multi-mask mode outside [max_nb_masks >= 1] *)

Lemma py_slice_drop_last {A} (l : list A) (k : Z) :
  k < 0 ->
  py_slice l 0 k = firstn (Z.to_nat (Z.of_nat (length l) + k)) l.
Proof.
  intros Hk. unfold py_slice. rewrite (py_index_norm_inside _ 0) by lia.
  unfold py_index_norm. destruct (Z.ltb_spec k 0); [| lia].
  cbn [Z.to_nat skipn]. rewrite Z.sub_0_r. f_equal. lia.
Qed.

(** Multi-mask mode on an image with annotations, for a channel bound
    below 1: in training the draw [np.random.randint(1, max_nb_masks + 1)]
    has an empty range and raises ValueError; in evaluation the bound 0
    yields a mask without channels, and a negative bound is read by the
    slice [anns[:nb_masks]] as "all but the last": the mask gets one channel
    per remaining annotation (more than the bound), or [torch.zeros] raises
    RuntimeError for the negative count when none remains. *)
Theorem load_mask_multi_degenerate_bound (G : Generator) (Ann Img : Type)
    (self : CocoImageIDWrapper Ann Img) (id : Z) (s : rng G) :
  multi_w self = true ->
  loadAnns self id <> [] ->
  0 <= img_width self id ->
  forallb (fun ann => bitmap_shapedb (img_height self id) (img_width self id)
                                     (decode self ann))
          (loadAnns self id) = true ->
  (is_train self = true -> max_nb_masks self < 1 ->
   outcome (_load_mask self id s) = Err ValueError)
  /\ (is_train self = false -> max_nb_masks self = 0 ->
      outcome (_load_mask self id s) = Ok (Some []))
  /\ (is_train self = false -> max_nb_masks self < 0 ->
      let kept := Z.of_nat (length (loadAnns self id)) + max_nb_masks self in
      (kept <= 0 -> outcome (_load_mask self id s) = Err RuntimeError)
      /\ (0 < kept ->
          exists mask, outcome (_load_mask self id s) = Ok (Some mask)
                       /\ Z.of_nat (length mask) = kept)).
Proof.
  intros Hmode Hne Hw Hshape. unfold _load_mask.
  destruct (loadAnns self id) as [| ann0 anns0] eqn:Eanns; [congruence |].
  rewrite Hmode. cbn [negb].
  set (H := img_height self id) in *. set (W := img_width self id) in *.
  assert (HH : 0 <= H).
  { cbn in Hshape. apply andb_true_iff in Hshape. destruct Hshape as [H0 _].
    apply bitmap_shapedb_spec in H0. lia. }
  assert (Hshuffled :
            exists shuffled s1,
              (if random_nb_object self
               then random_shuffle (ann0 :: anns0) else ret (ann0 :: anns0)) s
              = Ok (shuffled, s1)
              /\ Permutation (ann0 :: anns0) shuffled).
  { destruct (random_nb_object self).
    - destruct (random_shuffle_Permutation G (ann0 :: anns0) s)
        as (x' & s' & E & Hp & _). eauto.
    - exists (ann0 :: anns0), s. split; [reflexivity | apply Permutation_refl]. }
  destruct Hshuffled as (shuffled & s1 & Eshuffle & Hperm).
  rewrite (bind_step G _ _ _ _ _ Eshuffle).
  rewrite (forallb_Permutation _ _ _ Hperm) in Hshape.
  rewrite (Permutation_length Hperm).
  repeat match goal with |- _ /\ _ => split end.
  - intros -> Hmax. unfold bind at 1, np_randint.
    destruct (Z.ltb_spec 1 (max_nb_masks self + 1)); [lia | reflexivity].
  - intros -> ->. unfold bind at 1, ret at 1.
    rewrite py_slice_prefix by lia.
    cbn [Z.to_nat firstn map]. unfold torch_zeros3.
    replace ((0 <? 0) || (H <? 0) || (W <? 0)) with false
      by (symmetry; rewrite !orb_false_iff, !Z.ltb_ge; lia).
    reflexivity.
  - intros -> Hmax. cbv zeta. split; intros Hkept; unfold bind at 1, ret at 1.
    { rewrite py_slice_drop_last by exact Hmax.
    replace (Z.to_nat (Z.of_nat (length shuffled) + max_nb_masks self))
      with 0%nat by lia.
    cbn [firstn map]. unfold torch_zeros3.
    replace (max_nb_masks self <? 0) with true by (symmetry; apply Z.ltb_lt; lia).
    reflexivity. }
    rewrite py_slice_drop_last by exact Hmax.
    set (taken := firstn _ shuffled).
    assert (Htaken_len : Z.of_nat (length taken)
                         = Z.of_nat (length shuffled) + max_nb_masks self).
    { subst taken. rewrite length_firstn. lia. }
    assert (Htaken_shape :
              forallb (bitmap_shapedb H W) (map (decode self) taken) = true).
    { subst taken. apply (forallb_firstn _ (Z.to_nat (Z.of_nat (length shuffled)
                                                  + max_nb_masks self)))
        in Hshape.
      clear - Hshape. induction (firstn _ shuffled) as [| a l IH];
        cbn in *; [reflexivity |].
      apply andb_true_iff in Hshape. destruct Hshape as [Ha Hl].
      now rewrite Ha, IH. }
    destruct (map (decode self) taken) as [| m0 ms] eqn:Emasks.
    { apply (f_equal (@length _)) in Emasks. rewrite length_map in Emasks.
      cbn in Emasks. lia. }
    rewrite <- Emasks in *.
    assert (Estack : np_stack (map (decode self) taken)
                     = Ok (map (decode self) taken)).
    { apply (np_stack_shaped H W); [rewrite Emasks; discriminate | exact Htaken_shape]. }
    rewrite (bind_lift_Ok G _ _ _ _ Estack).
    rewrite !length_map.
    destruct (Z.ltb_spec (Z.of_nat (length taken)) (max_nb_masks self)); [lia |].
    eexists. split; [reflexivity |]. rewrite !length_map. exact Htaken_len.
Qed.

Lemma load_mask_multi_degenerate_bound_witness :
  outcome (_load_mask (coco_example [bitmap_a; bitmap_b; bitmap_c]
                                    true true true 0) 10 (lcg_rng 1 2 3))
  = Err ValueError
  /\ outcome (_load_mask (coco_example [bitmap_a; bitmap_b; bitmap_c]
                                       true true false 0) 10 (lcg_rng 1 2 3))
     = Ok (Some [])
  /\ outcome (_load_mask (coco_example [bitmap_a; bitmap_b; bitmap_c]
                                       true true false (-3)) 10 (lcg_rng 1 2 3))
     = Err RuntimeError
  /\ exists mask,
       outcome (_load_mask (coco_example [bitmap_a; bitmap_b; bitmap_c]
                                         true true false (-1)) 10 (lcg_rng 1 2 3))
       = Ok (Some mask)
       /\ Z.of_nat (length mask) = 2.
Proof.
  split; [| split; [| split]].
  - refine (proj1 (load_mask_multi_degenerate_bound lcg bitmap unit
                     (coco_example [bitmap_a; bitmap_b; bitmap_c] true true true 0)
                     10 (lcg_rng 1 2 3) eq_refl _ _ eq_refl) eq_refl _);
      [cbn; discriminate | cbn; lia | cbn; lia].
  - refine (proj1 (proj2 (load_mask_multi_degenerate_bound lcg bitmap unit
                     (coco_example [bitmap_a; bitmap_b; bitmap_c] true true false 0)
                     10 (lcg_rng 1 2 3) eq_refl _ _ eq_refl)) eq_refl eq_refl);
      [cbn; discriminate | cbn; lia].
  - refine (proj1 (proj2 (proj2 (load_mask_multi_degenerate_bound lcg bitmap unit
                     (coco_example [bitmap_a; bitmap_b; bitmap_c] true true false (-3))
                     10 (lcg_rng 1 2 3) eq_refl _ _ eq_refl)) eq_refl _) _);
      [cbn; discriminate | cbn; lia | cbn; lia | cbn; lia].
  - refine (proj2 (proj2 (proj2 (load_mask_multi_degenerate_bound lcg bitmap unit
                     (coco_example [bitmap_a; bitmap_b; bitmap_c] true true false (-1))
                     10 (lcg_rng 1 2 3) eq_refl _ _ eq_refl)) eq_refl _) _);
      [cbn; discriminate | cbn; lia | cbn; lia | cbn; lia].
Defined.

(** ** Sampled sizes of Resize, Crop and UpperLeftCrop *)

Section SampledSizes.

Variable G : Generator.

Lemma get_random_size_total (self : SizeRange) (lo hi : Q) (h w : Z)
    (s : rng G) :
  min_size self = Some lo -> max_size self = Some hi ->
  py_int (fmul lo h) <= py_int (fmul hi h) ->
  py_int (fmul lo w) <= py_int (fmul hi w) ->
  exists oh ow s',
    get_random_size G self h w s = Ok ((oh, ow), s')
    /\ py_int (fmul lo h) <= oh <= py_int (fmul hi h)
    /\ py_int (fmul lo w) <= ow <= py_int (fmul hi w).
Proof.
  intros Hlo Hhi Hh Hw. unfold get_random_size. rewrite Hlo, Hhi.
  destruct (torch_randint_total G (py_int (fmul lo h)) (py_int (fmul hi h) + 1) s)
    as (oh & s1 & Eh & _); [lia |].
  destruct (torch_randint_total G (py_int (fmul lo w)) (py_int (fmul hi w) + 1) s1)
    as (ow & s2 & Ew & _); [lia |].
  exists oh, ow, s2.
  rewrite (bind_step G _ _ _ _ _ Eh), (bind_step G _ _ _ _ _ Ew).
  apply torch_randint_range in Eh. apply torch_randint_range in Ew.
  split; [reflexivity | lia].
Qed.

Lemma get_random_size_raises (self : SizeRange) (h w : Z) (s : rng G) :
  (min_size self = None \/ max_size self = None ->
   get_random_size G self h w s = Err ValueError)
  /\ (forall lo hi, min_size self = Some lo -> max_size self = Some hi ->
        py_int (fmul hi h) < py_int (fmul lo h)
        \/ py_int (fmul hi w) < py_int (fmul lo w) ->
        get_random_size G self h w s = Err RuntimeError).
Proof.
  unfold get_random_size. split.
  - intros [E | E]; rewrite E; [reflexivity |].
    now destruct (min_size self).
  - intros lo hi -> -> Hempty.
    destruct (Z_lt_le_dec (py_int (fmul hi h)) (py_int (fmul lo h))) as [Hh | Hh].
    + apply bind_Err. apply torch_randint_empty. lia.
    + destruct (torch_randint_total G (py_int (fmul lo h))
                  (py_int (fmul hi h) + 1) s) as (oh & s1 & Eh & _); [lia |].
      rewrite (bind_step G _ _ _ _ _ Eh).
      apply bind_Err. apply torch_randint_empty. lia.
Qed.

Lemma fraction_range (lo hi : Q) (n : Z) :
  (0 <= lo)%Q -> (lo <= hi)%Q -> (hi <= 1)%Q -> 0 <= n ->
  0 <= py_int (fmul lo n) /\ py_int (fmul lo n) <= py_int (fmul hi n)
  /\ py_int (fmul hi n) <= n.
Proof.
  intros H0 Hle H1 Hn. split; [| split].
  - apply py_int_nonneg. now apply fmul_nonneg.
  - apply py_int_mono. now apply fmul_mono.
  - now apply py_int_fmul_le_one.
Qed.

End SampledSizes.

(** [Resize], [Crop] and [UpperLeftCrop] called without a size.  Without
    both bounds every one of them raises ValueError.  For bounds whose
    products with H and W binary64 computes to the integer part of the
    exact product ([float_int]):
    - an empty integer range (of int64 bounds) raises RuntimeError;
    - for fractions [0 <= min_size <= max_size <= 1] the sampled height and
      width lie in [[int(min_size * H), int(max_size * H)]] and
      [[int(min_size * W), int(max_size * W)]], both ends included, inside
      the image: [Crop] and [UpperLeftCrop] then always return, cutting
      image and mask (of the image's height and width) at one window of
      the sampled size, and [Resize] returns an image of the sampled size
      as soon as [int(min_size * H)] and [int(min_size * W)] are at least
      1. *)
Theorem sampled_size_operators (G : Generator) (K : Kernels)
    (self : SizeRange) (image mask : tensor4) (b c h w : Z) (s : rng G) :
  tensor4_shapedb b c h w image = true ->
  1 <= b -> 1 <= c -> 1 <= h -> 1 <= w ->
  (min_size self = None \/ max_size self = None ->
   outcome (Resize_forward G K self image mask None s) = Err ValueError
   /\ outcome (Crop_forward G self image mask None s) = Err ValueError
   /\ outcome (UpperLeftCrop_forward G self image mask None s) = Err ValueError)
  /\ (forall lo hi, min_size self = Some lo -> max_size self = Some hi ->
        float_int lo h = true -> float_int hi h = true ->
        float_int lo w = true -> float_int hi w = true ->
        int64 (py_int (fmul lo h)) = true ->
        int64 (py_int (fmul hi h) + 1) = true ->
        int64 (py_int (fmul lo w)) = true ->
        int64 (py_int (fmul hi w) + 1) = true ->
        py_int (fmul hi h) < py_int (fmul lo h)
        \/ py_int (fmul hi w) < py_int (fmul lo w) ->
        outcome (Resize_forward G K self image mask None s) = Err RuntimeError
        /\ outcome (Crop_forward G self image mask None s) = Err RuntimeError
        /\ outcome (UpperLeftCrop_forward G self image mask None s)
           = Err RuntimeError)
  /\ (forall lo hi, min_size self = Some lo -> max_size self = Some hi ->
        float_int lo h = true -> float_int hi h = true ->
        float_int lo w = true -> float_int hi w = true ->
        (0 <= lo)%Q -> (lo <= hi)%Q -> (hi <= 1)%Q ->
        (forall bm cm,
            tensor4_shapedb bm cm h w mask = true -> 1 <= bm -> 1 <= cm ->
            (exists th tw i j s',
                Crop_forward G self image mask None s
                = Ok ((F_crop image i j th tw, F_crop mask i j th tw), s')
                /\ py_int (fmul lo h) <= th <= py_int (fmul hi h)
                /\ py_int (fmul lo w) <= tw <= py_int (fmul hi w)
                /\ 0 <= i /\ i + th <= h /\ 0 <= j /\ j + tw <= w)
            /\ (exists th tw s',
                   UpperLeftCrop_forward G self image mask None s
                   = Ok ((F_crop image 0 0 th tw, F_crop mask 0 0 th tw), s')
                   /\ py_int (fmul lo h) <= th <= py_int (fmul hi h)
                   /\ py_int (fmul lo w) <= tw <= py_int (fmul hi w)
                   /\ th <= h /\ tw <= w))
        /\ (forall bm cm hm wm,
               tensor4_shapedb bm cm hm wm mask = true ->
               1 <= bm -> 1 <= cm -> 1 <= hm -> 1 <= wm ->
               1 <= py_int (fmul lo h) -> 1 <= py_int (fmul lo w) ->
               exists oh ow image' mask' s',
                 Resize_forward G K self image mask None s
                 = Ok ((image', mask'), s')
                 /\ py_int (fmul lo h) <= oh <= py_int (fmul hi h)
                 /\ py_int (fmul lo w) <= ow <= py_int (fmul hi w)
                 /\ F_resize K BILINEAR true image (oh, ow) = Ok image'
                 /\ F_resize K NEAREST false mask (oh, ow) = Ok mask')).
Proof.
  intros Himg Hb Hc Hh Hw. apply tensor4_shapedb_iff in Himg.
  pose proof (shape4_nondegenerate b c h w image Himg Hb Hc Hh) as Hshape.
  assert (Hsize : output_size_of G self image None = get_random_size G self h w)
    by (unfold output_size_of; now rewrite Hshape).
  assert (Hfail : forall e, get_random_size G self h w s = Err e ->
            outcome (Resize_forward G K self image mask None s) = Err e
            /\ outcome (Crop_forward G self image mask None s) = Err e
            /\ outcome (UpperLeftCrop_forward G self image mask None s) = Err e).
  { intros e E.
    unfold Resize_forward, Crop_forward, UpperLeftCrop_forward.
    rewrite Hsize. now rewrite !(bind_Err G _ _ _ _ E). }
  split; [| split].
  - intros Hnone. apply Hfail. now apply get_random_size_raises.
  - intros lo hi Hlo Hhi _ _ _ _ _ _ _ _ Hempty. apply Hfail.
    now apply (proj2 (get_random_size_raises G self h w s) lo hi).
  - intros lo hi Hlo Hhi _ _ _ _ H0 Hle H1.
    destruct (fraction_range lo hi h H0 Hle H1 ltac:(lia)) as (Hlh & Hhh & Hhtop).
    destruct (fraction_range lo hi w H0 Hle H1 ltac:(lia)) as (Hlw & Hhw & Hwtop).
    destruct (get_random_size_total G self lo hi h w s Hlo Hhi Hhh Hhw)
      as (th & tw & s1 & Esize & Hth & Htw).
    split.
    + intros bm cm _ _ _. split.
      * destruct (RandomCrop_get_params_inside G h w th tw s1)
          as (i & j & s2 & Ecrop & Hi & Hih & Hj & Hjw); try lia.
        exists th, tw, i, j, s2. unfold Crop_forward.
        rewrite Hsize, (bind_step G _ _ _ _ _ Esize), Hshape.
        rewrite (bind_step G _ _ _ _ _ Ecrop).
        split; [reflexivity | lia].
      * destruct (RandomCrop_get_params_inside G h w th tw s1)
          as (i & j & s2 & Ecrop & _); try lia.
        exists th, tw, s2. unfold UpperLeftCrop_forward.
        rewrite Hsize, (bind_step G _ _ _ _ _ Esize), Hshape.
        rewrite (bind_step G _ _ _ _ _ Ecrop).
        split; [reflexivity | lia].
    + intros bm cm hm wm Hmask Hbm Hcm Hhm Hwm H1h H1w.
      apply tensor4_shapedb_iff in Hmask.
      assert (Eimage : exists image', F_resize K BILINEAR true image (th, tw)
                                      = Ok image').
      { unfold F_resize. rewrite Hshape.
        destruct ((h =? th) && (w =? tw)); [eauto |].
        replace ((th <=? 0) || (tw <=? 0) || (h <=? 0) || (w <=? 0)) with false
          by (symmetry; rewrite !orb_false_iff, !Z.leb_gt; lia).
        eauto. }
      assert (Emask : exists mask', F_resize K NEAREST false mask (th, tw)
                                    = Ok mask').
      { unfold F_resize.
        rewrite (shape4_nondegenerate bm cm hm wm mask Hmask Hbm Hcm Hhm).
        destruct ((hm =? th) && (wm =? tw)); [eauto |].
        replace ((th <=? 0) || (tw <=? 0) || (hm <=? 0) || (wm <=? 0)) with false
          by (symmetry; rewrite !orb_false_iff, !Z.leb_gt; lia).
        eauto. }
      destruct Eimage as [image' Eimage]. destruct Emask as [mask' Emask].
      exists th, tw, image', mask', s1. unfold Resize_forward.
      rewrite Hsize, (bind_step G _ _ _ _ _ Esize).
      rewrite (bind_lift_Ok G _ _ _ _ Eimage), (bind_lift_Ok G _ _ _ _ Emask).
      repeat match goal with |- _ /\ _ => split end; trivial; lia.
Qed.

Lemma sampled_size_operators_witness :
  outcome (Crop_forward lcg {| min_size := None; max_size := Some 1%Q |}
             image_4x4 mask_4x4 None (lcg_rng 1 2 3)) = Err ValueError
  /\ outcome (Resize_forward lcg reference_kernels
                {| min_size := Some 1%Q; max_size := Some (1 # 2)%Q |}
                image_4x4 mask_4x4 None (lcg_rng 1 2 3)) = Err RuntimeError
  /\ (exists th tw i j s',
         Crop_forward lcg {| min_size := Some (1 # 2)%Q; max_size := Some 1%Q |}
           image_4x4 mask_4x4 None (lcg_rng 1 2 3)
         = Ok ((F_crop image_4x4 i j th tw, F_crop mask_4x4 i j th tw), s')
         /\ 2 <= th <= 4 /\ 2 <= tw <= 4
         /\ 0 <= i /\ i + th <= 4 /\ 0 <= j /\ j + tw <= 4).
Proof.
  assert (H11 : 1 <= 1) by lia. assert (H14 : 1 <= 4) by lia.
  split; [| split].
  - pose proof (sampled_size_operators lcg reference_kernels
                  {| min_size := None; max_size := Some 1%Q |}
                  image_4x4 mask_4x4 1 1 4 4 (lcg_rng 1 2 3)
                  eq_refl H11 H11 H14 H14) as (Hunset & _ & _).
    apply Hunset. left. reflexivity.
  - pose proof (sampled_size_operators lcg reference_kernels
                  {| min_size := Some 1%Q; max_size := Some (1 # 2)%Q |}
                  image_4x4 mask_4x4 1 1 4 4 (lcg_rng 1 2 3)
                  eq_refl H11 H11 H14 H14) as (_ & Hempty & _).
    apply (Hempty 1%Q (1 # 2)%Q); try side_condition.
    left. vm_compute. reflexivity.
  - pose proof (sampled_size_operators lcg reference_kernels
                  {| min_size := Some (1 # 2)%Q; max_size := Some 1%Q |}
                  image_4x4 mask_4x4 1 1 4 4 (lcg_rng 1 2 3)
                  eq_refl H11 H11 H14 H14) as (_ & _ & Hrange).
    assert (Hcrop := fun F1 F2 F3 F4 Q1 Q2 Q3 =>
              proj1 (Hrange (1 # 2)%Q 1%Q eq_refl eq_refl F1 F2 F3 F4 Q1 Q2 Q3)).
    assert (Hc := fun F1 F2 F3 F4 Q1 Q2 Q3 =>
              proj1 (Hcrop F1 F2 F3 F4 Q1 Q2 Q3 1 1 eq_refl H11 H11)).
    apply Hc; side_condition.
Defined.

(** ** Perspective: the sampled distortion scale *)



(** ** The skip sentinel and the index of [__getitem__] *)

Section Skip.

Variable G : Generator.
Context {Ann Img : Type}.
Variable self : CocoImageIDWrapper Ann Img.

(** [_load_mask] returns [None] for an image without annotations only. *)
Lemma load_mask_None (id : Z) (s s' : rng G) :
  _load_mask self id s = Ok (None, s') -> loadAnns self id = [] /\ s' = s.
Proof.
  unfold _load_mask. destruct (loadAnns self id) as [| ann0 anns0].
  { intros E. inversion E. now split. }
  intros E. exfalso.
  apply bind_Ok in E. destruct E as (anns & s1 & _ & E).
  destruct (negb (multi_w self)).
  - apply bind_Ok in E. destruct E as (mask & s2 & _ & E). discriminate.
  - apply bind_Ok in E. destruct E as (nb & s2 & _ & E).
    destruct (map (decode self) (py_slice anns 0 nb)) as [| m0 ms].
    + apply bind_Ok in E. destruct E as (masks & s3 & _ & E). discriminate.
    + apply bind_Ok in E. destruct E as (masks & s3 & _ & E).
      destruct (_ <? _).
      * apply bind_Ok in E. destruct E as (extra & s4 & _ & E).
        apply bind_Ok in E. destruct E as (cat & s5 & _ & E). discriminate.
      * discriminate.
Qed.

Lemma py_getitem_spec {A} (l : list A) (i : Z) (d : A) :
  let n := Z.of_nat (length l) in
  (- n <= i < n ->
   py_getitem l i = Ok (nth (Z.to_nat (if i <? 0 then i + n else i)) l d))
  /\ (i < - n \/ n <= i -> py_getitem l i = Err IndexError).
Proof.
  cbv zeta. unfold py_getitem.
  set (n := Z.of_nat (length l)). set (i' := if i <? 0 then i + n else i).
  split.
  - intros Hi.
    assert (Hi' : 0 <= i' < n) by (subst i'; destruct (Z.ltb_spec i 0); lia).
    replace ((0 <=? i') && (i' <? n)) with true
      by (symmetry; rewrite andb_true_iff, Z.leb_le, Z.ltb_lt; lia).
    destruct (nth_error l (Z.to_nat i')) as [a |] eqn:E.
    + now rewrite (nth_error_nth _ _ d E).
    + apply nth_error_None in E. lia.
  - intros Hi.
    assert (Hi' : i' < 0 \/ n <= i') by (subst i'; destruct (Z.ltb_spec i 0); lia).
    replace ((0 <=? i') && (i' <? n)) with false; [reflexivity |].
    symmetry. rewrite andb_false_iff, Z.leb_gt, Z.ltb_ge. lia.
Qed.

End Skip.

(** [__getitem__]: an index outside [[-n, n)] for [n] image ids raises
    IndexError, and a negative index inside it counts from the end.  When
    the call returns, the result is the skip sentinel exactly for an image
    without annotations (and then nothing was drawn); otherwise it is the
    transformed image of that id with the mask transform applied to the
    mask [_load_mask] built, in the state [_load_mask] left. *)
Theorem getitem_index_and_skip (G : Generator) (Ann Img : Type)
    (self : CocoImageIDWrapper Ann Img) (index : Z) (s : rng G) :
  let n := Z.of_nat (length (ids self)) in
  let id := nth (Z.to_nat (if index <? 0 then index + n else index))
                (ids self) 0 in
  (index < - n \/ n <= index -> getitem self index s = Err IndexError)
  /\ (forall item s', getitem self index s = Ok (item, s') ->
        - n <= index < n
        /\ match item with
           | None => loadAnns self id = [] /\ s' = s
           | Some (img, mask) =>
               loadAnns self id <> []
               /\ img = transform self (load_image self id)
               /\ exists m, _load_mask self id s = Ok (Some m, s')
                            /\ mask = mask_transform self m
           end)
  /\ (- n <= index < n -> loadAnns self id = [] ->
      getitem self index s = Ok (None, s)).
Proof.
  cbv zeta.
  destruct (py_getitem_spec (ids self) index 0) as [Hin Hout].
  split; [| split].
  - intros Hi. unfold getitem. apply bind_Err. unfold lift. now rewrite Hout.
  - intros item s' E.
    assert (Hi : - Z.of_nat (length (ids self)) <= index
                 < Z.of_nat (length (ids self))).
    { destruct (Z_lt_le_dec index (- Z.of_nat (length (ids self)))) as [Hl | Hl];
        [| destruct (Z_lt_le_dec index (Z.of_nat (length (ids self))));
           [lia |]].
      - unfold getitem in E. rewrite (bind_Err G _ _ _ IndexError) in E;
          [discriminate | unfold lift; rewrite Hout; [reflexivity | lia]].
      - unfold getitem in E. rewrite (bind_Err G _ _ _ IndexError) in E;
          [discriminate | unfold lift; rewrite Hout; [reflexivity | lia]]. }
    split; [exact Hi |].
    unfold getitem in E. rewrite (bind_lift_Ok G _ _ _ _ (Hin Hi)) in E.
    apply bind_Ok in E. destruct E as (mask & s1 & Emask & E).
    destruct mask as [m |].
    + inversion E; subst. split; [| split].
      * intros Hanns. unfold _load_mask in Emask. rewrite Hanns in Emask.
        discriminate.
      * reflexivity.
      * exists m. now split.
    + inversion E; subst. now apply (load_mask_None G self) in Emask.
  - intros Hi Hanns. unfold getitem. rewrite (bind_lift_Ok G _ _ _ _ (Hin Hi)).
    assert (Emask : _load_mask self
                      (nth (Z.to_nat (if index <? 0
                                      then index + Z.of_nat (length (ids self))
                                      else index)) (ids self) 0) s
                    = Ok (None, s)).
    { unfold _load_mask. now rewrite Hanns. }
    now rewrite (bind_step G _ _ _ _ _ Emask).
Qed.

Lemma getitem_index_and_skip_witness :
  let self := coco_example [bitmap_a; bitmap_b] false false true 3 in
  getitem self 5 (lcg_rng 1 2 3) = Err IndexError
  /\ exists m,
       _load_mask self (nth (Z.to_nat (-2 + Z.of_nat (length (ids self))))
                            (ids self) 0) (lcg_rng 1 2 3)
       = Ok (Some m, lcg_rng 1 2 3).
Proof.
  cbv zeta. split.
  - refine (proj1 (getitem_index_and_skip lcg bitmap unit
              (coco_example [bitmap_a; bitmap_b] false false true 3) 5
              (lcg_rng 1 2 3)) _).
    right. cbn. lia.
  - destruct (getitem
                (coco_example [bitmap_a; bitmap_b] false false true 3) (-2)
                (lcg_rng 1 2 3)) as [[item s'] | e] eqn:E;
      [| vm_compute in E; discriminate].
    pose proof (proj1 (proj2 (getitem_index_and_skip lcg bitmap unit
                  (coco_example [bitmap_a; bitmap_b] false false true 3) (-2)
                  (lcg_rng 1 2 3))) item s' E) as [_ Hitem].
    destruct item as [[img mask] |].
    + destruct Hitem as (_ & _ & m & Em & _). exists m.
      assert (Es : s' = lcg_rng 1 2 3)
        by (vm_compute in E; inversion E; reflexivity).
      rewrite <- Es at 2. exact Em.
    + vm_compute in E. discriminate.
Defined.

(** ** The union of the channels and the union mask *)

Lemma Qmax_inject (a b : N) :
  Qmax (inject_Z (Z.of_N a)) (inject_Z (Z.of_N b))
  = inject_Z (Z.of_N (N.max a b)).
Proof.
  unfold Qmax, GenericMinMax.gmax, Qcompare. cbn [Qnum Qden inject_Z].
  rewrite !Z.mul_1_r, N2Z.inj_compare. unfold N.max.
  destruct (N.compare_spec a b); subst; reflexivity.
Qed.

Lemma plane_ext (h w : Z) (p q : plane) :
  plane_shaped h w p -> plane_shaped h w q ->
  (forall y x, 0 <= y < h -> 0 <= x < w -> entry2 p y x = entry2 q y x) ->
  p = q.
Proof.
  intros [Hph Hp] [Hqh Hq] Hext. unfold height, plane in *.
  apply (nth_ext p q [] []); [lia |].
  intros y Hy.
  assert (Hpr : Z.of_nat (length (nth y p [])) = w).
  { rewrite Forall_forall in Hp. apply Hp, nth_In. lia. }
  assert (Hqr : Z.of_nat (length (nth y q [])) = w).
  { rewrite Forall_forall in Hq. apply Hq, nth_In. lia. }
  apply (nth_ext _ _ 0%Q 0%Q); [lia |].
  intros x Hx. specialize (Hext (Z.of_nat y) (Z.of_nat x)).
  unfold entry2 in Hext. rewrite !Nat2Z.id in Hext. apply Hext; lia.
Qed.

Lemma maximum_planes_shaped (h w : Z) (ps : list plane) (p : plane) :
  plane_shaped h w p -> Forall (plane_shaped h w) ps ->
  plane_shaped h w (fold_left (zip_with (zip_with Qmax)) ps p).
Proof.
  intros Hp Hps. revert p Hp.
  induction Hps as [| q ps Hq _ IH]; intros p Hp; [exact Hp |].
  cbn [fold_left]. apply IH.
  destruct Hp as [Hph Hp]. destruct Hq as [Hqh Hq]. unfold height in *.
  split; [unfold height; rewrite zip_with_length; lia |].
  eapply Forall_zip_with; [| exact Hp | exact Hq].
  intros r r' Hr Hr'. cbn beta in *. rewrite zip_with_length. lia.
Qed.

Lemma entry2_maximum_planes (h w : Z) (ps : list plane) (p : plane) (y x : Z) :
  plane_shaped h w p -> Forall (plane_shaped h w) ps ->
  0 <= y < h -> 0 <= x < w ->
  entry2 (fold_left (zip_with (zip_with Qmax)) ps p) y x
  = fold_left Qmax (map (fun q => entry2 q y x) ps) (entry2 p y x).
Proof.
  intros Hp Hps Hy Hx. revert p Hp.
  induction Hps as [| q ps Hq Hps IH]; intros p Hp; [reflexivity |].
  cbn [fold_left map].
  assert (Hpq : plane_shaped h w (zip_with (zip_with Qmax) p q))
    by (apply (maximum_planes_shaped h w [q] p); [exact Hp | now constructor]).
  rewrite (IH _ Hpq). f_equal.
  destruct Hp as [Hph Hp]. destruct Hq as [Hqh Hq].
  unfold entry2, height, plane in *.
  assert (Hpr : Z.of_nat (length (nth (Z.to_nat y) p [])) = w).
  { rewrite Forall_forall in Hp. apply Hp, nth_In. lia. }
  assert (Hqr : Z.of_nat (length (nth (Z.to_nat y) q [])) = w).
  { rewrite Forall_forall in Hq. apply Hq, nth_In. lia. }
  rewrite (nth_zip_with _ p q (Z.to_nat y) [] [] []) by lia.
  now rewrite (nth_zip_with _ _ _ (Z.to_nat x) 0%Q 0%Q 0%Q) by lia.
Qed.

Lemma entry2_to_float (m : bitmap) (y x : Z) :
  entry2 (to_float m) y x = bitmap_value m y x.
Proof.
  unfold entry2, to_float, bitmap_value.
  rewrite (nth_map_default _ m (Z.to_nat y) [] []) by reflexivity.
  change 0%Q with ((fun v => inject_Z (Z.of_N v)) 0%N).
  now rewrite map_nth.
Qed.

Lemma fold_left_Qmax_inject (ns : list N) (n0 : N) :
  fold_left Qmax (map (fun n => inject_Z (Z.of_N n)) ns) (inject_Z (Z.of_N n0))
  = inject_Z (Z.of_N (fold_left N.max ns n0)).
Proof.
  revert n0. induction ns as [| n ns IH]; intros n0; [reflexivity |].
  cbn [map fold_left]. now rewrite Qmax_inject, IH.
Qed.

Lemma fold_left_Nmax_zeros (k : nat) (n0 : N) :
  fold_left N.max (repeat 0%N k) n0 = n0.
Proof.
  induction k as [| k IH]; [reflexivity |].
  cbn [repeat fold_left]. now rewrite N.max_0_r.
Qed.

Lemma fold_left_through_map {A B C} (g : A -> B -> A) (f : C -> B)
    (l : list C) (a : A) :
  fold_left (fun v c => g v (f c)) l a = fold_left g (map f l) a.
Proof.
  revert a. induction l as [| c l IH]; intros a; [reflexivity |]. apply IH.
Qed.

Section ChannelUnion.

Context {Ann Img : Type}.
Variable self : CocoImageIDWrapper Ann Img.

Lemma channels_shaped (h w : Z) (anns : list Ann) :
  forallb (fun ann => bitmap_shapedb h w (decode self ann)) anns = true ->
  Forall (plane_shaped h w) (map (fun ann => to_float (decode self ann)) anns).
Proof.
  intros Hall. apply Forall_map, Forall_forall. intros ann Hin.
  rewrite forallb_forall in Hall. apply plane_shapedb_iff.
  now apply to_float_shaped, Hall.
Qed.

(** The maximum over the channels built from [shuffled], zero channels
    included, is the accumulation of the union loop over [shuffled]. *)
Lemma channel_maximum_accumulate (h w : Z) (ann0 : Ann) (rest : list Ann)
    (k : nat) :
  0 <= w ->
  forallb (fun ann => bitmap_shapedb h w (decode self ann)) (ann0 :: rest)
  = true ->
  fold_left (zip_with (zip_with Qmax))
            (map (fun ann => to_float (decode self ann)) rest
             ++ repeat (zeros h w) k)
            (to_float (decode self ann0))
  = union_accumulate self (ann0 :: rest) (zeros h w).
Proof.
  intros Hw Hall.
  pose proof (channels_shaped h w _ Hall) as Hchan.
  cbn [map] in Hchan. apply Forall_cons_iff in Hchan.
  destruct Hchan as [Hc0 Hrest].
  assert (Hh : 0 <= h) by (destruct Hc0 as [E _]; unfold height in E; lia).
  assert (Hzeros : plane_shaped h w (zeros h w)) by (now apply full_shaped).
  assert (Hps : Forall (plane_shaped h w)
                  (map (fun ann => to_float (decode self ann)) rest
                   ++ repeat (zeros h w) k)).
  { apply Forall_app. split; [exact Hrest | now apply repeat_shaped]. }
  apply (plane_ext h w).
  - now apply maximum_planes_shaped.
  - now apply accumulate_shaped.
  - intros y x Hy Hx.
    rewrite (entry2_maximum_planes h w) by trivial.
    rewrite (entry2_accumulate self h w) by trivial.
    set (bit := fun ann => nth (Z.to_nat x)
                               (nth (Z.to_nat y) (decode self ann) []) 0%N).
    assert (Ez : entry2 (zeros h w) y x = inject_Z (Z.of_N 0))
      by (apply nth_full; lia).
    assert (Ef : forall ann, entry2 (to_float (decode self ann)) y x
                             = inject_Z (Z.of_N (bit ann)))
      by (intros ann; apply entry2_to_float).
    assert (Eb : forall ann, bitmap_value (decode self ann) y x
                             = inject_Z (Z.of_N (bit ann)))
      by reflexivity.
    assert (L : map (fun q => entry2 q y x)
                    (map (fun ann => to_float (decode self ann)) rest
                     ++ repeat (zeros h w) k)
                = map (fun n => inject_Z (Z.of_N n))
                      (map bit rest ++ repeat 0%N k)).
    { rewrite !map_app, !map_map. f_equal.
      - apply map_ext. exact Ef.
      - clear - Ez. induction k as [| k IH]; [reflexivity |].
        cbn [repeat map]. now rewrite IH, Ez. }
    rewrite L, Ef, fold_left_Qmax_inject.
    rewrite fold_left_app, fold_left_Nmax_zeros.
    cbn [fold_left]. rewrite Ez, Eb, Qmax_inject, N.max_0_l.
    rewrite (fold_left_through_map Qmax
               (fun ann => bitmap_value (decode self ann) y x)).
    rewrite (map_ext _ (fun ann => inject_Z (Z.of_N (bit ann))) Eb).
    rewrite <- (map_map bit (fun n => inject_Z (Z.of_N n))).
    now rewrite fold_left_Qmax_inject.
Qed.

End ChannelUnion.

(** The two mask modes agree on the union.  For an image with annotations
    decoded at its resolution, the maximum over the channels that
    multi-mask mode builds from all the annotations, in whatever order and
    with whatever number of zero channels appended (the reduction
    [torch.max(mask, dim=0).values] of the collator), is exactly the
    one-channel mask union mode returns. *)
Theorem channel_union_is_union_mask (G : Generator) (Ann Img : Type)
    (self : CocoImageIDWrapper Ann Img) (id : Z) (s : rng G)
    (shuffled : list Ann) (k : nat) :
  multi_w self = false ->
  loadAnns self id <> [] ->
  0 <= img_width self id ->
  forallb (fun ann => bitmap_shapedb (img_height self id) (img_width self id)
                                     (decode self ann))
          (loadAnns self id) = true ->
  Permutation (loadAnns self id) shuffled ->
  exists union,
    outcome (_load_mask self id s) = Ok (Some [union])
    /\ torch_max_dim0
         (map (fun ann => to_float (decode self ann)) shuffled
          ++ repeat (zeros (img_height self id) (img_width self id)) k)
       = Ok union.
Proof.
  intros Hmode Hne Hw Hshape Hperm.
  exists (union_accumulate self (loadAnns self id)
            (zeros (img_height self id) (img_width self id))).
  split; [now apply load_mask_union |].
  rewrite (accumulate_Permutation Ann Img self _ _ Hperm).
  rewrite (forallb_Permutation _ _ _ Hperm) in Hshape.
  destruct shuffled as [| ann0 rest].
  { apply Permutation_sym, Permutation_nil in Hperm. congruence. }
  cbn [map app torch_max_dim0]. apply f_equal.
  now apply channel_maximum_accumulate.
Qed.

Lemma channel_union_is_union_mask_witness :
  let self := coco_example [bitmap_a; bitmap_b; bitmap_c] true false true 3 in
  exists union,
    outcome (_load_mask self 10 (lcg_rng 1 2 3)) = Ok (Some [union])
    /\ torch_max_dim0
         (map (fun ann => to_float (decode self ann))
              [bitmap_c; bitmap_a; bitmap_b]
          ++ repeat (zeros 2 2) 2)
       = Ok union.
Proof.
  apply (channel_union_is_union_mask lcg bitmap unit
           (coco_example [bitmap_a; bitmap_b; bitmap_c] true false true 3)
           10 (lcg_rng 1 2 3) [bitmap_c; bitmap_a; bitmap_b] 2).
  - reflexivity.
  - cbn. discriminate.
  - cbn. lia.
  - reflexivity.
  - cbn. apply Permutation_sym.
    apply (Permutation_cons_app [bitmap_a; bitmap_b] []).
    apply Permutation_refl.
Defined.

(** ** Perspective: one warp for image and mask *)

(** [Perspective.forward]: whenever the call returns, the scale is the one
    given, or else the one [get_random_distortion_scale] drew first; the
    points come from one call of [get_perspective_params] on the width and
    height of the IMAGE (whatever the size of the mask), made after the
    scale is known and leaving the state the call ends in; the start points
    are the four corners of the image and there are four end points; image
    and mask are the results of [F.perspective] on that one pair of point
    lists, and both keep their shapes. *)
Theorem Perspective_forward_shared_warp (G : Generator) (self : Perspective)
    (image mask image' mask' : tensor4) (b c h w : Z)
    (distortion_scale : option Q) (s s' : rng G) :
  tensor4_shapedb b c h w image = true -> 1 <= b -> 1 <= c -> 1 <= h ->
  Perspective_forward G self image mask distortion_scale s
  = Ok ((image', mask'), s') ->
  exists d s1 endpoints,
    let startpoints := [(0, 0); (w - 1, 0); (w - 1, h - 1); (0, h - 1)] in
    match distortion_scale with
    | Some d0 => d = d0 /\ s1 = s
    | None => get_random_distortion_scale G self s = Ok (d, s1)
    end
    /\ get_perspective_params G w h d (random_seed_attr self) s1
       = Ok ((startpoints, endpoints), s')
    /\ length endpoints = 4%nat
    /\ F_perspective BILINEAR image startpoints endpoints = Ok image'
    /\ F_perspective BILINEAR mask startpoints endpoints = Ok mask'
    /\ tensor4_shapedb b c h w image' = true
    /\ (forall bm cm hm wm,
           tensor4_shapedb bm cm hm wm mask = true -> 1 <= hm ->
           tensor4_shapedb bm cm hm wm mask' = true).
Proof.
  intros Himg Hb Hc Hh E. apply tensor4_shapedb_iff in Himg.
  unfold Perspective_forward in E.
  apply bind_Ok in E. destruct E as (d & s1 & Escale & E).
  rewrite (shape4_nondegenerate b c h w image Himg Hb Hc Hh) in E.
  apply bind_Ok in E. destruct E as ([startpoints endpoints] & s2 & Eparams & E).
  assert (Hpoints : startpoints = [(0, 0); (w - 1, 0); (w - 1, h - 1); (0, h - 1)]
                    /\ length endpoints = 4%nat).
  { pose proof Eparams as Eparams'. unfold get_perspective_params in Eparams'.
    apply bind_Ok in Eparams'. destruct Eparams' as (u & t0 & _ & Eparams').
    do 8 (apply bind_Ok in Eparams';
          destruct Eparams' as (? & ? & _ & Eparams')).
    inversion Eparams'; subst. now split. }
  destruct Hpoints as [-> Hlen].
  apply bind_Ok in E. destruct E as (im & s3 & Eim & E).
  apply bind_Ok in E. destruct E as (mk & s4 & Emk & E).
  assert (Hs3 : s3 = s2)
    by (unfold lift in Eim; destruct (F_perspective _ image _ _);
        now inversion Eim).
  assert (Hs4 : s4 = s3)
    by (unfold lift in Emk; destruct (F_perspective _ mask _ _);
        now inversion Emk).
  apply lift_Ok in Eim. apply lift_Ok in Emk.
  inversion E; subst im mk s4 s3 s2; clear E.
  exists d, s1, endpoints. cbv zeta.
  assert (Hscale : match distortion_scale with
                   | Some d0 => d = d0 /\ s1 = s
                   | None => get_random_distortion_scale G self s = Ok (d, s1)
                   end).
  { destruct distortion_scale as [d0 |]; [| exact Escale].
    inversion Escale. now split. }
  unfold F_perspective in Eim, Emk |- *.
  destruct (get_perspective_coeffs _ endpoints) as [coeffs |] eqn:Ecoeffs;
    [| discriminate].
  inversion Eim; subst image'. inversion Emk; subst mask'.
  repeat match goal with |- _ /\ _ => split end; trivial.
  - apply tensor4_shapedb_iff. eapply map4_shaped; [| exact Himg].
    intros p Hp. now apply grid_sample_shaped.
  - intros bm cm hm wm Hmask Hhm. apply tensor4_shapedb_iff in Hmask.
    apply tensor4_shapedb_iff. eapply map4_shaped; [| exact Hmask].
    intros p Hp. now apply grid_sample_shaped.
Qed.

Lemma Perspective_forward_shared_warp_witness :
  exists image' mask' s' endpoints,
    Perspective_forward lcg perspective_default image_4x4 mask_4x4
                        (Some (1 # 2)%Q) (lcg_rng 1 2 3)
    = Ok ((image', mask'), s')
    /\ get_perspective_params lcg 4 4 (1 # 2) None (lcg_rng 1 2 3)
       = Ok (([(0, 0); (3, 0); (3, 3); (0, 3)], endpoints), s')
    /\ F_perspective BILINEAR image_4x4 [(0, 0); (3, 0); (3, 3); (0, 3)]
                     endpoints = Ok image'
    /\ F_perspective BILINEAR mask_4x4 [(0, 0); (3, 0); (3, 3); (0, 3)]
                     endpoints = Ok mask'
    /\ tensor4_shapedb 1 1 4 4 image' = true.
Proof.
  destruct (Perspective_forward lcg perspective_default image_4x4 mask_4x4
              (Some (1 # 2)%Q) (lcg_rng 1 2 3)) as [[[im mk] s'] | e] eqn:E;
    [| vm_compute in E; discriminate].
  destruct (Perspective_forward_shared_warp lcg perspective_default
              image_4x4 mask_4x4 im mk 1 1 4 4 (Some (1 # 2)%Q)
              (lcg_rng 1 2 3) s' eq_refl ltac:(lia) ltac:(lia) ltac:(lia) E)
    as (d & s1 & endpoints & [-> ->] & Hparams & _ & Him & Hmk & Hshape & _).
  exists im, mk, s', endpoints.
  repeat match goal with |- _ /\ _ => split end; trivial.
Defined.

(** * Seeded calls *)

Section SeededCalls.

Variable G : Generator.
Variable K : Kernels.

Lemma np_frame_get_random_distortion_scale self :
  np_frame G (get_random_distortion_scale G self).
Proof. unfold get_random_distortion_scale. repeat np_frame_step. Qed.

Lemma np_frame_Perspective_forward self image mask distortion_scale :
  np_frame G (Perspective_forward G self image mask distortion_scale).
Proof.
  unfold Perspective_forward.
  repeat np_frame_step;
    first [ apply np_frame_get_random_distortion_scale
          | apply np_frame_get_perspective_params ].
Qed.

(** A computation that leaves numpy's generator alone returns with the
    numpy state it was started with. *)
Lemma np_frame_keeps {A} (m : M G A) (s s' : rng G) (a : A) :
  np_frame G m -> m s = Ok (a, s') -> np_rng s' = np_rng s.
Proof.
  intros Hframe E. specialize (Hframe s (np_rng s)).
  replace (set_np (np_rng s) s) with s in Hframe by (now destruct s).
  rewrite E in Hframe. inversion Hframe as [Hs]. now rewrite Hs at 1.
Qed.

Lemma torch_randint_state (low high v : Z) (s s' : rng G) :
  torch_randint low high s = Ok (v, s') ->
  s' = set_torch (snd (gen_next G (torch_rng s))) s.
Proof.
  unfold torch_randint. destruct (low <? high); [| discriminate].
  destruct (gen_next G (torch_rng s)) as [r t]. intros E. now inversion E.
Qed.

(** What runs after a computation that forgot the state it was called in
    does not depend on that state either. *)
Lemma bind_forgets {A B} (m : M G A) (later : A -> M G B) (s1 s2 : rng G) :
  m s1 = m s2 -> bind m later s1 = bind m later s2.
Proof. unfold bind. now intros ->. Qed.

(** With an explicit scale a [Perspective] with [random_seed] forgets the
    torch and Python states it was called in. *)
Lemma Perspective_forward_seeded_forgets self image mask d seed
    (s1 s2 : rng G) :
  random_seed_attr self = Some seed -> np_rng s1 = np_rng s2 ->
  Perspective_forward G self image mask (Some d) s1
  = Perspective_forward G self image mask (Some d) s2.
Proof.
  intros Hseed Hnp. unfold Perspective_forward.
  erewrite !bind_step by reflexivity.
  destruct (shape4 image) as [[[b c] h] w]. rewrite Hseed.
  apply bind_forgets. now apply get_perspective_params_seeded_forgets.
Qed.

(** The state a [Perspective] call with [random_seed] leaves: the Python
    generator as seeded, the torch generator eight draws after the seed,
    numpy's generator as before the call. *)
Lemma Perspective_forward_seeded_state self image mask distortion_scale seed
    (s s' : rng G) out :
  random_seed_attr self = Some seed ->
  Perspective_forward G self image mask distortion_scale s = Ok (out, s') ->
  torch_rng s' = advance G 8 (gen_seed G seed)
  /\ py_rng s' = gen_seed G seed
  /\ np_rng s' = np_rng s.
Proof.
  intros Hseed E.
  pose proof (np_frame_keeps _ _ _ _
                (np_frame_Perspective_forward self image mask distortion_scale)
                E) as Hnp.
  unfold Perspective_forward in E.
  apply bind_Ok in E. destruct E as (d & s1 & _ & E).
  destruct (shape4 image) as [[[b c] h] w]. rewrite Hseed in E.
  apply bind_Ok in E. destruct E as ([sp ep] & s2 & Eparams & E).
  apply bind_Ok in E. destruct E as (im & s3 & Eim & E).
  apply bind_Ok in E. destruct E as (mk & s4 & Emk & E).
  unfold lift in Eim, Emk.
  destruct (F_perspective _ image _ _); [| discriminate].
  destruct (F_perspective _ mask _ _); [| discriminate].
  inversion Eim; inversion Emk; inversion E; subst. clear Eim Emk E.
  unfold get_perspective_params in Eparams.
  apply bind_Ok in Eparams. destruct Eparams as (u & t0 & Eseed & Eparams).
  assert (Ht0 : torch_rng t0 = gen_seed G seed /\ py_rng t0 = gen_seed G seed).
  { unfold bind, torch_manual_seed, py_random_seed in Eseed. cbn in Eseed.
    inversion Eseed. now split. }
  destruct Ht0 as [Ht Hp].
  apply bind_Ok in Eparams. destruct Eparams as (v1 & t1 & E1 & Eparams).
  apply bind_Ok in Eparams. destruct Eparams as (v2 & t2 & E2 & Eparams).
  apply bind_Ok in Eparams. destruct Eparams as (v3 & t3 & E3 & Eparams).
  apply bind_Ok in Eparams. destruct Eparams as (v4 & t4 & E4 & Eparams).
  apply bind_Ok in Eparams. destruct Eparams as (v5 & t5 & E5 & Eparams).
  apply bind_Ok in Eparams. destruct Eparams as (v6 & t6 & E6 & Eparams).
  apply bind_Ok in Eparams. destruct Eparams as (v7 & t7 & E7 & Eparams).
  apply bind_Ok in Eparams. destruct Eparams as (v8 & t8 & E8 & Eparams).
  inversion Eparams; subst s'. clear Eparams.
  apply torch_randint_state in E1, E2, E3, E4, E5, E6, E7, E8.
  subst t8 t7 t6 t5 t4 t3 t2 t1. cbn [torch_rng py_rng set_torch].
  rewrite Ht, Hp. repeat split; trivial.
Qed.

End SeededCalls.

(** C9 (as the code has it): a seeded call overwrites the process-wide
    torch and Python generators and never restores them.
    - [CropResizePad] with [seed]: what the call returns and the generator
      states it leaves, hence the result of whatever runs after it, are
      the same from any two states with one numpy state, and numpy's
      generator is left as it was.
    - [Perspective] with [random_seed]: the same with an explicit
      distortion scale; without one the scale is sampled BEFORE the reseed,
      and the call depends on the earlier torch state through that one
      draw only.  Whenever the call returns, it leaves the Python
      generator as seeded, the torch generator eight draws after the seed
      and numpy's generator as it was. *)
Theorem seeded_call_reseed_persists (G : Generator) (K : Kernels) :
  (forall self images masks sizes seed (s1 s2 : rng G),
      np_rng s1 = np_rng s2 ->
      CropResizePad_forward G K self images masks sizes (Some seed) s1
      = CropResizePad_forward G K self images masks sizes (Some seed) s2)
  /\ (forall self images masks sizes seed (s s' : rng G) out,
         CropResizePad_forward G K self images masks sizes seed s = Ok (out, s') ->
         np_rng s' = np_rng s)
  /\ (forall self image mask d seed (s1 s2 : rng G),
         random_seed_attr self = Some seed -> np_rng s1 = np_rng s2 ->
         Perspective_forward G self image mask (Some d) s1
         = Perspective_forward G self image mask (Some d) s2)
  /\ (forall self image mask seed (s1 s2 : rng G),
         random_seed_attr self = Some seed -> np_rng s1 = np_rng s2 ->
         outcome (get_random_distortion_scale G self s1)
         = outcome (get_random_distortion_scale G self s2) ->
         Perspective_forward G self image mask None s1
         = Perspective_forward G self image mask None s2)
  /\ (forall self image mask distortion_scale seed (s s' : rng G) out,
         random_seed_attr self = Some seed ->
         Perspective_forward G self image mask distortion_scale s
         = Ok (out, s') ->
         torch_rng s' = advance G 8 (gen_seed G seed)
         /\ py_rng s' = gen_seed G seed
         /\ np_rng s' = np_rng s)
  /\ (forall (A : Type) (later : M G A) self images masks sizes seed
             (s1 s2 : rng G),
         np_rng s1 = np_rng s2 ->
         (_ <- CropResizePad_forward G K self images masks sizes (Some seed) ;;
          later) s1
         = (_ <- CropResizePad_forward G K self images masks sizes (Some seed) ;;
            later) s2)
  /\ (forall (A : Type) (later : M G A) self image mask d seed (s1 s2 : rng G),
         random_seed_attr self = Some seed -> np_rng s1 = np_rng s2 ->
         (_ <- Perspective_forward G self image mask (Some d) ;; later) s1
         = (_ <- Perspective_forward G self image mask (Some d) ;; later) s2).
Proof.
  repeat match goal with |- _ /\ _ => split end.
  - intros. now apply CropResizePad_forward_seeded_forgets.
  - intros self images masks sizes seed s s' out E.
    exact (np_frame_keeps G _ _ _ _
             (np_frame_CropResizePad_forward G K self images masks sizes seed) E).
  - intros self image mask d seed s1 s2 Hseed Hnp.
    now apply (Perspective_forward_seeded_forgets G self image mask d seed).
  - intros self image mask seed s1 s2 Hseed Hnp Hscale.
    unfold Perspective_forward.
    pose proof (np_frame_get_random_distortion_scale G self) as Hframe.
    destruct (get_random_distortion_scale G self s1) as [[d1 t1] | e1] eqn:E1;
      destruct (get_random_distortion_scale G self s2) as [[d2 t2] | e2] eqn:E2;
      cbn in Hscale; try discriminate.
    + inversion Hscale; subst d2.
      rewrite (bind_step G _ _ _ _ _ E1), (bind_step G _ _ _ _ _ E2).
      apply (np_frame_keeps G _ _ _ _ Hframe) in E1.
      apply (np_frame_keeps G _ _ _ _ Hframe) in E2.
      destruct (shape4 image) as [[[b c] h] w]. rewrite Hseed.
      apply bind_forgets.
      apply get_perspective_params_seeded_forgets. congruence.
    + inversion Hscale; subst e2.
      now rewrite (bind_Err G _ _ _ _ E1), (bind_Err G _ _ _ _ E2).
  - intros. eapply Perspective_forward_seeded_state; eassumption.
  - intros A later self images masks sizes seed s1 s2 Hnp.
    apply bind_forgets. now apply CropResizePad_forward_seeded_forgets.
  - intros A later self image mask d seed s1 s2 Hseed Hnp.
    apply bind_forgets.
    now apply (Perspective_forward_seeded_forgets G self image mask d seed).
Qed.

Lemma seeded_call_reseed_persists_witness :
  CropResizePad_forward lcg reference_kernels crop_resize_pad_half
    image_2x2 mask_2x2 None (Some 42) (lcg_rng 1 2 3)
  = CropResizePad_forward lcg reference_kernels crop_resize_pad_half
      image_2x2 mask_2x2 None (Some 42) (lcg_rng 5 6 3)
  /\ Perspective_forward lcg perspective_seeded image_2x2 mask_2x2
       (Some (1 # 2)%Q) (lcg_rng 1 2 3)
     = Perspective_forward lcg perspective_seeded image_2x2 mask_2x2
         (Some (1 # 2)%Q) (lcg_rng 5 6 3)
  /\ (_ <- Perspective_forward lcg perspective_seeded image_2x2 mask_2x2
             (Some (1 # 2)%Q) ;;
      Rotate_get_random_angle lcg rotate_default) (lcg_rng 1 2 3)
     = (_ <- Perspective_forward lcg perspective_seeded image_2x2 mask_2x2
               (Some (1 # 2)%Q) ;;
        Rotate_get_random_angle lcg rotate_default) (lcg_rng 5 6 3).
Proof.
  destruct (seeded_call_reseed_persists lcg reference_kernels)
    as (Hcrop & _ & Hpersp & _ & _ & _ & Hlater).
  split; [| split].
  - apply Hcrop. reflexivity.
  - apply (Hpersp perspective_seeded image_2x2 mask_2x2 (1 # 2)%Q 42);
      reflexivity.
  - apply (Hlater Z (Rotate_get_random_angle lcg rotate_default)
             perspective_seeded image_2x2 mask_2x2 (1 # 2)%Q 42); reflexivity.
Defined.

(** * CropResizePad: the canvas and the clamp *)

Section CropResizePadClamp.

Variable G : Generator.
Variable K : Kernels.



End CropResizePadClamp.


